(** * ClipUtils: the compression thread of [Main.py]

    A shallow embedding of [VideoCompressorThread] (Main.py, lines 74-289):
    the job controller [run], the three pipelines, the diagnostic stream
    reader [run_ffmpeg_command], the time parser and the scratch-folder
    cleanup, together with the properties the design document states about
    them.  The last part embeds what the window [VideoCompressor] does
    around a job: starting it, naming its output, showing its log lines
    and sweeping the scratch folder after it.

    Conventions of the embedding
    - Python [str] values are [string]s, read as sequences of code points
      below 256.
    - Python [float] values are IEEE 754 binary64 numbers, represented by the
      standard library's [spec_float] with [prec = 53] and [emax = 1024].
    - The external world (ffmpeg, ffprobe, the file system, the clock) is an
      explicit environment record; the thread's attributes and the signals
      it emits are an explicit state threaded through a state-and-exception
      monad. *)

From stdpp Require Import base gmap strings list.
From Stdlib Require Import Ascii ZArith Lia Bool Sorted.
From Stdlib Require Import Floats.SpecFloat.

Local Open Scope string_scope.
Local Open Scope list_scope.
Local Open Scope Z_scope.

(** ** Python exceptions *)

Inductive exn :=
| ValueError (msg : string)
| TypeError (msg : string)
| IndexError (msg : string)
| ZeroDivisionError (msg : string)
| OverflowError (msg : string)
| RuntimeError (msg : string)
| FileNotFoundError (msg : string)
| OSError (msg : string).

(** [str(e)] *)
Definition str_exn (e : exn) : string :=
  match e with
  | ValueError m | TypeError m | IndexError m | ZeroDivisionError m
  | OverflowError m | RuntimeError m | FileNotFoundError m | OSError m => m
  end.

(** ** String operations of the Python built-ins the thread uses *)

Module PyStr.

Definition code (c : ascii) : Z := Z.of_nat (nat_of_ascii c).

(** [c.isspace()] for a code point below 256. *)
Definition is_space (c : ascii) : bool :=
  let n := code c in
  ((9 <=? n) && (n <=? 13)) || ((28 <=? n) && (n <=? 32))
  || (n =? 133) || (n =? 160).

Definition is_digit (c : ascii) : bool :=
  let n := code c in (48 <=? n) && (n <=? 57).

Definition digit_val (c : ascii) : Z := code c - 48.

Definition is_empty (s : string) : bool :=
  match s with EmptyString => true | _ => false end.

(** [s.lstrip()] *)
Fixpoint lstrip (s : string) : string :=
  match s with
  | String c r => if is_space c then lstrip r else s
  | EmptyString => EmptyString
  end.

(** [s.rstrip()] *)
Fixpoint rstrip (s : string) : string :=
  match s with
  | String c r =>
      let r' := rstrip r in
      if is_space c && is_empty r' then EmptyString else String c r'
  | EmptyString => EmptyString
  end.

(** [s.strip()] *)
Definition strip (s : string) : string := rstrip (lstrip s).

(** [sub in s] *)
Fixpoint contains (sub s : string) : bool :=
  String.prefix sub s ||
  match s with
  | String _ r => contains sub r
  | EmptyString => false
  end.

(** [s.replace(a, b)] for single characters [a] and [b]. *)
Fixpoint replace_char (a b : ascii) (s : string) : string :=
  match s with
  | String c r =>
      String (if Ascii.eqb c a then b else c) (replace_char a b r)
  | EmptyString => EmptyString
  end.

(** [s.split(sep)] for a non-empty [sep]: the piece under construction
    and the pieces after it.  [skip] counts the characters of a separator
    already matched that are still to be passed over. *)
Fixpoint split_aux (sep : string) (skip : nat) (s : string)
  : string * list string :=
  match s with
  | EmptyString => (EmptyString, [])
  | String c r =>
      match skip with
      | S k => split_aux sep k r
      | O =>
          if String.prefix sep s then
            (EmptyString,
             let '(p, ps) := split_aux sep (String.length sep - 1) r in
             p :: ps)
          else
            let '(p, ps) := split_aux sep 0 r in (String c p, ps)
      end
  end.

Definition split (sep s : string) : list string :=
  let '(p, ps) := split_aux sep 0 s in p :: ps.

(** [s.split()]: maximal runs of non-blank characters. *)
Fixpoint split_ws_aux (s : string) : string * list string :=
  match s with
  | EmptyString => (EmptyString, [])
  | String c r =>
      let '(p, ps) := split_ws_aux r in
      if is_space c then (EmptyString, if is_empty p then ps else p :: ps)
      else (String c p, ps)
  end.

Definition split_ws (s : string) : list string :=
  let '(p, ps) := split_ws_aux s in if is_empty p then ps else p :: ps.

(** The longest prefix of decimal digits and what follows it. *)
Fixpoint span_digits (s : string) : string * string :=
  match s with
  | String c r =>
      if is_digit c then let '(d, t) := span_digits r in (String c d, t)
      else (EmptyString, s)
  | EmptyString => (EmptyString, EmptyString)
  end.

Fixpoint drop (n : nat) (s : string) : string :=
  match n, s with
  | S k, String _ r => drop k r
  | _, _ => s
  end.

(** A match of the pattern [bitrate=\d+] anchored at the start of [s]. *)
Definition match_bitrate (s : string) : option (string * string) :=
  if String.prefix "bitrate=" s then
    let '(d, t) := span_digits (drop 8 s) in
    if is_empty d then None else Some (("bitrate=" ++ d)%string, t)
  else None.

(** [re.split(r'(bitrate=\d+)', s, maxsplit=1)]: [None] stands for the
    one-element list [[s]] (no match), [Some (a, m, b)] for [[a, m, b]]. *)
Fixpoint re_split_bitrate (s : string) : option (string * string * string) :=
  match match_bitrate s with
  | Some (m, t) => Some (EmptyString, m, t)
  | None =>
      match s with
      | String c r =>
          match re_split_bitrate r with
          | Some (a, m, b) => Some (String c a, m, b)
          | None => None
          end
      | EmptyString => None
      end
  end.

(** ASCII lower-casing, for the case-insensitive words of [float()]. *)
Definition lower (c : ascii) : ascii :=
  let n := code c in
  if (65 <=? n) && (n <=? 90) then ascii_of_nat (Z.to_nat (n + 32)) else c.

Fixpoint lower_str (s : string) : string :=
  match s with
  | String c r => String (lower c) (lower_str r)
  | EmptyString => EmptyString
  end.

End PyStr.

(** ** Python floats *)

Module PyFloat.

Definition float := spec_float.

Definition prec : Z := 53.
Definition emax : Z := 1024.

Definition fadd : float -> float -> float := SFadd prec emax.
Definition fsub : float -> float -> float := SFsub prec emax.
Definition fmul : float -> float -> float := SFmul prec emax.
Definition fle : float -> float -> bool := SFleb.

(** The float nearest to an integer ([float(n)], and the conversion of an
    [int] operand in mixed arithmetic). *)
Definition of_Z (n : Z) : float := binary_normalize prec emax n 0 false.

Definition is_zero (x : float) : bool :=
  match x with S754_zero _ => true | _ => false end.

(** [bool(x)]: every float but the two zeros is true. *)
Definition truthy (x : float) : bool := negb (is_zero x).

(** [x / y]: Python raises where IEEE 754 would return an infinity or a
    NaN for a zero divisor. *)
Definition fdiv (x y : float) : exn + float :=
  if is_zero y then inl (ZeroDivisionError "float division by zero")
  else inr (SFdiv prec emax x y).

(** [n < x] for an [int] [n] and a float [x].  Python compares the two
    exactly; a NaN compares false. *)
Definition Z_lt_float (n : Z) (x : float) : bool :=
  match x with
  | S754_nan => false
  | S754_infinity s => negb s
  | S754_zero _ => n <? 0
  | S754_finite s m e =>
      let sm := cond_Zopp s (Zpos m) in
      if 0 <=? e then n <? sm * 2 ^ e else n * 2 ^ (- e) <? sm
  end.

(** [x > n] is the reflected comparison. *)
Definition float_gt_Z (x : float) (n : Z) : bool := Z_lt_float n x.

(** [min(x, n)] with an [int] second argument: the built-in returns its
    second argument only when it is strictly smaller than the first.  The
    [int] result is represented by the float of the same value. *)
Definition min_Z (x : float) (n : Z) : float :=
  if Z_lt_float n x then of_Z n else x.

(** [int(x)]: truncation towards zero. *)
Definition to_int (x : float) : exn + Z :=
  match x with
  | S754_nan => inl (ValueError "cannot convert float NaN to integer")
  | S754_infinity _ =>
      inl (OverflowError "cannot convert float infinity to integer")
  | S754_zero _ => inr 0
  | S754_finite s m e =>
      inr (cond_Zopp s
             (if 0 <=? e then Zpos m * 2 ^ e else Zpos m / 2 ^ (- e)))
  end.

(** *** [float(s)] for a string *)

(** A run of digits in which single underscores may separate digits:
    the number read so far, how many digits it has, and the rest. *)
Fixpoint digits_loop (s : string) (acc : Z) (n : Z) : Z * Z * string :=
  match s with
  | String c r =>
      if PyStr.is_digit c then
        digits_loop r (acc * 10 + PyStr.digit_val c) (n + 1)
      else if Ascii.eqb c "_"%char then
        match r with
        | String c' _ =>
            if PyStr.is_digit c' then digits_loop r acc n else (acc, n, s)
        | EmptyString => (acc, n, s)
        end
      else (acc, n, s)
  | EmptyString => (acc, n, s)
  end.

(** [digitpart]: at least one digit, starting with a digit. *)
Definition digitpart (s : string) (acc : Z) : option (Z * Z * string) :=
  match s with
  | String c _ =>
      if PyStr.is_digit c then Some (digits_loop s acc 0) else None
  | EmptyString => None
  end.

Definition sign_of (s : string) : bool * string :=
  match s with
  | String "-"%char r => (true, r)
  | String "+"%char r => (false, r)
  | _ => (false, s)
  end.

(** The optional exponent; [None] when what follows is not one. *)
Definition exponent (s : string) : option (Z * string) :=
  match s with
  | String c r =>
      if Ascii.eqb (PyStr.lower c) "e"%char then
        let '(neg, r') := sign_of r in
        match digitpart r' 0 with
        | Some (v, _, t) => Some (cond_Zopp neg v, t)
        | None => None
        end
      else None
  | EmptyString => Some (0, s)
  end.

(** The float nearest to [m * 10 ^ e10] (round to nearest, ties to even). *)
Definition of_decimal (neg : bool) (m e10 : Z) : float :=
  match m with
  | Zpos p =>
      if 0 <=? e10 then
        binary_normalize prec emax (cond_Zopp neg (Zpos p * 10 ^ e10)) 0 neg
      else
        SFdiv prec emax (S754_finite neg p 0)
              (S754_finite false (Z.to_pos (10 ^ (- e10))) 0)
  | _ => S754_zero neg
  end.

(** [floatnumber] of the language reference, after the sign. *)
Definition number (neg : bool) (s : string) : option float :=
  let finish (m k : Z) (t : string) :=
    match exponent t with
    | Some (e, EmptyString) => Some (of_decimal neg m (e - k))
    | _ => None
    end in
  match s with
  | String "."%char r =>
      match digitpart r 0 with
      | Some (m, k, t) => finish m k t
      | None => None
      end
  | _ =>
      match digitpart s 0 with
      | Some (m, _, String "."%char r) =>
          match digitpart r m with
          | Some (m', k, t) => finish m' k t
          | None => finish m 0 r
          end
      | Some (m, _, t) => finish m 0 t
      | None => None
      end
  end.

(** The characters [float()] passes over at both ends of its argument:
    the white space of C ([\t], [\n], [\v], [\f], [\r] and the blank) and,
    of the code points from 128 on, the two that are spaces (U+0085 and
    U+00A0), which it reads as blanks.  The separators U+001C to U+001F,
    which [str.strip] removes, are not among them: [float] rejects a
    string that starts or ends with one. *)
Definition is_blank (c : ascii) : bool :=
  let n := PyStr.code c in
  ((9 <=? n) && (n <=? 13)) || (n =? 32) || (n =? 133) || (n =? 160).

Fixpoint skip_blanks (s : string) : string :=
  match s with
  | String c r => if is_blank c then skip_blanks r else s
  | EmptyString => EmptyString
  end.

Fixpoint drop_blanks (s : string) : string :=
  match s with
  | String c r =>
      let r' := drop_blanks r in
      if is_blank c && PyStr.is_empty r' then EmptyString else String c r'
  | EmptyString => EmptyString
  end.

(** [float(s)]; [None] stands for the [ValueError] it raises. *)
Definition of_string (s : string) : option float :=
  let '(neg, r) := sign_of (drop_blanks (skip_blanks s)) in
  let w := PyStr.lower_str r in
  if String.eqb w "inf" || String.eqb w "infinity" then
    Some (S754_infinity neg)
  else if String.eqb w "nan" then Some S754_nan
  else number neg r.

End PyFloat.

Import PyFloat.

(** ** The time parser (Main.py, lines 253-263) *)

(** [list(map(float, parts))]; [None] when one conversion raises. *)
Fixpoint map_float (parts : list string) : option (list float) :=
  match parts with
  | [] => Some []
  | p :: ps =>
      match of_string p, map_float ps with
      | Some x, Some xs => Some (x :: xs)
      | _, _ => None
      end
  end.

(** [parse_time_to_seconds].  The bare [except] turns every exception of
    the body into the result [0], represented by the float [0.0]. *)
Definition parse_time_to_seconds (time_str : string) : float :=
  match map_float (PyStr.split ":" (PyStr.replace_char "," "." time_str)) with
  | Some [h; m; s] =>
      fadd (fadd (fmul h (of_Z 3600)) (fmul m (of_Z 60))) s
  | Some [m; s] => fadd (fmul m (of_Z 60)) s
  | Some (s :: _) => s
  | Some [] | None => S754_zero false
  end.

(** ** The file system, as far as the thread sees it *)

(** A path is either a name inside the scratch folder
    ([os.path.join(self.cliputils_folder, name)]) or a path the caller
    supplied, taken to lie outside of it. *)
Inductive path :=
| Scratch (name : string)
| Ext (p : string).

Inductive node :=
| File (content : string)
| Dir
| Other.

Record filesystem := {
  scratch : gmap string node;
  ext : gmap string node
}.

Definition fs_lookup (p : path) (f : filesystem) : option node :=
  match p with
  | Scratch n => scratch f !! n
  | Ext q => ext f !! q
  end.

Definition fs_insert (p : path) (x : node) (f : filesystem) : filesystem :=
  match p with
  | Scratch n => {| scratch := <[n := x]> (scratch f); ext := ext f |}
  | Ext q => {| scratch := scratch f; ext := <[q := x]> (ext f) |}
  end.

Definition fs_delete (p : path) (f : filesystem) : filesystem :=
  match p with
  | Scratch n => {| scratch := delete n (scratch f); ext := ext f |}
  | Ext q => {| scratch := scratch f; ext := delete q (ext f) |}
  end.

(** [os.path.basename] of a Windows path: what follows the drive letter
    and the last separator. *)
Definition is_sep (c : ascii) : bool :=
  Ascii.eqb c "/"%char || Ascii.eqb c "\"%char.

Fixpoint has_sep (s : string) : bool :=
  match s with
  | String c r => is_sep c || has_sep r
  | EmptyString => false
  end.

Fixpoint after_last_sep (s : string) : string :=
  match s with
  | String c r =>
      if has_sep r then after_last_sep r else if is_sep c then r else s
  | EmptyString => EmptyString
  end.

Definition basename (s : string) : string :=
  match s with
  | String _ (String ":"%char r) => after_last_sep r
  | _ => after_last_sep s
  end.

(** ** Commands, processes and the environment *)

(** One element of an argument vector: a literal, a path, or a formatted
    number [f"{x}{suffix}"], where [x] may be [None]. *)
Inductive arg :=
| Lit (s : string)
| P (p : path)
| Num (x : option float) (suffix : string).

(** What a finished subprocess did: the lines of its diagnostic channel,
    its return code and its effect on the file system. *)
Record process := {
  stderr : list string;
  returncode : Z;
  effect : filesystem -> filesystem
}.

Record env := {
  (** [get_ffmpeg_path]: the path of the binary, [None] when it is missing. *)
  ffmpeg_path : option string;
  (** The second path [get_ffmpeg_path] returns, that of ffprobe. *)
  ffprobe_path : string;
  (** [subprocess.Popen(command)]; [None] when the call raises. *)
  spawn : list arg -> option process;
  (** The text ffprobe prints for a file; [None] when running it raises. *)
  ffprobe_stdout : path -> option string;
  (** [os.path.join(directory, name)] for a directory outside the scratch
      folder and the name of an entry. *)
  path_join : string -> string -> string;
  (** The error that renaming or copying a file in [shutil.move] fails
      with, if it does. *)
  move_error : option string;
  (** Whether deleting the scratch entry of that name raises. *)
  delete_fails : string -> bool;
  (** [round(time.time() - start_time_total, 1)] at completion. *)
  elapsed : float
}.

(** The constructor's arguments (Main.py, lines 80-87). *)
Record job := {
  input_file : string;
  output_file : string;
  target_size : option float;
  target_bitrate : option float;
  start_time : option float;
  end_time : option float
}.

(** What the thread does that an observer can see, in order: the four Qt
    signals, each call of [subprocess.Popen] (the ffmpeg commands), each
    call of [subprocess.run] (the ffprobe commands), and each run of
    [cleanup_temp_files]. *)
Inductive event :=
| log_signal (line : string)
| progress_signal (percent : Z)
| done_signal (out : string) (seconds : float) (size_mb : float)
| error_signal (msg : string)
| Popen (command : list arg)
| subprocess_run (command : list arg)
| cleanup_run.

(** The mutable attributes of the thread, the file system and the events
    so far (oldest first). *)
Record state := {
  last_progress : Z;
  temp_files : list path;
  fs : filesystem;
  trace : list event
}.

(** [__init__] (Main.py, lines 88-94), on a given file system. *)
Definition init (f : filesystem) : state :=
  {| last_progress := 0; temp_files := []; fs := f; trace := [] |}.

(** ** The monad: state, and exceptions that keep the state *)

Definition M (A : Type) : Type := state -> (exn + A) * state.

#[global] Instance M_ret : MRet M := λ A a s, (inr a, s).

#[global] Instance M_bind : MBind M := λ A B k c s,
  match c s with
  | (inr a, s') => k a s'
  | (inl e, s') => (inl e, s')
  end.

Definition raise {A} (e : exn) : M A := λ s, (inl e, s).

(** [try: c except Exception as e: h e] *)
Definition try_except {A} (c : M A) (h : exn -> M A) : M A := λ s,
  match c s with
  | (inl e, s') => h e s'
  | r => r
  end.

Definition lift {A} (r : exn + A) : M A := λ s, (r, s).

Definition gets {A} (f : state -> A) : M A := λ s, (inr (f s), s).

Definition modify (f : state -> state) : M unit := λ s, (inr tt, f s).

Definition emit (e : event) : M unit :=
  modify (λ s, {| last_progress := last_progress s; temp_files := temp_files s;
                  fs := fs s; trace := trace s ++ [e] |}).

Definition set_last_progress (p : Z) : M unit :=
  modify (λ s, {| last_progress := p; temp_files := temp_files s;
                  fs := fs s; trace := trace s |}).

Definition update_fs (g : filesystem -> filesystem) : M unit :=
  modify (λ s, {| last_progress := last_progress s; temp_files := temp_files s;
                  fs := g (fs s); trace := trace s |}).

Definition append_temp_file (p : path) : M unit :=
  modify (λ s, {| last_progress := last_progress s;
                  temp_files := temp_files s ++ [p];
                  fs := fs s; trace := trace s |}).

(** [l[i]] *)
Definition item {A} (l : list A) (i : nat) : M A :=
  match l !! i with
  | Some x => mret x
  | None => raise (IndexError "list index out of range")
  end.

(** [for x in l: body x] *)
Fixpoint for_ {A} (l : list A) (body : A -> M unit) : M unit :=
  match l with
  | [] => mret tt
  | x :: rest => body x;; for_ rest body
  end.

Definition nl : string := String (ascii_of_nat 10) EmptyString.

(** [round(x, 1)]: the float nearest to the one-decimal number nearest to
    the exact value of [x], ties to even in both steps. *)
Definition round_half_even (num den : Z) : Z :=
  let q := num / den in
  match 2 * (num mod den) ?= den with
  | Lt => q
  | Gt => q + 1
  | Eq => if Z.even q then q else q + 1
  end.

Definition round1 (x : float) : float :=
  match x with
  | S754_finite s m e =>
      of_decimal s
        (if 0 <=? e then Zpos m * 2 ^ e * 10
         else round_half_even (Zpos m * 10) (2 ^ (- e)))
        (-1)
  | _ => x
  end.

(** [round(n / (1024 * 1024), 1)] for a size in bytes. *)
Definition size_mb (n : Z) : float :=
  round1 (SFdiv prec emax (of_Z n) (of_Z (1024 * 1024))).

(** [a or b] on values that are [None] or a float. *)
Definition or_float (a b : option float) : option float :=
  match a with
  | Some x => if truthy x then a else b
  | None => b
  end.

(** [a or b] where [a] is [None] or a non-empty path. *)
Definition or_path (a : option path) (b : path) : path :=
  match a with
  | Some p => p
  | None => b
  end.

(** ** The thread (Main.py, lines 96-289) *)

Section Thread.

Context (w : env) (self : job).

(** [get_ffmpeg_path] (lines 60-72); the result is the first component
    of the pair it returns, the second one is [ffprobe_path w]. *)
Definition get_ffmpeg_path : M string :=
  match ffmpeg_path w with
  | Some p => mret p
  | None => raise (FileNotFoundError "FFmpeg binaries not found!")
  end.

(** [subprocess.Popen(command, ...)] *)
Definition popen (command : list arg) : M process :=
  emit (Popen command);;
  match spawn w command with
  | Some pr => mret pr
  | None => raise (OSError "Popen failed")
  end.

(** [process.wait()]: from here on the effects of the subprocess on the
    file system are in place. *)
Definition wait (pr : process) : M unit := update_fs (effect pr).

(** [os.path.getsize]; the size of a directory is taken to be 0. *)
Definition getsize (p : path) : M Z :=
  f ← gets fs;
  match fs_lookup p f with
  | Some (File c) => mret (Z.of_nat (String.length c))
  | Some Dir => mret 0
  | Some Other => raise (OSError "cannot stat")
  | None => raise (FileNotFoundError "The system cannot find the file specified")
  end.

(** [get_file_size] (lines 276-277).  The quotient of the two integers
    is the float nearest to it; dividing the float of the size by the
    power of two gives the same number. *)
Definition get_file_size (p : path) : M float :=
  n ← getsize p;
  mret (size_mb n).

(** The argument vector of ffprobe (lines 283-284). *)
Definition ffprobe_command (p : path) : list arg :=
  [Lit (ffprobe_path w);
   Lit "-v"; Lit "error";
   Lit "-show_entries"; Lit "format=duration";
   Lit "-of"; Lit "default=noprint_wrappers=1:nokey=1";
   P p].

(** [get_video_duration] (lines 279-289): ffprobe is run on the file;
    the result is [None] when running it or converting its output
    raises. *)
Definition get_video_duration (p : path) : M (option float) :=
  _ ← get_ffmpeg_path;
  emit (subprocess_run (ffprobe_command p));;
  mret (match ffprobe_stdout w p with
        | Some out => of_string (PyStr.strip out)
        | None => None
        end).

(** [os.path.exists]: true of files and directories. *)
Definition exists_ (x : option node) : bool :=
  match x with
  | Some (File _) | Some Dir => true
  | _ => false
  end.

(** [shutil.move(src, dst)] for the entry [src] of the scratch folder and
    a path [dst] outside of it.  When [dst] is a directory, the entry is
    moved into it under its own name, unless something of that name
    exists there already; otherwise it takes the place of what [dst]
    holds. *)
Definition shutil_move (src dst : string) : M unit :=
  f ← gets fs;
  real_dst ←
    match ext f !! dst with
    | Some Dir =>
        let real_dst := path_join w dst src in
        if exists_ (ext f !! real_dst) then
          raise (OSError
                   ("Destination path '" ++ real_dst ++ "' already exists"))
        else mret real_dst
    | _ => mret dst
    end;
  match move_error w with
  | Some msg => raise (OSError msg)
  | None =>
      match scratch f !! src with
      | Some x =>
          update_fs (λ f, fs_insert (Ext real_dst) x
                            (fs_delete (Scratch src) f))
      | None => raise (FileNotFoundError "No such file or directory")
      end
  end.

(** [open(log_path, 'w')]: creates or truncates the file. *)
Definition open_w (p : path) : M unit :=
  f ← gets fs;
  match fs_lookup p f with
  | Some Dir | Some Other => raise (OSError "Permission denied")
  | _ => update_fs (fs_insert p (File EmptyString))
  end.

(** [log.write(text)] *)
Definition write (p : path) (text : string) : M unit :=
  update_fs (λ f,
    fs_insert p
      (File (match fs_lookup p f with
             | Some (File c) => c ++ text
             | _ => text
             end)%string) f).

(** The argument vector of the trim (lines 151-160). *)
Definition trim_command (ffmpeg : string) (duration : float)
    (output : path) : list arg :=
  [Lit ffmpeg;
   Lit "-ss"; Num (start_time self) "";
   Lit "-i"; P (Ext (input_file self));
   Lit "-to"; Num (Some duration) "";
   Lit "-c:v"; Lit "copy";
   Lit "-c:a"; Lit "copy";
   Lit "-avoid_negative_ts"; Lit "make_zero";
   Lit "-y"; P output].

(** [trim_video] (lines 145-176) *)
Definition trim_video (output_file' : option path) : M unit :=
  let output := or_path output_file' (Ext (output_file self)) in
  ffmpeg ← get_ffmpeg_path;
  duration ←
    match end_time self, start_time self with
    | Some e, Some s => mret (fsub e s)
    | None, Some _ =>
        raise (TypeError
          "unsupported operand type(s) for -: 'NoneType' and 'float'")
    | Some _, None =>
        raise (TypeError
          "unsupported operand type(s) for -: 'float' and 'NoneType'")
    | None, None =>
        raise (TypeError
          "unsupported operand type(s) for -: 'NoneType' and 'NoneType'")
    end;
  let command := trim_command ffmpeg duration output in
  pr ← popen command;
  for_ (stderr pr) (λ line, emit (log_signal (PyStr.strip line)));;
  wait pr;;
  if negb (returncode pr =? 0) then raise (RuntimeError "Trimming failed.")
  else mret tt.

(** The body of the loop over [process.stderr] in [run_ffmpeg_command]
    (lines 217-245). *)
Definition read_line (log : path) (pass_number : Z) (duration : float)
    (line : string) : M unit :=
  let line := PyStr.strip line in
  let current_line := line in
  let processed_line :=
    if PyStr.contains "bitrate=" current_line then
      match PyStr.re_split_bitrate current_line with
      | Some (a, m, b) => (m ++ b ++ nl ++ PyStr.lstrip a)%string
      | None => current_line
      end
    else current_line in
  emit (log_signal processed_line);;
  (if PyStr.contains "time=" line then
     after ← item (PyStr.split "time=" line) 1;
     time_str ← item (PyStr.split_ws after) 0;
     let current_time := parse_time_to_seconds time_str in
     if float_gt_Z duration 0 then
       q ← lift (fdiv current_time (fadd duration (of_Z 2)));
       let progress := min_Z (fmul q (of_Z 50)) 50 in
       let progress :=
         if pass_number =? 2 then min_Z (fadd progress (of_Z 50)) 100
         else progress in
       p ← lift (to_int progress);
       last ← gets last_progress;
       if last <? p then
         emit (progress_signal p);;
         set_last_progress p
       else mret tt
     else mret tt
   else mret tt);;
  write log (PyStr.strip line ++ nl)%string.

(** [run_ffmpeg_command] (lines 201-251) *)
Definition run_ffmpeg_command (command : list arg) (log_filename : string)
    (pass_number : Z) (duration : float) : M unit :=
  let log_path := Scratch log_filename in
  open_w log_path;;
  pr ← popen command;
  (if pass_number =? 2 then emit (progress_signal 50) else mret tt);;
  for_ (stderr pr) (read_line log_path pass_number duration);;
  wait pr;;
  if pass_number =? 1 then
    emit (progress_signal 50);;
    set_last_progress 50
  else mret tt.

(** The argument vectors of the two passes (lines 187-191, 194-198). *)
Definition command_pass1 (ffmpeg : string) (input : path)
    (bitrate : option float) : list arg :=
  [Lit ffmpeg; Lit "-i"; P input;
   Lit "-c:v"; Lit "libx264"; Lit "-preset"; Lit "fast";
   Lit "-b:v"; Num bitrate "k";
   Lit "-pass"; Lit "1"; Lit "-an"; Lit "-f"; Lit "mp4";
   Lit "-y"; Lit "NUL"].

Definition command_pass2 (ffmpeg : string) (input : path)
    (bitrate : option float) : list arg :=
  [Lit ffmpeg; Lit "-i"; P input;
   Lit "-c:v"; Lit "libx264"; Lit "-preset"; Lit "fast";
   Lit "-b:v"; Num bitrate "k";
   Lit "-pass"; Lit "2"; Lit "-c:a"; Lit "copy";
   Lit "-y"; P (Ext (output_file self))].

(** [compress_video] (lines 178-199) *)
Definition compress_video (input_file' : option path)
    (target_bitrate' : option float) : M unit :=
  let input := or_path input_file' (Ext (input_file self)) in
  let bitrate := or_float target_bitrate' (target_bitrate self) in
  ffmpeg ← get_ffmpeg_path;
  d ← get_video_duration input;
  match d with
  | None => raise (ValueError "Failed to get video duration.")
  | Some duration =>
      run_ffmpeg_command (command_pass1 ffmpeg input bitrate)
        "pass1_log.txt" 1 duration;;
      run_ffmpeg_command (command_pass2 ffmpeg input bitrate)
        "pass2_log.txt" 2 duration
  end.

(** [compress_trim_video] (lines 125-143) *)
Definition compress_trim_video : M unit :=
  let temp_filename := ("temp_" ++ basename (input_file self))%string in
  let temp_file := Scratch temp_filename in
  append_temp_file temp_file;;
  trim_video (Some temp_file);;
  trimmed_size ← get_file_size temp_file;
  small ←
    match target_size self with
    | Some t => mret (fle trimmed_size t)
    | None =>
        raise (TypeError
          "'<=' not supported between instances of 'float' and 'NoneType'")
    end;
  if small : bool then
    try_except
      (shutil_move temp_filename (output_file self))
      (λ e, raise (RuntimeError
                     ("Failed to use trimmed video: " ++ str_exn e)%string))
  else
    d ← get_video_duration temp_file;
    match d with
    | None => raise (ValueError "Failed to get duration of trimmed video.")
    | Some duration =>
        t ←
          match target_size self with
          | Some t => mret t
          | None =>
              raise (TypeError
                "unsupported operand type(s) for *: 'NoneType' and 'int'")
          end;
        b ← lift (fdiv (fmul (fmul t (of_Z 8)) (of_Z 1024)) duration);
        compress_video (Some temp_file) (Some b)
    end.

(** One step of the loop of [cleanup_temp_files] (lines 267-274): an
    entry that is a file or a directory is deleted unless deleting it
    raises; the exception is caught and the loop goes on. *)
Definition cleanup_entry (filename : string) (f : filesystem) : filesystem :=
  match scratch f !! filename with
  | Some (File _) | Some Dir =>
      if delete_fails w filename then f else fs_delete (Scratch filename) f
  | _ => f
  end.

(** [cleanup_temp_files] (lines 265-274); what it prints is not
    modelled. *)
Definition cleanup_temp_files : M unit :=
  emit cleanup_run;;
  f ← gets fs;
  update_fs (λ f0, foldl (λ g n, cleanup_entry n g) f0
                     (map fst (map_to_list (scratch f)))).

Definition has_target_size : bool :=
  match target_size self with
  | Some t => float_gt_Z t 0
  | None => false
  end.

Definition has_trim_window : bool :=
  match start_time self, end_time self with
  | Some _, Some _ => true
  | _, _ => false
  end.

(** The body of the [try] statement of [run] (lines 101-113); its
    result is the value [success] gets. *)
Definition pipeline : M bool :=
  if has_target_size && has_trim_window then
    compress_trim_video;; mret true
  else if has_target_size then
    compress_video None None;; mret true
  else
    trim_video None;;
    emit (progress_signal 100);;
    mret true.

(** [run] (lines 96-123) *)
Definition run : M unit :=
  success ←
    try_except pipeline
      (λ e,
         emit (error_signal ("Error: " ++ str_exn e)%string);;
         cleanup_temp_files;;
         mret false);
  if success : bool then
    new_size ← get_file_size (Ext (output_file self));
    emit (done_signal (output_file self) (elapsed w) new_size);;
    cleanup_temp_files
  else mret tt.

End Thread.

(** * Properties *)

(** ** Reading a trace *)

Definition progress_of (t : list event) : list Z :=
  omap (λ e, match e with progress_signal p => Some p | _ => None end) t.

Definition popens_of (t : list event) : list (list arg) :=
  omap (λ e, match e with Popen c => Some c | _ => None end) t.

Definition is_terminal (e : event) : bool :=
  match e with
  | done_signal _ _ _ | error_signal _ => true
  | _ => false
  end.

(** The events a pipeline step may produce. *)
Definition quiet (e : event) : bool :=
  match e with
  | log_signal _ | progress_signal _ | Popen _ | subprocess_run _ => true
  | _ => false
  end.

Lemma progress_of_app t1 t2 :
  progress_of (t1 ++ t2) = progress_of t1 ++ progress_of t2.
Proof. apply omap_app. Qed.

Lemma popens_of_app t1 t2 :
  popens_of (t1 ++ t2) = popens_of t1 ++ popens_of t2.
Proof. apply omap_app. Qed.

(** ** A small program logic: every run of [c] relates the state before
    to the state after, whether [c] returns or raises. *)

Definition steps {A} (R : relation state) (c : M A) : Prop :=
  ∀ s, R s (c s).2.

Lemma bind_eq {A B} (c : M A) (k : A -> M B) s :
  (c ≫= k) s =
  match c s with
  | (inr a, s') => k a s'
  | (inl e, s') => (inl e, s')
  end.
Proof. reflexivity. Qed.

Section Steps.

Context (R : relation state) `{!PreOrder R}.

Lemma steps_ret {A} (a : A) : steps R (mret a).
Proof. intros s. reflexivity. Qed.

Lemma steps_raise {A} e : steps R (raise (A := A) e).
Proof. intros s. reflexivity. Qed.

Lemma steps_lift {A} (r : exn + A) : steps R (lift r).
Proof. intros s. reflexivity. Qed.

Lemma steps_gets {A} (f : state -> A) : steps R (gets f).
Proof. intros s. reflexivity. Qed.

Lemma steps_bind {A B} (c : M A) (k : A -> M B) :
  steps R c -> (∀ a, steps R (k a)) -> steps R (c ≫= k).
Proof.
  intros Hc Hk s. rewrite bind_eq. specialize (Hc s).
  destruct (c s) as [[e|a] s']; simpl in *; [done|].
  etransitivity; [exact Hc | apply Hk].
Qed.

(** The continuation of a pure step may use what the step returned. *)
Lemma steps_lift_bind {A B} (r : exn + A) (k : A -> M B) :
  (∀ a, r = inr a -> steps R (k a)) -> steps R (lift r ≫= k).
Proof.
  intros Hk s. rewrite bind_eq. unfold lift.
  destruct r as [e|a]; simpl; [reflexivity | by apply Hk].
Qed.

Lemma steps_gets_bind {A B} (f : state -> A) (k : A -> M B) :
  (∀ s, R s (k (f s) s).2) -> steps R (gets f ≫= k).
Proof. intros Hk s. rewrite bind_eq. apply Hk. Qed.

Lemma steps_try {A} (c : M A) (h : exn -> M A) :
  steps R c -> (∀ e, steps R (h e)) -> steps R (try_except c h).
Proof.
  intros Hc Hh s. unfold try_except. specialize (Hc s).
  destruct (c s) as [[e|a] s']; simpl in *; [|done].
  etransitivity; [exact Hc | apply Hh].
Qed.

Lemma steps_item {A} (l : list A) i : steps R (item l i).
Proof. unfold item. destruct (l !! i); [apply steps_ret | apply steps_raise]. Qed.

Lemma steps_for {A} (l : list A) (body : A -> M unit) :
  (∀ x, steps R (body x)) -> steps R (for_ l body).
Proof.
  intros Hb. induction l as [|x l IH]; simpl.
  - apply steps_ret.
  - apply steps_bind; auto.
Qed.

Lemma steps_modify f : (∀ s, R s (f s)) -> steps R (modify f).
Proof. intros Hf s. apply Hf. Qed.

End Steps.

Lemma steps_weaken {A} (R1 R2 : relation state) (c : M A) :
  (∀ s s', R1 s s' -> R2 s s') -> steps R1 c -> steps R2 c.
Proof. intros HR Hc s. apply HR, Hc. Qed.

(** Two families of relations: a projection of the state is unchanged,
    and a property of the state is kept. *)
Definition same {B} (π : state -> B) : relation state := λ s s', π s' = π s.

Definition keeps (I : state -> Prop) : relation state := λ s s', I s -> I s'.

#[global] Instance same_preorder {B} (π : state -> B) : PreOrder (same π).
Proof. split; [done | intros x y z; unfold same; congruence]. Qed.

#[global] Instance keeps_preorder I : PreOrder (keeps I).
Proof. split; unfold keeps; [intros x; tauto | intros x y z; tauto]. Qed.


(** A relation tolerates the events [ok] accepts when emitting one of
    them, and touching the file system or the list of temporary files,
    are steps of it. *)
Class Tolerates (R : relation state) (ok : event -> bool) := {
  tol_preorder :: PreOrder R;
  tol_emit e : ok e = true -> steps R (emit e);
  tol_fs g : steps R (update_fs g);
  tol_temp p : steps R (append_temp_file p)
}.

#[global] Hint Mode Tolerates ! - : typeclass_instances.

(** One step of a proof that a method's body [steps]: the structural
    rules and the primitives first, then a case analysis of what the body
    branches on. *)
Ltac step :=
  first
    [ apply steps_ret | apply steps_raise | apply steps_lift
    | apply steps_gets | apply steps_item
    | apply tol_fs | apply tol_temp | apply tol_emit
    | apply steps_bind | apply steps_try | apply steps_for
    | progress intros
    | progress cbv zeta
    | match goal with
      | |- PreOrder _ => exact _
      | |- steps _ (match ?x with _ => _ end) => destruct x
      | |- steps _ (if ?x then _ else _) => destruct x
      end ].

(** A structural rule, with the order it needs found by resolution. *)
Ltac rule l := eapply l; try exact _.

Create HintDb steps discriminated.

Section Methods.

Context (w : env) (self : job).
Context (R : relation state) (ok : event -> bool) `{!Tolerates R ok}.

Lemma get_ffmpeg_path_steps : steps R (get_ffmpeg_path w).
Proof. unfold get_ffmpeg_path. repeat step. Qed.
#[local] Hint Resolve get_ffmpeg_path_steps : steps.

Lemma popen_steps c : ok (Popen c) = true -> steps R (popen w c).
Proof. intros Hc. unfold popen. repeat step; auto with steps. Qed.
#[local] Hint Resolve popen_steps : steps.

Lemma wait_steps pr : steps R (wait pr).
Proof. unfold wait. step. Qed.
#[local] Hint Resolve wait_steps : steps.

Lemma getsize_steps p : steps R (getsize p).
Proof. unfold getsize. repeat step. Qed.
#[local] Hint Resolve getsize_steps : steps.

Lemma get_file_size_steps p : steps R (get_file_size p).
Proof. unfold get_file_size. repeat step. Qed.
#[local] Hint Resolve get_file_size_steps : steps.

Lemma shutil_move_steps src dst : steps R (shutil_move w src dst).
Proof. unfold shutil_move. repeat step; auto with steps. Qed.
#[local] Hint Resolve shutil_move_steps : steps.

Lemma open_w_steps p : steps R (open_w p).
Proof. unfold open_w. repeat step; auto with steps. Qed.
#[local] Hint Resolve open_w_steps : steps.

Lemma write_steps p text : steps R (write p text).
Proof. unfold write. step. Qed.
#[local] Hint Resolve write_steps : steps.

Lemma cleanup_temp_files_steps :
  ok cleanup_run = true -> steps R (cleanup_temp_files w).
Proof. intros Hc. unfold cleanup_temp_files. repeat step; auto with steps. Qed.
#[local] Hint Resolve cleanup_temp_files_steps : steps.

Hypothesis ok_log : ∀ l, ok (log_signal l) = true.
Hypothesis ok_popen : ∀ c, ok (Popen c) = true.
Hypothesis ok_run : ∀ c, ok (subprocess_run c) = true.

Lemma get_video_duration_steps p : steps R (get_video_duration w p).
Proof.
  unfold get_video_duration. repeat step; auto with steps.
Qed.
#[local] Hint Resolve get_video_duration_steps : steps.

Lemma trim_video_steps out : steps R (trim_video w self out).
Proof.
  unfold trim_video. cbv zeta. repeat step; auto with steps.
Qed.
#[local] Hint Resolve trim_video_steps : steps.

Hypothesis ok_progress : ∀ p, ok (progress_signal p) = true.
Hypothesis set_last_progress_steps : ∀ p, steps R (set_last_progress p).

Lemma read_line_steps log pass d line : steps R (read_line log pass d line).
Proof.
  unfold read_line. cbv zeta. repeat step; auto with steps.
Qed.
#[local] Hint Resolve read_line_steps : steps.

Lemma run_ffmpeg_command_steps c log pass d :
  steps R (run_ffmpeg_command w c log pass d).
Proof.
  unfold run_ffmpeg_command. cbv zeta. repeat step; auto with steps.
Qed.
#[local] Hint Resolve run_ffmpeg_command_steps : steps.

Lemma compress_video_steps input b : steps R (compress_video w self input b).
Proof.
  unfold compress_video. cbv zeta. repeat step; auto with steps.
Qed.
#[local] Hint Resolve compress_video_steps : steps.

Lemma compress_trim_video_steps : steps R (compress_trim_video w self).
Proof.
  unfold compress_trim_video. cbv zeta. repeat step; auto with steps.
Qed.
#[local] Hint Resolve compress_trim_video_steps : steps.

Lemma pipeline_steps : steps R (pipeline w self).
Proof.
  unfold pipeline. repeat step; auto with steps.
Qed.
#[local] Hint Resolve pipeline_steps : steps.

End Methods.

(** ** The progress state *)

Definition is_progress (e : event) : bool :=
  match e with progress_signal _ => true | _ => false end.

Definition is_popen (e : event) : bool :=
  match e with Popen _ => true | _ => false end.

(** What the progress logic reads and writes: the percentages sent so far
    and the last one recorded. *)
Definition view (s : state) : list Z * Z :=
  (progress_of (trace s), last_progress s).

(** A step is silent when it leaves the view alone. *)
Definition silent : relation state := same view.

#[global] Instance silent_tolerates :
  Tolerates silent (λ e, negb (is_progress e)).
Proof.
  split; [apply _ | | done | done].
  intros e He s. unfold silent, same, view. simpl.
  rewrite progress_of_app. destruct e; try done; simpl; by rewrite app_nil_r.
Qed.

(** Steps that do not call [subprocess.Popen]. *)
Definition no_popen : relation state := same (λ s, popens_of (trace s)).

#[global] Instance no_popen_tolerates :
  Tolerates no_popen (λ e, negb (is_popen e)).
Proof.
  split; [apply _ | | done | done].
  intros e He s. unfold no_popen, same. simpl.
  rewrite popens_of_app. destruct e; try done; simpl; by rewrite app_nil_r.
Qed.

(** Steps that send no terminal signal and run no cleanup. *)
Definition stays_quiet : relation state :=
  keeps (λ s, Forall (λ e, quiet e = true) (trace s)).

#[global] Instance stays_quiet_tolerates : Tolerates stays_quiet quiet.
Proof.
  split; [apply _ | | by intros g s Hs | by intros p s Hs].
  intros e He s Hs. simpl. apply Forall_app. split; [done | by constructor].
Qed.

(** [final a l] is the last element of [a :: l]. *)
Definition final (a : Z) (l : list Z) : Z := foldl (λ _ x, x) a l.

(** The percentages [l] sent after [a] was recorded climb strictly and
    stay at or below [cap]. *)
Definition rising (a : Z) (l : list Z) (cap : Z) : Prop :=
  Sorted Z.lt (a :: l) ∧ Forall (λ p, p <= cap) l.

Lemma rising_nil a cap : rising a [] cap.
Proof. split; [repeat constructor | constructor]. Qed.

Lemma rising_cons a x l cap :
  rising a (x :: l) cap <-> a < x ∧ x <= cap ∧ rising x l cap.
Proof.
  unfold rising. split.
  - intros [Hs Hf]. apply Sorted_inv in Hs as [Hs Hh].
    apply HdRel_inv in Hh. apply Forall_cons in Hf as [Hx Hf]. tauto.
  - intros (Hax & Hx & Hs & Hf). split.
    + constructor; [done | by constructor].
    + by constructor.
Qed.

Lemma rising_app a l1 l2 cap :
  rising a l1 cap -> rising (final a l1) l2 cap -> rising a (l1 ++ l2) cap.
Proof.
  revert a. induction l1 as [|x l1 IH]; intros a H1 H2; simpl in *; [done|].
  apply rising_cons in H1 as (Hax & Hx & H1).
  apply rising_cons. auto.
Qed.

Lemma final_app a l1 l2 : final a (l1 ++ l2) = final (final a l1) l2.
Proof. apply foldl_app. Qed.

Lemma rising_final_le a l cap : a <= cap -> rising a l cap -> final a l <= cap.
Proof.
  revert a. induction l as [|x l IH]; intros a Ha H; simpl; [done|].
  apply rising_cons in H as (_ & Hx & H). auto.
Qed.

Lemma rising_final_ge a l cap : rising a l cap -> a <= final a l.
Proof.
  revert a. induction l as [|x l IH]; intros a H; simpl; [lia|].
  apply rising_cons in H as (Hax & _ & H). specialize (IH x H). lia.
Qed.

Lemma rising_lower a l cap : rising a l cap -> Forall (λ p, a < p) l.
Proof.
  revert a. induction l as [|x l IH]; intros a H; [constructor|].
  apply rising_cons in H as (Hax & _ & H). constructor; [done|].
  eapply Forall_impl; [apply IH, H | simpl; intros; lia].
Qed.

Lemma rising_weaken a l cap cap' :
  cap <= cap' -> rising a l cap -> rising a l cap'.
Proof.
  intros Hc [Hs Hf]. split; [done|].
  eapply Forall_impl; [exact Hf | simpl; intros; lia].
Qed.

(** The relation between the states around a stretch of the stream
    reader: what was sent climbs from the recorded value, which ends as the
    last value sent. *)
Definition climbs (cap : Z) : relation state := λ s s',
  ∃ l, progress_of (trace s') = progress_of (trace s) ++ l
       ∧ rising (last_progress s) l cap
       ∧ last_progress s' = final (last_progress s) l.

#[global] Instance climbs_preorder cap : PreOrder (climbs cap).
Proof.
  split.
  - intros s. exists []. rewrite app_nil_r. auto using rising_nil.
  - intros s1 s2 s3 (l1 & E1 & R1 & F1) (l2 & E2 & R2 & F2).
    exists (l1 ++ l2). rewrite E2, E1, F2, F1, final_app, app_assoc.
    rewrite F1 in R2. auto using rising_app.
Qed.

Lemma silent_climbs cap s s' : silent s s' -> climbs cap s s'.
Proof.
  unfold silent, same, view. intros [= E1 E2]. exists [].
  rewrite app_nil_r. auto using rising_nil.
Qed.

#[global] Instance climbs_tolerates cap :
  Tolerates (climbs cap) (λ e, negb (is_progress e)).
Proof.
  split; [apply _ | | |]; intros;
    (eapply steps_weaken; [apply silent_climbs|]).
  - by apply tol_emit.
  - apply tol_fs.
  - apply tol_temp.
Qed.

#[global] Typeclasses Opaque silent no_popen stays_quiet climbs.

(** ** Truncation after a cap *)

Lemma to_int_le n x p : Z_lt_float n x = false -> to_int x = inr p -> p <= n.
Proof.
  destruct x as [s|s| |s m e]; simpl; try discriminate.
  - intros Hn [= <-]. lia.
  - assert (0 < 2 ^ (- e) ∨ 0 <= e) as Hpow.
    { destruct (Z.le_gt_cases 0 e); [by right|left].
      apply Z.pow_pos_nonneg; lia. }
    destruct (0 <=? e) eqn:He; intros Hn [= <-]; apply Z.ltb_ge in Hn;
      destruct s; simpl in *.
    + lia.
    + lia.
    + destruct Hpow as [Hpow|Hpow]; [|lia].
      assert (- n <= Z.pos m / 2 ^ (- e)); [|lia].
      apply Z.div_le_lower_bound; lia.
    + destruct Hpow as [Hpow|Hpow]; [|lia].
      apply Z.div_le_upper_bound; lia.
Qed.

Lemma to_int_min_Z x n p :
  to_int (of_Z n) = inr n -> to_int (min_Z x n) = inr p -> p <= n.
Proof.
  unfold min_Z. intros Hn. destruct (Z_lt_float n x) eqn:E.
  - rewrite Hn. intros [= <-]. lia.
  - by apply to_int_le.
Qed.

(** The cap of a pass: 100 for the second, 50 otherwise. *)
Definition cap (pass_number : Z) : Z := if pass_number =? 2 then 100 else 50.

Lemma update_climbs c p :
  p <= c ->
  steps (climbs c)
    (last ← gets last_progress;
     if last <? p then emit (progress_signal p);; set_last_progress p
     else mret tt).
Proof.
  intros Hp. rule steps_gets_bind. intros s.
  destruct (last_progress s <? p) eqn:E; [|reflexivity].
  apply Z.ltb_lt in E. exists [p]. simpl. rewrite progress_of_app.
  repeat split; [|by constructor].
  repeat constructor. done.
Qed.

Lemma read_line_climbs log pass d line :
  steps (climbs (cap pass)) (read_line log pass d line).
Proof.
  unfold read_line. cbv zeta.
  rule steps_bind; [by apply tol_emit|intros _].
  rule steps_bind; [|intros _; apply tol_fs].
  destruct (PyStr.contains _ _); [|rule steps_ret].
  rule steps_bind; [rule steps_item|intros after].
  rule steps_bind; [rule steps_item|intros time_str].
  destruct (float_gt_Z d 0); [|rule steps_ret].
  rule steps_lift_bind. intros q _.
  rule steps_lift_bind. intros p Hp.
  apply update_climbs. unfold cap.
  destruct (pass =? 2); eapply to_int_min_Z; eauto.
Qed.

(** ** Outcomes: one relation for the runs that raise, one for those that
    return *)

Definition outcome {A} (X Q : relation state) (c : M A) : Prop :=
  ∀ s, match c s with
       | (inr _, s') => Q s s'
       | (inl _, s') => X s s'
       end.

(** [R] followed by [T] is within [U]. *)
Definition chains (R T U : relation state) : Prop :=
  ∀ s1 s2 s3, R s1 s2 -> T s2 s3 -> U s1 s3.

Lemma outcome_bind {A B} (X1 Q1 X2 Q2 X Q : relation state)
    (c : M A) (k : A -> M B) :
  outcome X1 Q1 c -> (∀ a, outcome X2 Q2 (k a)) ->
  (∀ s s', X1 s s' -> X s s') -> chains Q1 X2 X -> chains Q1 Q2 Q ->
  outcome X Q (c ≫= k).
Proof.
  intros Hc Hk HX HQX HQQ s. rewrite bind_eq. specialize (Hc s).
  destruct (c s) as [[e|a] s1]; [by apply HX|].
  specialize (Hk a s1). destruct (k a s1) as [[e|b] s2]; eauto.
Qed.

Lemma steps_outcome {A} (R : relation state) (c : M A) :
  steps R c -> outcome R R c.
Proof. intros Hc s. specialize (Hc s). by destruct (c s) as [[e|a] s']. Qed.

Lemma outcome_steps {A} (R : relation state) (c : M A) :
  outcome R R c -> steps R c.
Proof. intros Hc s. specialize (Hc s). by destruct (c s) as [[e|a] s']. Qed.

Lemma outcome_weaken {A} (X Q X' Q' : relation state) (c : M A) :
  (∀ s s', X s s' -> X' s s') -> (∀ s s', Q s s' -> Q' s s') ->
  outcome X Q c -> outcome X' Q' c.
Proof.
  intros HX HQ Hc s. specialize (Hc s). destruct (c s) as [[e|a] s']; auto.
Qed.

(** A prefix that only [steps] in front of a computation with an outcome. *)
Lemma outcome_after {A B} (R X Q : relation state) (c : M A) (k : A -> M B) :
  steps R c -> (∀ a, outcome X Q (k a)) ->
  (∀ s s', R s s' -> X s s') -> chains R X X -> chains R Q Q ->
  outcome X Q (c ≫= k).
Proof.
  intros Hc Hk HX HRX HRQ.
  eapply outcome_bind; eauto using steps_outcome.
Qed.

(** ** The percentages of a two-pass encode *)

(** Pass 1 ran to its end: what it sent climbs to at most 50, then 50. *)
Definition pass1_done : relation state := λ s s',
  ∃ l, rising (last_progress s) l 50
       ∧ progress_of (trace s') = progress_of (trace s) ++ l ++ [50]
       ∧ last_progress s' = 50.

(** Pass 2 started: 50, then what it sent climbs to at most 100. *)
Definition pass2_started : relation state := λ s s',
  ∃ l, rising (last_progress s) l 100
       ∧ progress_of (trace s') = progress_of (trace s) ++ 50 :: l
       ∧ last_progress s' = final (last_progress s) l.

(** Both passes ran to their ends. *)
Definition two_pass : relation state := λ s s',
  ∃ l1 l2, rising (last_progress s) l1 50 ∧ rising 50 l2 100
           ∧ progress_of (trace s') =
             progress_of (trace s) ++ l1 ++ 50 :: 50 :: l2.

(** An encode that stopped somewhere. *)
Definition two_pass_cut : relation state := λ s s',
  ∃ l1, rising (last_progress s) l1 50
        ∧ (progress_of (trace s') = progress_of (trace s) ++ l1
           ∨ progress_of (trace s') = progress_of (trace s) ++ l1 ++ [50]
           ∨ ∃ l2, rising 50 l2 100
                   ∧ progress_of (trace s') =
                     progress_of (trace s) ++ l1 ++ 50 :: 50 :: l2).

Lemma silent_view s s' :
  silent s s' ->
  progress_of (trace s') = progress_of (trace s)
  ∧ last_progress s' = last_progress s.
Proof. unfold silent, same, view. by intros [= -> ->]. Qed.

Lemma chains_climbs_pass1 : chains (climbs 50) pass1_done pass1_done.
Proof.
  intros s1 s2 s3 (l1 & E1 & R1 & F1) (l2 & R2 & E2 & F2).
  exists (l1 ++ l2). rewrite F1 in R2. rewrite E2, E1, !app_assoc.
  auto using rising_app.
Qed.

Lemma chains_silent_l (T : relation state) :
  (∀ s1 s2 s3, view s2 = view s1 -> T s2 s3 -> T s1 s3) ->
  chains silent T T.
Proof. intros HT s1 s2 s3 H12. by apply HT. Qed.

Lemma pass2_started_view s1 s2 s3 :
  view s2 = view s1 -> pass2_started s2 s3 -> pass2_started s1 s3.
Proof. unfold view, pass2_started. by intros [= -> ->]. Qed.

Lemma two_pass_view s1 s2 s3 :
  view s2 = view s1 -> two_pass s2 s3 -> two_pass s1 s3.
Proof. unfold view, two_pass. by intros [= -> ->]. Qed.

Lemma two_pass_cut_view s1 s2 s3 :
  view s2 = view s1 -> two_pass_cut s2 s3 -> two_pass_cut s1 s3.
Proof. unfold view, two_pass_cut. by intros [= -> ->]. Qed.

Lemma silent_two_pass_cut s s' : silent s s' -> two_pass_cut s s'.
Proof.
  intros [E _]%silent_view. exists []. split; [apply rising_nil|].
  left. by rewrite app_nil_r.
Qed.

Lemma climbs_two_pass_cut s s' : climbs 50 s s' -> two_pass_cut s s'.
Proof. intros (l & E & Hr & _). exists l. auto. Qed.

Section TwoPass.

Context (w : env) (self : job).

Lemma for_read_line_climbs log pass d lines :
  steps (climbs (cap pass)) (for_ lines (read_line log pass d)).
Proof. rule steps_for. intros. apply read_line_climbs. Qed.

(** Pass 1: if it raises, what it sent so far climbs to at most 50; if it
    returns, it has sent 50 last and recorded it. *)
Lemma run_ffmpeg_command_pass1 c log d :
  outcome (climbs 50) pass1_done (run_ffmpeg_command w c log 1 d).
Proof.
  unfold run_ffmpeg_command. cbv zeta. simpl (_ =? _).
  pose proof chains_climbs_pass1 as Hch.
  assert (chains (climbs 50) (climbs 50) (climbs 50)) as Htr.
  { intros s1 s2 s3 ??. by etransitivity. }
  eapply (outcome_after (climbs 50)); [rule open_w_steps| |done..]. intros _.
  eapply (outcome_after (climbs 50)); [by rule popen_steps| |done..]. intros pr.
  eapply (outcome_after (climbs 50)); [rule steps_ret| |done..]. intros _.
  eapply (outcome_after (climbs 50));
    [apply (for_read_line_climbs _ 1)| |done..]. intros _.
  eapply (outcome_after (climbs 50)); [rule wait_steps| |done..]. intros _.
  intros s. simpl. exists []. simpl. rewrite progress_of_app.
  auto using rising_nil.
Qed.

(** Pass 2: nothing is sent before the subprocess is started; from then
    on, whether it raises or returns, 50 and then a climb to at most 100. *)
Lemma run_ffmpeg_command_pass2 c log d :
  outcome (λ s s', silent s s' ∨ pass2_started s s') pass2_started
    (run_ffmpeg_command w c log 2 d).
Proof.
  unfold run_ffmpeg_command. cbv zeta. simpl (_ =? _).
  assert (chains silent (λ s s', silent s s' ∨ pass2_started s s')
            (λ s s', silent s s' ∨ pass2_started s s')) as Hch.
  { intros s1 s2 s3 H12 [H|H]; [left; by etransitivity|right].
    eapply pass2_started_view; [|done]. apply H12. }
  pose proof (chains_silent_l _ pass2_started_view) as Hch'.
  eapply (outcome_after silent); [rule open_w_steps| |by left|done..]. intros _.
  eapply (outcome_after silent); [by rule popen_steps| |by left|done..]. intros pr.
  intros s. rewrite bind_eq. simpl.
  set (s1 := Build_state _ _ _ _).
  assert (steps (climbs 100)
            (for_ (stderr pr) (read_line (Scratch log) 2 d);;
             wait pr;; mret tt)) as Hrest.
  { rule steps_bind; [apply (for_read_line_climbs _ 2)|intros _].
    rule steps_bind; [rule wait_steps|intros _]. rule steps_ret. }
  specialize (Hrest s1).
  assert (pass2_started s
            ((for_ (stderr pr) (read_line (Scratch log) 2 d);;
              wait pr;; mret tt) s1).2) as Hps.
  { destruct Hrest as (l & E & Hr & F). exists l.
    rewrite E. subst s1. simpl in *. rewrite progress_of_app. simpl.
    rewrite <- app_assoc. auto. }
  destruct ((for_ _ _;; _) s1) as [[e|[]] s2]; simpl in *; auto.
Qed.

Lemma chains_pass1_pass2 :
  chains pass1_done (λ s s', silent s s' ∨ pass2_started s s') two_pass_cut
  ∧ chains pass1_done pass2_started two_pass.
Proof.
  assert (∀ s1 s2 s3, pass1_done s1 s2 -> pass2_started s2 s3 ->
            two_pass s1 s3) as H.
  { intros s1 s2 s3 (l1 & R1 & E1 & F1) (l2 & R2 & E2 & _).
    exists l1, l2. rewrite F1 in R2. rewrite E2, E1, <- !app_assoc. auto. }
  split; [|done].
  intros s1 s2 s3 H12 [H23|H23].
  - destruct H12 as (l1 & R1 & E1 & _). apply silent_view in H23 as [E _].
    exists l1. rewrite E, E1. split; [done|]. by right; left.
  - destruct (H _ _ _ H12 H23) as (l1 & l2 & ? & ? & ?). exists l1.
    split; [done|]. right; right. by exists l2.
Qed.

(** The encode: a return means both passes ran to their ends. *)
Lemma compress_video_outcome input b :
  outcome two_pass_cut two_pass (compress_video w self input b).
Proof.
  unfold compress_video. cbv zeta.
  pose proof (chains_silent_l _ two_pass_cut_view).
  pose proof (chains_silent_l _ two_pass_view).
  eapply (outcome_after silent);
    [rule get_ffmpeg_path_steps| |apply silent_two_pass_cut|done..].
  intros ffmpeg.
  eapply (outcome_after silent);
    [by rule get_video_duration_steps| |apply silent_two_pass_cut|done..].
  intros [d|]; [|intros s; apply silent_two_pass_cut; reflexivity].
  eapply outcome_bind;
    [apply run_ffmpeg_command_pass1
    |intros _; apply run_ffmpeg_command_pass2
    |apply climbs_two_pass_cut
    |apply chains_pass1_pass2..].
Qed.

End TwoPass.

(** ** The pipelines *)

Section Pipelines.

Context (w : env) (self : job).

Definition trim_only : relation state := λ s s',
  progress_of (trace s') = progress_of (trace s) ++ [100].

Lemma compress_trim_video_outcome :
  outcome two_pass_cut (λ s s', silent s s' ∨ two_pass s s')
    (compress_trim_video w self).
Proof.
  unfold compress_trim_video. cbv zeta.
  pose proof (chains_silent_l _ two_pass_cut_view) as Hx.
  assert (chains silent (λ s s', silent s s' ∨ two_pass s s')
            (λ s s', silent s s' ∨ two_pass s s')) as Hq.
  { intros s1 s2 s3 H12 [H|H]; [left; by etransitivity|right].
    eapply two_pass_view; [|done]. apply H12. }
  eapply (outcome_after silent);
    [apply tol_temp| |apply silent_two_pass_cut|done..]. intros _.
  eapply (outcome_after silent);
    [by rule trim_video_steps| |apply silent_two_pass_cut|done..]. intros _.
  eapply (outcome_after silent);
    [rule get_file_size_steps| |apply silent_two_pass_cut|done..].
  intros trimmed_size.
  eapply (outcome_after silent);
    [|intros small|apply silent_two_pass_cut|done..].
  { destruct (target_size self); [rule steps_ret|rule steps_raise]. }
  destruct small.
  - apply (outcome_weaken silent silent);
      [apply silent_two_pass_cut|by left|].
    apply steps_outcome. rule steps_try; [rule shutil_move_steps|].
    intros e. rule steps_raise.
  - eapply (outcome_after silent);
      [by rule get_video_duration_steps| |apply silent_two_pass_cut|done..].
    intros [d|]; [|intros s; apply silent_two_pass_cut; reflexivity].
    eapply (outcome_after silent);
      [|intros t|apply silent_two_pass_cut|done..].
    { destruct (target_size self); [rule steps_ret|rule steps_raise]. }
    eapply (outcome_after silent);
      [rule steps_lift| |apply silent_two_pass_cut|done..]. intros b.
    eapply outcome_weaken; [| |apply compress_video_outcome]; auto.
Qed.

(** With a target size: an encode, whole or cut short, or nothing at all
    when the trimmed file was small enough. *)
Lemma pipeline_outcome_target :
  has_target_size self = true ->
  outcome two_pass_cut (λ s s', silent s s' ∨ two_pass s s')
    (pipeline w self).
Proof.
  intros Ht. unfold pipeline. rewrite Ht. simpl.
  assert (∀ (c : M unit) X Q, outcome X Q c -> outcome X Q (c;; mret true))
    as Hret.
  { intros c X Q Hc s. rewrite bind_eq. specialize (Hc s).
    by destruct (c s) as [[e|[]] s']. }
  destruct (has_trim_window self); apply Hret.
  - apply compress_trim_video_outcome.
  - eapply outcome_weaken; [| |apply compress_video_outcome]; auto.
Qed.

(** Without one: the trim sends nothing, and 100 follows its return. *)
Lemma pipeline_outcome_trim :
  has_target_size self = false ->
  outcome silent trim_only (pipeline w self).
Proof.
  intros Ht. unfold pipeline. rewrite Ht. simpl.
  eapply (outcome_after silent); [by rule trim_video_steps| |done|..].
  - intros _ s. simpl. unfold trim_only. simpl. by rewrite progress_of_app.
  - intros s1 s2 s3 ??. by etransitivity.
  - intros s1 s2 s3 [E _]%silent_view. unfold trim_only. by rewrite E.
Qed.

Lemma pipeline_returns_true s b s' :
  pipeline w self s = (inr b, s') -> b = true.
Proof.
  unfold pipeline.
  destruct (has_target_size self && has_trim_window self);
    [|destruct (has_target_size self)]; rewrite !bind_eq.
  - destruct (compress_trim_video w self s) as [[e|[]] s1]; by intros [= <-].
  - destruct (compress_video w self None None s) as [[e|[]] s1];
      by intros [= <-].
  - destruct (trim_video w self None s) as [[e|[]] s1]; by intros [= <-].
Qed.

(** *** What [run] adds to its pipeline *)

(** The state after [cleanup_temp_files]. *)
Definition cleaned (s : state) : state :=
  {| last_progress := last_progress s;
     temp_files := temp_files s;
     fs := foldl (λ g n, cleanup_entry w n g) (fs s)
             (map fst (map_to_list (scratch (fs s))));
     trace := trace s ++ [cleanup_run] |}.

Lemma cleanup_temp_files_eq s : cleanup_temp_files w s = (inr tt, cleaned s).
Proof. reflexivity. Qed.

Definition with_event (e : event) (s : state) : state :=
  {| last_progress := last_progress s; temp_files := temp_files s;
     fs := fs s; trace := trace s ++ [e] |}.

(** [run] after a pipeline that raised: the error signal, then the
    cleanup. *)
Lemma run_raised s e s1 :
  pipeline w self s = (inl e, s1) ->
  run w self s =
  (inr tt,
   cleaned (with_event (error_signal ("Error: " ++ str_exn e)%string) s1)).
Proof.
  intros E. unfold run. rewrite bind_eq. unfold try_except. rewrite E.
  reflexivity.
Qed.

(** [run] after a pipeline that returned: the size of the output is
    measured outside of the [try]; then the success signal, then the
    cleanup. *)
Lemma run_returned s s1 :
  pipeline w self s = (inr true, s1) ->
  run w self s =
  match get_file_size (Ext (output_file self)) s1 with
  | (inr new_size, _) =>
      (inr tt,
       cleaned (with_event
                  (done_signal (output_file self) (elapsed w) new_size) s1))
  | (inl e, _) => (inl e, s1)
  end.
Proof.
  intros E. unfold run. rewrite bind_eq. unfold try_except. rewrite E.
  rewrite bind_eq. unfold get_file_size, getsize. rewrite !bind_eq. simpl.
  by destruct (ext (fs s1) !! output_file self) as [[| |]|].
Qed.

Lemma run_progress s :
  progress_of (trace (run w self s).2) =
  progress_of (trace (pipeline w self s).2).
Proof.
  destruct (pipeline w self s) as [[e|b] s1] eqn:E.
  - rewrite (run_raised _ _ _ E). simpl.
    rewrite <- app_assoc, progress_of_app. simpl. by rewrite app_nil_r.
  - pose proof (pipeline_returns_true _ _ _ E) as ->.
    rewrite (run_returned _ _ E).
    destruct (get_file_size _ s1) as [[e|sz] s2]; [done|]. simpl.
    rewrite <- app_assoc, progress_of_app. simpl. by rewrite app_nil_r.
Qed.

End Pipelines.

(** ** The shape of the percentages of a job *)

(** Two percentages sent one after the other: a strict climb, or 50
    twice. *)
Definition step50 (a b : Z) : Prop := a < b ∨ (a = 50 ∧ b = 50).

(** The percentages of a job, from a fresh thread. *)
Definition job_progress (l : list Z) : Prop :=
  l = [100]
  ∨ ∃ l1, rising 0 l1 50
          ∧ (l = l1 ∨ l = l1 ++ [50]
             ∨ ∃ l2, rising 50 l2 100 ∧ l = l1 ++ 50 :: 50 :: l2).

Lemma Sorted_impl {A} (R1 R2 : relation A) l :
  (∀ x y, R1 x y -> R2 x y) -> Sorted R1 l -> Sorted R2 l.
Proof.
  intros HR. induction 1 as [|x l Hs IH Hh]; constructor; [done|].
  destruct Hh; constructor; auto.
Qed.

Lemma rising_tail a l c : rising a l c -> Sorted Z.lt l.
Proof. intros [Hs _]. by apply Sorted_inv in Hs as [Hs _]. Qed.

Lemma rising_then_50 a l t :
  rising a l 50 -> Sorted step50 (50 :: t) -> Sorted step50 (l ++ 50 :: t).
Proof.
  revert a. induction l as [|x l IH]; intros a Hr Ht; [done|].
  apply rising_cons in Hr as (_ & Hx & Hr). simpl.
  constructor; [by eapply IH|].
  destruct l as [|y l]; simpl; constructor.
  - unfold step50. lia.
  - apply rising_cons in Hr as (Hxy & _). by left.
Qed.

Lemma rising_bounds a l c :
  rising a l c -> Forall (λ p, a < p <= c) l.
Proof.
  intros Hr. pose proof (rising_lower _ _ _ Hr) as Hl. destruct Hr as [_ Hc].
  apply Forall_forall. intros p Hp.
  rewrite Forall_forall in Hl, Hc. split; auto.
Qed.

Lemma job_progress_step50 l : job_progress l -> Sorted step50 l.
Proof.
  intros [->|(l1 & R1 & [->|[->|(l2 & R2 & ->)]])].
  - repeat constructor.
  - eapply Sorted_impl; [|by eapply rising_tail]. by left.
  - eapply rising_then_50; [done|repeat constructor].
  - eapply rising_then_50; [done|].
    constructor; [|constructor; by right].
    eapply Sorted_impl; [|apply R2]. by left.
Qed.

Lemma job_progress_bounds l :
  job_progress l -> Forall (λ p, 0 <= p <= 100) l.
Proof.
  assert (∀ a c l, 0 <= a -> c <= 100 -> rising a l c ->
            Forall (λ p, 0 <= p <= 100) l) as Hb.
  { intros a c l' Ha Hc Hr. eapply Forall_impl; [by eapply rising_bounds|].
    simpl. intros. lia. }
  intros [->|(l1 & R1 & [->|[->|(l2 & R2 & ->)]])].
  - repeat constructor; lia.
  - eapply Hb; [| |done]; lia.
  - apply Forall_app. split; [eapply Hb; [| |done]; lia|].
    repeat constructor; lia.
  - apply Forall_app. split; [eapply Hb; [| |done]; lia|].
    repeat (constructor; [lia|]). eapply Hb; [| |done]; lia.
Qed.

Lemma step50_le l : Sorted step50 l -> Sorted Z.le l.
Proof. apply Sorted_impl. unfold step50. intros. lia. Qed.

Section Jobs.

Context (w : env) (self : job).

(** What a fresh thread has sent when [run] is over. *)
Lemma run_job_progress f :
  let l := progress_of (trace (run w self (init f)).2) in
  job_progress l ∧ (has_target_size self = false -> l = [] ∨ l = [100]).
Proof.
  intros l. subst l. rewrite run_progress.
  destruct (has_target_size self) eqn:Ht.
  - split; [|done]. right.
    pose proof (pipeline_outcome_target w self Ht (init f)) as H.
    destruct (pipeline w self (init f)) as [[e|b] s1]; simpl in *.
    + destruct H as (l1 & R1 & H). by exists l1.
    + destruct H as [[H _]%silent_view|(l1 & l2 & R1 & R2 & H)].
      * exists []. split; [apply rising_nil|]. by left.
      * exists l1. split; [done|]. right; right. by exists l2.
  - pose proof (pipeline_outcome_trim w self Ht (init f)) as H.
    destruct (pipeline w self (init f)) as [[e|b] s1]; simpl in *.
    + apply silent_view in H as [H _]. rewrite H. simpl. split; [|by left].
      right. exists []. split; [apply rising_nil|]. by left.
    + unfold trim_only in H. simpl in H. rewrite H. split; [by left|by right].
Qed.

(** The pipeline sends no terminal signal and runs no cleanup. *)
Lemma pipeline_quiet s :
  Forall (λ e, quiet e = true) (trace s) ->
  Forall (λ e, quiet e = true) (trace (pipeline w self s).2).
Proof.
  pose proof (pipeline_steps w self stays_quiet quiet) as H.
  apply H; try done. by intros p s0 Hs.
Qed.

End Jobs.

(** ** Sample worlds *)

Module Sample.

Definition source : string := "C:/clips/in.mp4".
Definition target : string := "C:/Videos/ClipUtils/in_ClipUtils.mp4".

(** The file system before a job: the source clip and an empty scratch
    folder. *)
Definition disk : filesystem :=
  {| scratch := ∅; ext := {[ source := File "source clip" ]} |}.

(** A job with a target size of 8 MB and no trim window. *)
Definition encode_job : job :=
  {| input_file := source; output_file := target;
     target_size := Some (of_Z 8); target_bitrate := Some (of_Z 6553);
     start_time := None; end_time := None |}.

(** A job with a trim window of 10 s to 40 s and no target size. *)
Definition trim_job : job :=
  {| input_file := source; output_file := target;
     target_size := None; target_bitrate := None;
     start_time := Some (of_Z 10); end_time := Some (of_Z 40) |}.

(** A job with neither. *)
Definition empty_job : job :=
  {| input_file := source; output_file := target;
     target_size := None; target_bitrate := None;
     start_time := None; end_time := None |}.

(** A job with both: a target size of 8 MB and the same trim window. *)
Definition both_job : job :=
  {| input_file := source; output_file := target;
     target_size := Some (of_Z 8); target_bitrate := Some (of_Z 2184);
     start_time := Some (of_Z 10); end_time := Some (of_Z 40) |}.

(** The last argument of a command, when it is a path. *)
Definition sink (c : list arg) : option path :=
  match last c with
  | Some (P p) => Some p
  | _ => None
  end.

(** ffmpeg as the jobs above meet it: two diagnostic lines per
    invocation, and one file written to the path the command ends with
    (the statistics of pass 1 go to the scratch folder).  [code] is the
    return code of every invocation. *)
Definition ffmpeg (code : Z) (c : list arg) : option process :=
  Some
    {| stderr :=
         ["frame=  120 fps=0.0 q=28.0 size=     256kB time=00:00:05.00 bitrate= 419.4kbits/s";
          "frame=  240 fps=0.0 q=28.0 size=     512kB time=00:00:10.00 bitrate= 419.4kbits/s"];
       returncode := code;
       effect :=
         match sink c with
         | Some p => fs_insert p (File "video")
         | None => fs_insert (Scratch "ffmpeg2pass-0.log") (File "statistics")
         end |}.

(** A world where everything works and the clip lasts 10 seconds. *)
Definition world : env :=
  {| ffmpeg_path := Some "C:/app/ffmpeg/ffmpeg.exe";
     ffprobe_path := "C:/app/ffmpeg/ffprobe.exe";
     spawn := ffmpeg 0;
     ffprobe_stdout := λ _, Some ("10.000000" ++ nl)%string;
     path_join := λ d n, (d ++ "/" ++ n)%string;
     move_error := None;
     delete_fails := λ _, false;
     elapsed := of_Z 3 |}.

(** The same world, but every ffmpeg invocation exits with code 1. *)
Definition failing_world : env :=
  {| ffmpeg_path := Some "C:/app/ffmpeg/ffmpeg.exe";
     ffprobe_path := "C:/app/ffmpeg/ffprobe.exe";
     spawn := ffmpeg 1;
     ffprobe_stdout := λ _, Some ("10.000000" ++ nl)%string;
     path_join := λ d n, (d ++ "/" ++ n)%string;
     move_error := None;
     delete_fails := λ _, false;
     elapsed := of_Z 3 |}.

End Sample.

(** ** Return codes *)

(** A world whose subprocesses exit with other codes, all else equal. *)
Definition recode (f : Z -> Z) (w : env) : env :=
  {| ffmpeg_path := ffmpeg_path w;
     ffprobe_path := ffprobe_path w;
     spawn := λ c,
       (λ pr, {| stderr := stderr pr; returncode := f (returncode pr);
                 effect := effect pr |}) <$> spawn w c;
     ffprobe_stdout := ffprobe_stdout w;
     path_join := path_join w;
     move_error := move_error w;
     delete_fails := delete_fails w;
     elapsed := elapsed w |}.

(** [run_ffmpeg_command] does not look at the return code of its
    subprocess. *)
Lemma run_ffmpeg_command_recode f w c log pass d s :
  run_ffmpeg_command (recode f w) c log pass d s =
  run_ffmpeg_command w c log pass d s.
Proof.
  unfold run_ffmpeg_command, popen. cbv zeta. rewrite !bind_eq.
  destruct (open_w _ s) as [[e|[]] s1]; [done|].
  rewrite !bind_eq. simpl. by destruct (spawn w c).
Qed.

(** Nor does an encode as a whole. *)
Lemma compress_video_recode f w j input b s :
  compress_video (recode f w) j input b s = compress_video w j input b s.
Proof.
  unfold compress_video. cbv zeta. rewrite !bind_eq.
  change (get_ffmpeg_path (recode f w)) with (get_ffmpeg_path w).
  destruct (get_ffmpeg_path w s) as [[e|ffmpeg] s1]; [done|].
  rewrite !bind_eq.
  change (get_video_duration (recode f w)) with (get_video_duration w).
  destruct (get_video_duration w _ s1) as [[e|[d|]] s2]; [done| |done].
  rewrite !bind_eq, run_ffmpeg_command_recode.
  destruct (run_ffmpeg_command w _ _ 1 d s2) as [[e|[]] s3]; [done|].
  apply run_ffmpeg_command_recode.
Qed.

(** C1 (code bug).  The claim: a non-zero exit of either encode pass makes
    the encoder fail and the job end with the error signal.  The code: in
    a world where every ffmpeg invocation exits with code 1, the job with
    a target size runs both passes and ends with the success signal; no
    error signal is sent. *)
Theorem C1_nonzero_exit_reports_success :
  let r := run Sample.failing_world Sample.encode_job (init Sample.disk) in
  (∀ c pr, spawn Sample.failing_world c = Some pr -> returncode pr = 1)
  ∧ r.1 = inr tt
  ∧ length (popens_of (trace r.2)) = 2%nat
  ∧ filter (λ e, is_terminal e = true) (trace r.2) =
    [done_signal Sample.target (of_Z 3) (S754_zero false)].
Proof.
  split; [by intros c pr [= <-]|]. vm_compute. auto.
Qed.

(** ** The percentages of a job *)

(** What C3 asks of a finished encode: the last percentage is 100. *)
Definition ends_at_100 (l : list Z) : Prop := last l = Some 100.

(** C3, counterexample.  A 10-second clip whose second pass reports
    [time=00:00:10.00] last: the job succeeds and the last percentage sent
    is 91. *)
Lemma C3_counterexample :
  ¬ ends_at_100
      (progress_of
         (trace (run Sample.world Sample.encode_job (init Sample.disk)).2)).
Proof. vm_compute. discriminate. Qed.

(** C4, counterexample.  In the same job 50 is sent twice in a row: the
    percentages do not climb strictly. *)
Lemma C4_counterexample :
  ¬ Sorted Z.lt
      (progress_of
         (trace (run Sample.world Sample.encode_job (init Sample.disk)).2)).
Proof.
  vm_compute. intros H.
  do 2 (apply Sorted_inv in H as [H _]).
  apply Sorted_inv in H as [_ H]. apply HdRel_inv in H. by vm_compute in H.
Qed.

(** C4, as amended.  Over one job every percentage sent is greater than
    the one before it, except that 50 may follow 50: the 50 at the end of
    pass 1 and the 50 at the start of pass 2 are sent unconditionally. *)
Theorem C4_progress_steps w j f :
  Sorted step50 (progress_of (trace (run w j (init f)).2)).
Proof. apply job_progress_step50, run_job_progress. Qed.

(** The success signal is only sent after the pipeline has returned. *)
Lemma run_done_returned w j f o sec sz :
  done_signal o sec sz ∈ trace (run w j (init f)).2 ->
  ∃ s1, pipeline w j (init f) = (inr true, s1).
Proof.
  pose proof (pipeline_quiet w j (init f)) as Hq.
  destruct (pipeline w j (init f)) as [[e|b] s1] eqn:E; simpl in Hq.
  - rewrite (run_raised _ _ _ _ _ E). simpl.
    rewrite !elem_of_app, !list_elem_of_singleton.
    intros [[H|?]|?]; [|done..].
    specialize (Hq ltac:(constructor)). rewrite Forall_forall in Hq.
    by apply Hq in H.
  - pose proof (pipeline_returns_true _ _ _ _ _ E) as ->. eauto.
Qed.

(** C5.  The percentages sent during one job never decrease and lie
    between 0 and 100; a job without a target size that ends with the
    success signal has sent 100 and nothing else. *)
Theorem C5_progress_monotone_bounded w j f :
  let t := trace (run w j (init f)).2 in
  Sorted Z.le (progress_of t)
  ∧ Forall (λ p, 0 <= p <= 100) (progress_of t)
  ∧ (has_target_size j = false ->
     (∃ o sec sz, done_signal o sec sz ∈ t) ->
     progress_of t = [100]).
Proof.
  intros t. subst t.
  pose proof (run_job_progress w j f) as [Hj _]. simpl in Hj.
  split; [by apply step50_le, job_progress_step50|].
  split; [by apply job_progress_bounds|].
  intros Ht (o & sec & sz & [s1 E]%run_done_returned).
  rewrite run_progress.
  pose proof (pipeline_outcome_trim w j Ht (init f)) as H.
  rewrite E in H. rewrite E. exact H.
Qed.

Lemma C5_witness :
  progress_of
    (trace (run Sample.world Sample.trim_job (init Sample.disk)).2) = [100].
Proof.
  apply (C5_progress_monotone_bounded Sample.world Sample.trim_job
           Sample.disk).
  - reflexivity.
  - eexists _, _, _. vm_compute. do 4 right. left.
Defined.

(** ** Terminal signals and the cleanup *)

Definition is_cleanup (e : event) : bool :=
  match e with cleanup_run => true | _ => false end.

(** Every terminal signal of [t] comes after a run of the cleanup;
    [seen] tells whether one has run already. *)
Fixpoint cleaned_before_terminal (seen : bool) (t : list event) : bool :=
  match t with
  | [] => true
  | e :: r =>
      if is_terminal e then seen && cleaned_before_terminal seen r
      else cleaned_before_terminal (seen || is_cleanup e) r
  end.

(** What C2 asks of an execution: no exception escapes, one terminal
    signal is sent, and the cleanup has run before it. *)
Definition one_terminal_after_cleanup (r : (exn + unit) * state) : Prop :=
  r.1 = inr tt
  ∧ length (filter (λ e, is_terminal e = true) (trace r.2)) = 1%nat
  ∧ cleaned_before_terminal false (trace r.2) = true.

(** C2, counterexample.  A job that succeeds: the success signal is sent
    first and the cleanup runs after it. *)
Lemma C2_counterexample :
  ¬ one_terminal_after_cleanup
      (run Sample.world Sample.encode_job (init Sample.disk)).
Proof. intros (_ & _ & H). by vm_compute in H. Qed.

(** C2, as amended.  Every exception raised in the pipeline is caught and
    turned into the error signal; and whenever no exception escapes [run],
    exactly one terminal signal is sent, exactly once, and the cleanup runs
    right after it: the trace is a run of log lines, percentages and
    subprocess starts, then the terminal signal, then the cleanup. *)
Theorem C2_one_terminal_then_cleanup w j f :
  (∀ e s1, pipeline w j (init f) = (inl e, s1) ->
     (run w j (init f)).1 = inr tt
     ∧ trace (run w j (init f)).2 =
       trace s1 ++ [error_signal ("Error: " ++ str_exn e)%string; cleanup_run])
  ∧ ((run w j (init f)).1 = inr tt ->
     ∃ pre e,
       trace (run w j (init f)).2 = pre ++ [e; cleanup_run]
       ∧ is_terminal e = true
       ∧ Forall (λ x, quiet x = true) pre).
Proof.
  split.
  - intros e s1 E. rewrite (run_raised _ _ _ _ _ E). simpl.
    by rewrite <- app_assoc.
  - pose proof (pipeline_quiet w j (init f) ltac:(constructor)) as Hq.
    destruct (pipeline w j (init f)) as [[e|b] s1] eqn:E; simpl in Hq.
    + rewrite (run_raised _ _ _ _ _ E). simpl. intros _.
      eexists _, _. rewrite <- app_assoc. eauto.
    + pose proof (pipeline_returns_true _ _ _ _ _ E) as ->.
      rewrite (run_returned _ _ _ _ E).
      destruct (get_file_size _ s1) as [[e|sz] s2]; [done|]. simpl.
      intros _. eexists _, _. rewrite <- app_assoc. eauto.
Qed.

Lemma C2_witness :
  ∃ pre e,
    trace (run Sample.world Sample.encode_job (init Sample.disk)).2 =
    pre ++ [e; cleanup_run]
    ∧ is_terminal e = true
    ∧ Forall (λ x, quiet x = true) pre.
Proof.
  apply (C2_one_terminal_then_cleanup Sample.world Sample.encode_job
           Sample.disk).
  vm_compute. reflexivity.
Defined.

(** ** A job with nothing to do *)

(** C9.  A job with neither a positive target size nor a complete trim
    window is turned down before any subprocess is started: all that [run]
    does is send the error signal and clean the scratch folder. *)
Theorem C9_rejected_without_engine w j f :
  has_target_size j = false ->
  has_trim_window j = false ->
  ∃ msg,
    run w j (init f) =
    (inr tt, cleaned w (with_event (error_signal msg) (init f)))
    ∧ trace (run w j (init f)).2 = [error_signal msg; cleanup_run].
Proof.
  intros Ht Hw.
  assert (∃ e, pipeline w j (init f) = (inl e, init f)) as [e E].
  { unfold pipeline. rewrite Ht. simpl. rewrite bind_eq.
    unfold trim_video, get_ffmpeg_path. cbv zeta. rewrite bind_eq.
    unfold has_trim_window in Hw.
    destruct (ffmpeg_path w); simpl; [|eauto].
    destruct (start_time j), (end_time j); try done; simpl; eauto. }
  eexists. rewrite (run_raised _ _ _ _ _ E). eauto.
Qed.

Lemma C9_witness :
  ∃ msg,
    run Sample.world Sample.empty_job (init Sample.disk) =
    (inr tt,
     cleaned Sample.world (with_event (error_signal msg) (init Sample.disk)))
    ∧ trace (run Sample.world Sample.empty_job (init Sample.disk)).2 =
      [error_signal msg; cleanup_run].
Proof.
  apply (C9_rejected_without_engine Sample.world Sample.empty_job
           Sample.disk); reflexivity.
Defined.

(** ** The cleanup of the scratch folder *)

(** What the cleanup leaves of the entry [name] of the scratch folder: a
    file or a directory is gone unless deleting it raises; anything else
    stays. *)
Definition after_cleanup (w : env) (name : string) (x : option node)
  : option node :=
  match x with
  | Some (File _) | Some Dir => if delete_fails w name then x else None
  | _ => x
  end.

Lemma after_cleanup_idemp w name x :
  after_cleanup w name (after_cleanup w name x) = after_cleanup w name x.
Proof.
  destruct x as [[c| |]|]; simpl; try done;
    destruct (delete_fails w name) eqn:E; simpl; by rewrite ?E.
Qed.

Lemma cleanup_entry_scratch w n (f : filesystem) name :
  scratch (cleanup_entry w n f) !! name =
  if decide (n = name) then after_cleanup w name (scratch f !! name)
  else scratch f !! name.
Proof.
  unfold cleanup_entry, after_cleanup. case_decide as Hn.
  - subst n. destruct (scratch f !! name) as [[c| |]|] eqn:E; try done;
      destruct (delete_fails w name); simpl; by rewrite ?lookup_delete_eq.
  - destruct (scratch f !! n) as [[c| |]|]; try done;
      destruct (delete_fails w n); simpl; by rewrite ?lookup_delete_ne.
Qed.

Lemma cleanup_entry_ext w n (f : filesystem) :
  ext (cleanup_entry w n f) = ext f.
Proof.
  unfold cleanup_entry.
  destruct (scratch f !! n) as [[c| |]|]; try done;
    by destruct (delete_fails w n).
Qed.

(** The loop over the listing: the entries listed are swept, each on its
    own; the others are not touched. *)
Lemma cleanup_loop_scratch w names (f : filesystem) name :
  scratch (foldl (λ g n, cleanup_entry w n g) f names) !! name =
  if decide (name ∈ names) then after_cleanup w name (scratch f !! name)
  else scratch f !! name.
Proof.
  revert f. induction names as [|n names IH]; intros f; simpl; [done|].
  rewrite IH, cleanup_entry_scratch.
  destruct (decide (n = name)) as [->|Hn].
  - destruct (decide (name ∈ name :: names)) as [_|Hc].
    + case_decide; by rewrite ?after_cleanup_idemp.
    + destruct Hc. apply elem_of_cons. by left.
  - destruct (decide (name ∈ names)) as [Hin|Hin];
      destruct (decide (name ∈ n :: names)) as [Hc|Hc]; try done.
    + destruct Hc. apply elem_of_cons. by right.
    + apply elem_of_cons in Hc as [->|Hc]; done.
Qed.

Lemma cleanup_loop_ext w names (f : filesystem) :
  ext (foldl (λ g n, cleanup_entry w n g) f names) = ext f.
Proof.
  revert f. induction names as [|n names IH]; intros f; simpl; [done|].
  by rewrite IH, cleanup_entry_ext.
Qed.

(** C10.  The cleanup sweeps the scratch folder as it is when it runs:
    every file and every directory in it is deleted, unless deleting that
    very entry fails, and whatever other entries do; what lies outside the
    folder stays; the list of registered temporary files plays no part. *)
Theorem C10_cleanup_sweeps_scratch w s :
  let s' := (cleanup_temp_files w s).2 in
  (∀ name,
     scratch (fs s') !! name = after_cleanup w name (scratch (fs s) !! name))
  ∧ ext (fs s') = ext (fs s)
  ∧ (∀ registered,
       fs (cleanup_temp_files w
             {| last_progress := last_progress s; temp_files := registered;
                fs := fs s; trace := trace s |}).2 = fs s').
Proof.
  rewrite cleanup_temp_files_eq. simpl. split; [|split].
  - intros name. rewrite cleanup_loop_scratch.
    case_decide as Hin; [done|].
    destruct (scratch (fs s) !! name) as [x|] eqn:E; [|done].
    destruct Hin. apply list_elem_of_In, in_map_iff.
    exists (name, x). split; [done|].
    by apply list_elem_of_In, elem_of_map_to_list.
  - apply cleanup_loop_ext.
  - done.
Qed.

(** ** The time parser *)

(** [":".join(parts)] *)
Fixpoint join_colon (parts : list string) : string :=
  match parts with
  | [] => EmptyString
  | [p] => p
  | p :: rest => (p ++ ":" ++ join_colon rest)%string
  end.

(** [":" not in s] *)
Definition colon_free (s : string) : Prop := PyStr.contains ":" s = false.

(** The parts as [float()] sees them. *)
Definition dotted (parts : list string) : list string :=
  map (PyStr.replace_char "," ".") parts.

Lemma append_nil_l (s : string) : ("" ++ s)%string = s.
Proof. reflexivity. Qed.

Lemma append_cons c (s t : string) :
  (String c s ++ t)%string = String c (s ++ t).
Proof. reflexivity. Qed.

Lemma prefix_colon c r :
  String.prefix ":" (String c r) = bool_decide (c = ":"%char).
Proof.
  change (String.prefix ":" (String c r))
    with (if ascii_dec ":" c then String.prefix "" r else false).
  destruct (ascii_dec ":" c) as [<-|Hc].
  - by destruct r.
  - by rewrite bool_decide_eq_false_2.
Qed.

Lemma colon_free_cons c r :
  colon_free (String c r) <-> c ≠ ":"%char ∧ colon_free r.
Proof.
  unfold colon_free. cbn [PyStr.contains]. rewrite prefix_colon.
  rewrite orb_false_iff, bool_decide_eq_false. tauto.
Qed.

Lemma split_aux_colon_free p :
  colon_free p -> PyStr.split_aux ":" 0 p = (p, []).
Proof.
  induction p as [|c r IH]; [done|].
  intros [Hc Hr]%colon_free_cons. cbn [PyStr.split_aux].
  rewrite prefix_colon, bool_decide_eq_false_2 by done. by rewrite IH.
Qed.

Lemma split_aux_colon_app p rest :
  colon_free p ->
  PyStr.split_aux ":" 0 (p ++ String ":" rest)%string =
  (p, PyStr.split ":" rest).
Proof.
  induction p as [|c r IH].
  - intros _. rewrite append_nil_l. cbn [PyStr.split_aux].
    rewrite prefix_colon, bool_decide_eq_true_2 by done. done.
  - intros [Hc Hr]%colon_free_cons. rewrite append_cons.
    cbn [PyStr.split_aux].
    rewrite prefix_colon, bool_decide_eq_false_2 by done. by rewrite IH.
Qed.

(** Splitting undoes joining. *)
Lemma split_join_colon parts :
  parts ≠ [] -> Forall colon_free parts ->
  PyStr.split ":" (join_colon parts) = parts.
Proof.
  induction parts as [|p rest IH]; [done|]. intros _ Hf.
  apply Forall_cons in Hf as [Hp Hrest]. unfold PyStr.split.
  destruct rest as [|q rest].
  - simpl. by rewrite split_aux_colon_free.
  - change (join_colon (p :: q :: rest))
      with (p ++ String ":" (join_colon (q :: rest)))%string.
    rewrite split_aux_colon_app by done. by rewrite IH.
Qed.

Lemma replace_char_app a b s t :
  PyStr.replace_char a b (s ++ t) =
  (PyStr.replace_char a b s ++ PyStr.replace_char a b t)%string.
Proof.
  induction s as [|c s IH]; [done|].
  rewrite append_cons. cbn [PyStr.replace_char]. by rewrite IH.
Qed.

Lemma replace_join_colon parts :
  PyStr.replace_char "," "." (join_colon parts) = join_colon (dotted parts).
Proof.
  induction parts as [|p [|q rest] IH]; [done..|].
  change (join_colon (p :: q :: rest))
    with (p ++ String ":" (join_colon (q :: rest)))%string.
  rewrite replace_char_app. cbn [PyStr.replace_char]. rewrite IH. done.
Qed.

Lemma replace_colon_free s :
  colon_free s -> colon_free (PyStr.replace_char "," "." s).
Proof.
  induction s as [|c s IH]; [done|].
  intros [Hc Hs]%colon_free_cons. cbn [PyStr.replace_char].
  apply colon_free_cons. split; [|auto].
  destruct (Ascii.eqb c ","); [done|done].
Qed.

(** The parts the parser works on are those of the token. *)
Lemma parts_of_join parts :
  parts ≠ [] -> Forall colon_free parts ->
  PyStr.split ":" (PyStr.replace_char "," "." (join_colon parts)) =
  dotted parts.
Proof.
  intros Hne Hf. rewrite replace_join_colon. apply split_join_colon.
  - by destruct parts.
  - clear Hne. unfold dotted. induction Hf; simpl; constructor;
      auto using replace_colon_free.
Qed.

(** The tokens the design document (section 4.6) describes: [H:MM:SS],
    [MM:SS] or a bare number of seconds, every part a number. *)
Definition spec_timestamp (time_str : string) : bool :=
  match map_float (PyStr.split ":" (PyStr.replace_char "," "." time_str)) with
  | Some [_] | Some [_; _] | Some [_; _; _] => true
  | _ => false
  end.

(** [float()] does not pass over the separators U+001C to U+001F, which
    [str.strip] removes: a part that starts with one of them is not a
    number. *)
Lemma of_string_separator c s :
  28 <= PyStr.code c <= 31 -> of_string (String c s) = None.
Proof.
  intros Hc. unfold PyStr.code in Hc.
  assert (∃ n, (28 <= n <= 31)%nat ∧ c = ascii_of_nat n) as (n & Hn & ->).
  { exists (nat_of_ascii c). split; [lia|]. by rewrite ascii_nat_embedding. }
  assert (n = 28 ∨ n = 29 ∨ n = 30 ∨ n = 31)%nat as Hcase by lia.
  destruct Hcase as [E|[E|[E|E]]]; subst n; by vm_compute.
Qed.

(** C8, counterexample.  A token of four numeric parts is none of the
    three shapes, and the parser does not answer 0: it answers the first
    part, 1.0. *)
Lemma C8_counterexample :
  ¬ (spec_timestamp "1:2:3:4" = false ->
     parse_time_to_seconds "1:2:3:4" = S754_zero false).
Proof. intros H. specialize (H eq_refl). by vm_compute in H. Qed.

Lemma map_float_length parts xs :
  map_float parts = Some xs -> length xs = length parts.
Proof.
  revert xs. induction parts as [|p parts IH]; intros xs; simpl.
  - by intros [= <-].
  - destruct (of_string p); [|done].
    destruct (map_float parts) as [ys|]; [|done].
    intros [= <-]. simpl. by rewrite (IH ys).
Qed.

(** C8, as amended.  The parser splits the token on [:] after replacing
    [,] by [.] and converts every part with [float()].  Three parts are
    hours, minutes and seconds; two parts are minutes and seconds; with any
    other number of parts (one, or four and more) the first part alone is
    the result, in seconds; when one part is not a number the result is 0.
    The four sample tokens give 3723.5, 135.0, 42.0 and 0.0. *)
Theorem C8_parse_time :
  (∀ a b c h m s,
     colon_free a -> colon_free b -> colon_free c ->
     of_string (PyStr.replace_char "," "." a) = Some h ->
     of_string (PyStr.replace_char "," "." b) = Some m ->
     of_string (PyStr.replace_char "," "." c) = Some s ->
     parse_time_to_seconds (join_colon [a; b; c]) =
     fadd (fadd (fmul h (of_Z 3600)) (fmul m (of_Z 60))) s)
  ∧ (∀ a b m s,
       colon_free a -> colon_free b ->
       of_string (PyStr.replace_char "," "." a) = Some m ->
       of_string (PyStr.replace_char "," "." b) = Some s ->
       parse_time_to_seconds (join_colon [a; b]) = fadd (fmul m (of_Z 60)) s)
  ∧ (∀ parts x xs,
       Forall colon_free parts ->
       length parts ≠ 2%nat -> length parts ≠ 3%nat ->
       map_float (dotted parts) = Some (x :: xs) ->
       parse_time_to_seconds (join_colon parts) = x)
  ∧ (∀ parts,
       parts ≠ [] -> Forall colon_free parts ->
       map_float (dotted parts) = None ->
       parse_time_to_seconds (join_colon parts) = S754_zero false)
  ∧ parse_time_to_seconds "01:02:03.50" = SFdiv prec emax (of_Z 7447) (of_Z 2)
  ∧ parse_time_to_seconds "02:15" = of_Z 135
  ∧ parse_time_to_seconds "42" = of_Z 42
  ∧ parse_time_to_seconds "bad" = S754_zero false.
Proof.
  split; [|split; [|split; [|split; [|by vm_compute]]]].
  - intros a b c h m s Ha Hb Hc Eh Em Es. unfold parse_time_to_seconds.
    rewrite parts_of_join by (repeat constructor; done).
    simpl. by rewrite Eh, Em, Es.
  - intros a b m s Ha Hb Em Es. unfold parse_time_to_seconds.
    rewrite parts_of_join by (repeat constructor; done).
    simpl. by rewrite Em, Es.
  - intros parts x xs Hf H2 H3 E. unfold parse_time_to_seconds.
    assert (parts ≠ []) as Hne by (by intros ->).
    rewrite parts_of_join, E by done.
    apply map_float_length in E. unfold dotted in E.
    rewrite length_map in E. simpl in E.
    destruct xs as [|y [|z [|? ?]]]; simpl in *; try done; lia.
  - intros parts Hne Hf E. unfold parse_time_to_seconds.
    by rewrite parts_of_join, E.
Qed.

Lemma C8_witness :
  parse_time_to_seconds (join_colon ["01"; "02"; "03,50"]) =
  fadd (fadd (fmul (of_Z 1) (of_Z 3600)) (fmul (of_Z 2) (of_Z 60)))
    (SFdiv prec emax (of_Z 7) (of_Z 2)).
Proof.
  apply (proj1 C8_parse_time "01" "02" "03,50"); reflexivity.
Defined.

(** * Further properties of the thread *)

(** ** What the methods compute, step by step *)

(** The state after the events [es]. *)
Definition with_events (es : list event) (s : state) : state :=
  {| last_progress := last_progress s; temp_files := temp_files s;
     fs := fs s; trace := trace s ++ es |}.

(** The state after [self.temp_files.append(p)]. *)
Definition registered (p : path) (s : state) : state :=
  {| last_progress := last_progress s; temp_files := temp_files s ++ [p];
     fs := fs s; trace := trace s |}.

(** The state after the subprocess [pr], started with [c], has been read
    to its end by [trim_video] and waited for. *)
Definition trimmed (c : list arg) (pr : process) (s : state) : state :=
  {| last_progress := last_progress s; temp_files := temp_files s;
     fs := effect pr (fs s);
     trace := trace s ++
              Popen c :: map (λ l, log_signal (PyStr.strip l)) (stderr pr) |}.

(** [temp_filename] and [self.temp_file] (lines 126-127) *)
Definition temp_filename (self : job) : string :=
  ("temp_" ++ basename (input_file self))%string.

Definition temp_file (self : job) : path := Scratch (temp_filename self).

(** What the probe of [p] yields, once the binaries are there. *)
Definition probed (w : env) (p : path) : option float :=
  match ffprobe_stdout w p with
  | Some out => of_string (PyStr.strip out)
  | None => None
  end.

(** The state after ffprobe was run on [p]. *)
Definition probing (w : env) (p : path) (s : state) : state :=
  {| last_progress := last_progress s; temp_files := temp_files s;
     fs := fs s; trace := trace s ++ [subprocess_run (ffprobe_command w p)] |}.

Lemma for_emit {A} (g : A -> event) l s :
  for_ l (λ x, emit (g x)) s = (inr tt, with_events (map g l) s).
Proof.
  revert s. induction l as [|x l IH]; intros s; simpl.
  - unfold with_events. rewrite app_nil_r. by destruct s.
  - rewrite bind_eq. simpl. rewrite IH. unfold with_events. simpl.
    by rewrite <- app_assoc.
Qed.

Lemma append_temp_file_eq p s :
  append_temp_file p s = (inr tt, registered p s).
Proof. reflexivity. Qed.

Lemma emit_eq e s : emit e s = (inr tt, with_event e s).
Proof. reflexivity. Qed.

Lemma ret_bind {A B} (a : A) (k : A -> M B) s : (mret a ≫= k) s = k a s.
Proof. reflexivity. Qed.

Section Equations.

Context (w : env) (self : job).

Lemma popen_eq c pr s :
  spawn w c = Some pr -> popen w c s = (inr pr, with_event (Popen c) s).
Proof. intros E. unfold popen. rewrite bind_eq. simpl. by rewrite E. Qed.

Lemma get_file_size_eq p s c :
  fs_lookup p (fs s) = Some (File c) ->
  get_file_size p s = (inr (size_mb (Z.of_nat (String.length c))), s).
Proof.
  intros E. unfold get_file_size, getsize. rewrite !bind_eq. simpl.
  by rewrite E.
Qed.

(** The probe, once the binaries are there: ffprobe is run, and what it
    printed is converted. *)
Lemma get_video_duration_eq ff p s :
  ffmpeg_path w = Some ff ->
  get_video_duration w p s =
  (inr (probed w p), probing w p s).
Proof.
  intros E. unfold get_video_duration, get_ffmpeg_path. by rewrite E.
Qed.

(** The trim, once the binary is there, the window is complete and the
    subprocess could be started: every line of its diagnostic channel is
    logged, stripped; then its return code decides. *)
Lemma trim_video_eq out s ff a b pr :
  ffmpeg_path w = Some ff ->
  start_time self = Some a -> end_time self = Some b ->
  let c := trim_command self ff (fsub b a)
             (or_path out (Ext (output_file self))) in
  spawn w c = Some pr ->
  trim_video w self out s =
  (if returncode pr =? 0 then inr tt
   else inl (RuntimeError "Trimming failed."),
   trimmed c pr s).
Proof.
  intros Hff Ha Hb c Hpr. unfold trim_video, get_ffmpeg_path.
  cbv zeta. rewrite Hff, Ha, Hb. rewrite !ret_bind. cbv beta. fold c.
  rewrite bind_eq, (popen_eq _ _ _ Hpr), bind_eq, for_emit, bind_eq.
  unfold trimmed, with_events, with_event. simpl. rewrite <- app_assoc.
  by destruct (returncode pr =? 0).
Qed.

(** Without the binary nothing is started, whatever the job. *)
Lemma pipeline_without_binary s :
  ffmpeg_path w = None ->
  ∃ s1, pipeline w self s =
          (inl (FileNotFoundError "FFmpeg binaries not found!"), s1)
        ∧ trace s1 = trace s ∧ fs s1 = fs s.
Proof.
  intros Hff. unfold pipeline.
  destruct (has_target_size self && has_trim_window self);
    [|destruct (has_target_size self)]; rewrite bind_eq.
  - unfold compress_trim_video. cbv zeta. rewrite !bind_eq. simpl.
    unfold trim_video, get_ffmpeg_path. cbv zeta. rewrite Hff.
    rewrite !bind_eq. simpl. eauto.
  - unfold compress_video, get_ffmpeg_path. cbv zeta. rewrite Hff.
    rewrite !bind_eq. simpl. eauto.
  - unfold trim_video, get_ffmpeg_path. cbv zeta. rewrite Hff.
    rewrite !bind_eq. simpl. eauto.
Qed.

End Equations.

(** ** More sample worlds *)

Module Cases.

(** A file of [n] bytes. *)
Fixpoint clip (n : nat) : string :=
  match n with
  | O => EmptyString
  | S k => String "x" (clip k)
  end.

(** ffmpeg exiting with [code] after two diagnostic lines and writing
    [video] to the path its command ends with. *)
Definition ffmpeg (code : Z) (video : string) (c : list arg)
  : option process :=
  Some
    {| stderr :=
         ["  Duration: 00:00:30.00, start: 0.000000 ";
          "frame=  240 fps=0.0 q=28.0 size=     512kB time=00:00:10.00 bitrate= 419.4kbits/s"];
       returncode := code;
       effect :=
         match Sample.sink c with
         | Some p => fs_insert p (File video)
         | None => fs_insert (Scratch "ffmpeg2pass-0.log") (File "statistics")
         end |}.

(** A world around that ffmpeg: what ffprobe prints and whether moving a
    file fails are given. *)
Definition make (code : Z) (video : string) (probe move : option string)
  : env :=
  {| ffmpeg_path := Some "C:/app/ffmpeg/ffmpeg.exe";
     ffprobe_path := "C:/app/ffmpeg/ffprobe.exe";
     spawn := ffmpeg code video;
     ffprobe_stdout := λ _, probe;
     path_join := λ d n, (d ++ "/" ++ n)%string;
     move_error := move;
     delete_fails := λ _, false;
     elapsed := of_Z 3 |}.

(** ffmpeg writes files of 60000 bytes; the duration is 10 seconds. *)
Definition large : env :=
  make 0 (clip (Z.to_nat 60000)) (Some ("10.000000" ++ nl)%string) None.

(** The same, with a duration of minus five seconds. *)
Definition backwards : env :=
  make 0 (clip (Z.to_nat 60000)) (Some ("-5.000000" ++ nl)%string) None.

(** The same, with a duration of zero. *)
Definition instant : env :=
  make 0 (clip (Z.to_nat 60000)) (Some ("0.000000" ++ nl)%string) None.

(** The same, with no duration at all. *)
Definition unprobed : env :=
  make 0 (clip (Z.to_nat 60000)) (Some ("N/A" ++ nl)%string) None.

(** Small files, and a duration of minus five seconds. *)
Definition rewound : env :=
  make 0 "video" (Some ("-5.000000" ++ nl)%string) None.

(** Small files that cannot be moved. *)
Definition locked : env :=
  make 0 "video" (Some ("10.000000" ++ nl)%string) (Some "Access is denied").

(** The trim exits with code 1. *)
Definition broken : env :=
  make 1 "video" (Some ("10.000000" ++ nl)%string) None.

(** No binaries next to the program. *)
Definition bare : env :=
  {| ffmpeg_path := None;
     ffprobe_path := "C:/app/ffmpeg/ffprobe.exe";
     spawn := ffmpeg 0 "video";
     ffprobe_stdout := λ _, None;
     path_join := λ d n, (d ++ "/" ++ n)%string;
     move_error := None;
     delete_fails := λ _, false;
     elapsed := of_Z 3 |}.

(** ffmpeg exits with code 0 and writes nothing. *)
Definition idle : env :=
  {| ffmpeg_path := Some "C:/app/ffmpeg/ffmpeg.exe";
     ffprobe_path := "C:/app/ffmpeg/ffprobe.exe";
     spawn := λ _, Some {| stderr := []; returncode := 0; effect := id |};
     ffprobe_stdout := λ _, Some ("10.000000" ++ nl)%string;
     path_join := λ d n, (d ++ "/" ++ n)%string;
     move_error := None;
     delete_fails := λ _, false;
     elapsed := of_Z 3 |}.

(** Everything works, but the statistics of pass 1 cannot be deleted. *)
Definition sticky : env :=
  {| ffmpeg_path := Some "C:/app/ffmpeg/ffmpeg.exe";
     ffprobe_path := "C:/app/ffmpeg/ffprobe.exe";
     spawn := ffmpeg 0 "video";
     ffprobe_stdout := λ _, Some ("10.000000" ++ nl)%string;
     path_join := λ d n, (d ++ "/" ++ n)%string;
     move_error := None;
     delete_fails := λ name, String.eqb name "ffmpeg2pass-0.log";
     elapsed := of_Z 3 |}.

(** The source clip, and a directory where the output is to go. *)
Definition folder_disk : filesystem :=
  {| scratch := ∅;
     ext := {[ Sample.source := File "source clip"; Sample.target := Dir ]} |}.

(** The same, the directory holding a file of the name the trimmed file
    has. *)
Definition full_disk : filesystem :=
  {| scratch := ∅;
     ext := {[ Sample.source := File "source clip"; Sample.target := Dir;
               (Sample.target ++ "/temp_in.mp4")%string := File "old" ]} |}.

(** A job with both a trim window and a target size of 1/16 MB. *)
Definition tight_job : job :=
  {| input_file := Sample.source; output_file := Sample.target;
     target_size := Some (SFdiv prec emax (of_Z 1) (of_Z 16));
     target_bitrate := Some (of_Z 17);
     start_time := Some (of_Z 10); end_time := Some (of_Z 40) |}.

End Cases.

(** ** The outcomes of a job, event by event *)

(** Without the ffmpeg binaries next to the program every job, whatever it
    asks for, ends with the error signal and the cleanup, and nothing else
    happens: no subprocess, no log line, no percentage. *)
Theorem missing_binaries_reported w j f :
  ffmpeg_path w = None ->
  (run w j (init f)).1 = inr tt
  ∧ trace (run w j (init f)).2 =
    [error_signal "Error: FFmpeg binaries not found!"; cleanup_run].
Proof.
  intros Hff.
  destruct (pipeline_without_binary w j (init f) Hff) as (s1 & E & Ht & _).
  rewrite (run_raised _ _ _ _ _ E). simpl. by rewrite Ht.
Qed.

Lemma missing_binaries_reported_witness :
  (run Cases.bare Sample.encode_job (init Sample.disk)).1 = inr tt
  ∧ trace (run Cases.bare Sample.encode_job (init Sample.disk)).2 =
    [error_signal "Error: FFmpeg binaries not found!"; cleanup_run].
Proof.
  apply (missing_binaries_reported Cases.bare Sample.encode_job Sample.disk).
  reflexivity.
Defined.

(** A trim-only job whose subprocess exits with a non-zero code: the
    lines of the subprocess are logged, then the error signal says
    ["Error: Trimming failed."] and the cleanup runs; no percentage and no
    success signal are sent. *)
Theorem trim_failure_reported w j f ff a b pr :
  has_target_size j = false ->
  ffmpeg_path w = Some ff ->
  start_time j = Some a -> end_time j = Some b ->
  let c := trim_command j ff (fsub b a) (Ext (output_file j)) in
  spawn w c = Some pr ->
  returncode pr ≠ 0 ->
  (run w j (init f)).1 = inr tt
  ∧ trace (run w j (init f)).2 =
    Popen c :: map (λ l, log_signal (PyStr.strip l)) (stderr pr)
    ++ [error_signal "Error: Trimming failed."; cleanup_run].
Proof.
  intros Ht Hff Ha Hb c Hpr Hcode.
  assert (pipeline w j (init f) =
          (inl (RuntimeError "Trimming failed."), trimmed c pr (init f))) as E.
  { unfold pipeline. rewrite Ht. simpl. rewrite bind_eq.
    rewrite (trim_video_eq w j None _ ff a b pr Hff Ha Hb Hpr).
    apply Z.eqb_neq in Hcode. fold c. by rewrite Hcode. }
  rewrite (run_raised _ _ _ _ _ E). simpl. split; [done|].
  by rewrite <- app_assoc.
Qed.

Lemma trim_failure_reported_witness :
  ∃ c pr,
    (run Cases.broken Sample.trim_job (init Sample.disk)).1 = inr tt
    ∧ trace (run Cases.broken Sample.trim_job (init Sample.disk)).2 =
      Popen c :: map (λ l, log_signal (PyStr.strip l)) (stderr pr)
      ++ [error_signal "Error: Trimming failed."; cleanup_run].
Proof.
  eexists _, _.
  apply (trim_failure_reported Cases.broken Sample.trim_job Sample.disk
           "C:/app/ffmpeg/ffmpeg.exe" (of_Z 10) (of_Z 40));
    try reflexivity.
  simpl. lia.
Defined.

(** A trim-only job whose subprocess exits with code 0 and leaves a file
    at the output path: the lines are logged, then 100 is the one
    percentage sent, the success signal carries the output path, the
    elapsed time and the size of that file, and the cleanup runs last. *)
Theorem trim_success_reported w j f ff a b pr content :
  has_target_size j = false ->
  ffmpeg_path w = Some ff ->
  start_time j = Some a -> end_time j = Some b ->
  let c := trim_command j ff (fsub b a) (Ext (output_file j)) in
  spawn w c = Some pr ->
  returncode pr = 0 ->
  ext (effect pr f) !! output_file j = Some (File content) ->
  (run w j (init f)).1 = inr tt
  ∧ trace (run w j (init f)).2 =
    Popen c :: map (λ l, log_signal (PyStr.strip l)) (stderr pr)
    ++ [progress_signal 100;
        done_signal (output_file j) (elapsed w)
          (size_mb (Z.of_nat (String.length content)));
        cleanup_run].
Proof.
  intros Ht Hff Ha Hb c Hpr Hcode Hout.
  assert (pipeline w j (init f) =
          (inr true, with_event (progress_signal 100) (trimmed c pr (init f))))
    as E.
  { unfold pipeline. rewrite Ht. simpl. rewrite bind_eq.
    rewrite (trim_video_eq w j None _ ff a b pr Hff Ha Hb Hpr).
    fold c. by rewrite Hcode. }
  rewrite (run_returned _ _ _ _ E).
  rewrite (get_file_size_eq _ _ content) by done. simpl. split; [done|].
  by rewrite <- !app_assoc.
Qed.

Lemma trim_success_reported_witness :
  ∃ c pr,
    (run Sample.world Sample.trim_job (init Sample.disk)).1 = inr tt
    ∧ trace (run Sample.world Sample.trim_job (init Sample.disk)).2 =
      Popen c :: map (λ l, log_signal (PyStr.strip l)) (stderr pr)
      ++ [progress_signal 100;
          done_signal (output_file Sample.trim_job) (elapsed Sample.world)
            (size_mb (Z.of_nat (String.length "video")));
          cleanup_run].
Proof.
  eexists _, _.
  apply (trim_success_reported Sample.world Sample.trim_job Sample.disk
           "C:/app/ffmpeg/ffmpeg.exe" (of_Z 10) (of_Z 40));
    reflexivity.
Defined.

(** ** Trimming to a target size (lines 125-143) *)

(** The method after a trim that succeeded and left a file: the size of
    that file decides between the move and the second encode, which starts
    with a run of ffprobe on the trimmed file. *)
Lemma compress_trim_video_after_trim w j s ff a b t pr content :
  ffmpeg_path w = Some ff ->
  start_time j = Some a -> end_time j = Some b ->
  target_size j = Some t ->
  let c := trim_command j ff (fsub b a) (temp_file j) in
  spawn w c = Some pr ->
  returncode pr = 0 ->
  fs_lookup (temp_file j) (effect pr (fs s)) = Some (File content) ->
  compress_trim_video w j s =
  if fle (size_mb (Z.of_nat (String.length content))) t then
    try_except (shutil_move w (temp_filename j) (output_file j))
      (λ e, raise (RuntimeError
                     ("Failed to use trimmed video: " ++ str_exn e)%string))
      (trimmed c pr (registered (temp_file j) s))
  else
    match probed w (temp_file j) with
    | None => raise (ValueError "Failed to get duration of trimmed video.")
    | Some d =>
        r ← lift (fdiv (fmul (fmul t (of_Z 8)) (of_Z 1024)) d);
        compress_video w j (Some (temp_file j)) (Some r)
    end (probing w (temp_file j) (trimmed c pr (registered (temp_file j) s))).
Proof.
  intros Hff Ha Hb Ht c Hpr Hcode Hfile.
  unfold compress_trim_video. cbv zeta.
  fold (temp_filename j). fold (temp_file j).
  rewrite bind_eq, append_temp_file_eq, bind_eq.
  rewrite (trim_video_eq w j (Some (temp_file j)) _ ff a b pr Hff Ha Hb Hpr).
  fold c. rewrite Hcode, Z.eqb_refl.
  rewrite bind_eq, (get_file_size_eq _ _ content) by done.
  rewrite Ht, ret_bind. cbv beta.
  destruct (fle _ t); [done|].
  rewrite bind_eq, (get_video_duration_eq w ff) by done.
  destruct (probed w (temp_file j)) as [d|]; [|done].
  by rewrite ret_bind.
Qed.

(** Where [shutil.move] puts the trimmed file on the file system [f]: at
    the output path, or, when that is a directory, inside that directory
    under the name of the trimmed file. *)
Definition landing (w : env) (j : job) (f : filesystem) : string :=
  match ext f !! output_file j with
  | Some Dir => path_join w (output_file j) (temp_filename j)
  | _ => output_file j
  end.

(** The state after the entry [src] of the scratch folder, which holds
    [x], was moved to [dst]. *)
Definition moved (src dst : string) (x : node) (s : state) : state :=
  {| last_progress := last_progress s; temp_files := temp_files s;
     fs := fs_insert (Ext dst) x (fs_delete (Scratch src) (fs s));
     trace := trace s |}.

(** [shutil.move], case by case. *)
Lemma shutil_move_eq w src dst s :
  shutil_move w src dst s =
  let inside := path_join w dst src in
  let go real_dst :=
    match move_error w with
    | Some msg => (inl (OSError msg), s)
    | None =>
        match scratch (fs s) !! src with
        | Some x => (inr tt, moved src real_dst x s)
        | None => (inl (FileNotFoundError "No such file or directory"), s)
        end
    end in
  match ext (fs s) !! dst with
  | Some Dir =>
      if exists_ (ext (fs s) !! inside) then
        (inl (OSError
                ("Destination path '" ++ inside ++ "' already exists")%string),
         s)
      else go inside
  | _ => go dst
  end.
Proof.
  unfold shutil_move. rewrite bind_eq. cbn [gets]. cbv zeta.
  destruct (ext (fs s) !! dst) as [[c| |]|];
    try destruct (exists_ _); rewrite bind_eq; cbn [mret M_ret raise];
    try done;
    destruct (move_error w); try done;
    by destruct (scratch (fs s) !! src).
Qed.

(** The cheap path.  When the trimmed file is not larger than the target
    size and can be moved, the method returns after the trim alone.  The
    trimmed file lands at the output path, or, when the output path is a
    directory, inside that directory under its own name (provided nothing
    of that name exists there); where it lands lie the very bytes of the
    trimmed file, the trimmed file is gone from the scratch folder, nothing
    else on the file system changed, and the trim is the only subprocess
    that was started (no percentage is sent). *)
Theorem small_trim_is_moved w j s ff a b t pr content :
  ffmpeg_path w = Some ff ->
  start_time j = Some a -> end_time j = Some b ->
  target_size j = Some t ->
  let c := trim_command j ff (fsub b a) (temp_file j) in
  spawn w c = Some pr ->
  returncode pr = 0 ->
  let f1 := effect pr (fs s) in
  fs_lookup (temp_file j) f1 = Some (File content) ->
  fle (size_mb (Z.of_nat (String.length content))) t = true ->
  move_error w = None ->
  let dst := landing w j f1 in
  (ext f1 !! output_file j = Some Dir -> exists_ (ext f1 !! dst) = false) ->
  let r := compress_trim_video w j s in
  r.1 = inr tt
  ∧ (ext f1 !! output_file j ≠ Some Dir -> dst = output_file j)
  ∧ (ext f1 !! output_file j = Some Dir ->
     dst = path_join w (output_file j) (temp_filename j))
  ∧ fs_lookup (Ext dst) (fs r.2) = Some (File content)
  ∧ fs_lookup (temp_file j) (fs r.2) = None
  ∧ fs r.2 = fs_insert (Ext dst) (File content) (fs_delete (temp_file j) f1)
  ∧ trace r.2 =
    trace s ++ Popen c :: map (λ l, log_signal (PyStr.strip l)) (stderr pr).
Proof.
  intros Hff Ha Hb Ht c Hpr Hcode f1 Hfile Hsmall Hmove dst Hfree r. subst r.
  rewrite (compress_trim_video_after_trim w j s ff a b t pr content)
    by done.
  fold c. rewrite Hsmall. unfold try_except. rewrite shutil_move_eq.
  cbv zeta. rewrite Hmove.
  change (fs (trimmed c pr (registered (temp_file j) s))) with f1.
  unfold temp_file in Hfile. simpl in Hfile. rewrite Hfile.
  assert (∀ real_dst,
            let r := (inr tt : exn + unit,
                      moved (temp_filename j) real_dst (File content)
                        (trimmed c pr (registered (temp_file j) s))) in
            fs_lookup (Ext real_dst) (fs r.2) = Some (File content)
            ∧ fs_lookup (temp_file j) (fs r.2) = None
            ∧ fs r.2 =
              fs_insert (Ext real_dst) (File content)
                (fs_delete (temp_file j) f1)
            ∧ trace r.2 =
              trace s
              ++ Popen c :: map (λ l, log_signal (PyStr.strip l)) (stderr pr))
    as Hmoved.
  { intros real_dst. simpl.
    by rewrite lookup_insert_eq, lookup_delete_eq. }
  unfold dst, landing in *.
  destruct (ext f1 !! output_file j) as [[x| |]|] eqn:E.
  - split; [done|]. split; [done|]. split; [done|]. apply Hmoved.
  - rewrite (Hfree eq_refl).
    split; [done|]. split; [done|]. split; [done|]. apply Hmoved.
  - split; [done|]. split; [done|]. split; [done|]. apply Hmoved.
  - split; [done|]. split; [done|]. split; [done|]. apply Hmoved.
Qed.

Lemma small_trim_is_moved_witness :
  (let r := compress_trim_video Sample.world Sample.both_job
              (init Sample.disk) in
   r.1 = inr tt
   ∧ fs_lookup (Ext Sample.target) (fs r.2) = Some (File "video")
   ∧ fs_lookup (temp_file Sample.both_job) (fs r.2) = None)
  ∧ (let r := compress_trim_video Sample.world Sample.both_job
                (init Cases.folder_disk) in
     r.1 = inr tt
     ∧ fs_lookup (Ext Sample.target) (fs r.2) = Some Dir
     ∧ fs_lookup (Ext (Sample.target ++ "/temp_in.mp4")) (fs r.2) =
       Some (File "video")
     ∧ fs_lookup (temp_file Sample.both_job) (fs r.2) = None).
Proof.
  split.
  - pose proof (small_trim_is_moved Sample.world Sample.both_job
                  (init Sample.disk) "C:/app/ffmpeg/ffmpeg.exe"
                  (of_Z 10) (of_Z 40) (of_Z 8) _ "video"
                  eq_refl eq_refl eq_refl eq_refl eq_refl eq_refl eq_refl
                  eq_refl eq_refl) as H.
    cbv zeta in H.
    destruct H as (H1 & _ & _ & H2 & H3 & _); [by vm_compute|]. auto.
  - pose proof (small_trim_is_moved Sample.world Sample.both_job
                  (init Cases.folder_disk) "C:/app/ffmpeg/ffmpeg.exe"
                  (of_Z 10) (of_Z 40) (of_Z 8) _ "video"
                  eq_refl eq_refl eq_refl eq_refl eq_refl eq_refl eq_refl
                  eq_refl eq_refl) as H.
    cbv zeta in H.
    destruct H as (H1 & _ & _ & H2 & H3 & H4 & _); [by vm_compute|].
    split; [done|]. split; [by rewrite H4|]. split; [exact H2|exact H3].
Defined.

(** When the move fails, the method raises a [RuntimeError] whose message
    starts with ["Failed to use trimmed video: "] and carries the reason;
    the trimmed file is still in the scratch folder and no encode was
    started.  The move fails when the output path is a directory that
    holds something of the name of the trimmed file already, and when
    renaming or copying the file fails. *)
Theorem failed_move_is_reported w j s ff a b t pr content msg :
  ffmpeg_path w = Some ff ->
  start_time j = Some a -> end_time j = Some b ->
  target_size j = Some t ->
  let c := trim_command j ff (fsub b a) (temp_file j) in
  spawn w c = Some pr ->
  returncode pr = 0 ->
  let f1 := effect pr (fs s) in
  fs_lookup (temp_file j) f1 = Some (File content) ->
  fle (size_mb (Z.of_nat (String.length content))) t = true ->
  let dst := landing w j f1 in
  (ext f1 !! output_file j = Some Dir
   ∧ exists_ (ext f1 !! dst) = true
   ∧ msg = ("Destination path '" ++ dst ++ "' already exists")%string)
  ∨ ((ext f1 !! output_file j = Some Dir -> exists_ (ext f1 !! dst) = false)
     ∧ move_error w = Some msg) ->
  compress_trim_video w j s =
  (inl (RuntimeError ("Failed to use trimmed video: " ++ msg)%string),
   trimmed c pr (registered (temp_file j) s)).
Proof.
  intros Hff Ha Hb Ht c Hpr Hcode f1 Hfile Hsmall dst Hwhy.
  rewrite (compress_trim_video_after_trim w j s ff a b t pr content)
    by done.
  fold c. rewrite Hsmall. unfold try_except. rewrite shutil_move_eq.
  cbv zeta.
  change (fs (trimmed c pr (registered (temp_file j) s))) with f1.
  unfold dst, landing in *.
  destruct Hwhy as [(Hdir & Htaken & ->)|[Hfree Hmove]].
  - rewrite Hdir in *. by rewrite Htaken.
  - rewrite Hmove.
    destruct (ext f1 !! output_file j) as [[x| |]|]; try done.
    by rewrite (Hfree eq_refl).
Qed.

Lemma failed_move_is_reported_witness :
  (∃ s1,
     compress_trim_video Cases.locked Sample.both_job (init Sample.disk) =
     (inl (RuntimeError "Failed to use trimmed video: Access is denied"), s1))
  ∧ (∃ s1,
       compress_trim_video Sample.world Sample.both_job
         (init Cases.full_disk) =
       (inl (RuntimeError
               ("Failed to use trimmed video: Destination path '"
                ++ Sample.target ++ "/temp_in.mp4' already exists")), s1)).
Proof.
  split; eexists.
  - eapply (failed_move_is_reported Cases.locked Sample.both_job
             (init Sample.disk) "C:/app/ffmpeg/ffmpeg.exe"
             (of_Z 10) (of_Z 40) (of_Z 8) _ "video" "Access is denied");
      try reflexivity.
    right. split; [by vm_compute|reflexivity].
  - eapply (failed_move_is_reported Sample.world Sample.both_job
             (init Cases.full_disk) "C:/app/ffmpeg/ffmpeg.exe"
             (of_Z 10) (of_Z 40) (of_Z 8) _ "video");
      try reflexivity.
    left. split; [by vm_compute|]. split; [by vm_compute|reflexivity].
Defined.

(** The second encode.  When the trimmed file is larger than the target
    size, ffprobe is run on it; when it reports a duration [d] other than
    zero, the method goes on exactly as the encode of the trimmed file with
    the bitrate [target_size * 8 * 1024 / d], in floating point: the
    quotient is not clamped from either side, and a negative [d] is not
    turned down. *)
Theorem large_trim_is_reencoded w j s ff a b t pr content d :
  ffmpeg_path w = Some ff ->
  start_time j = Some a -> end_time j = Some b ->
  target_size j = Some t ->
  let c := trim_command j ff (fsub b a) (temp_file j) in
  spawn w c = Some pr ->
  returncode pr = 0 ->
  fs_lookup (temp_file j) (effect pr (fs s)) = Some (File content) ->
  fle (size_mb (Z.of_nat (String.length content))) t = false ->
  probed w (temp_file j) = Some d ->
  is_zero d = false ->
  compress_trim_video w j s =
  compress_video w j (Some (temp_file j))
    (Some (SFdiv prec emax (fmul (fmul t (of_Z 8)) (of_Z 1024)) d))
    (probing w (temp_file j) (trimmed c pr (registered (temp_file j) s))).
Proof.
  intros Hff Ha Hb Ht c Hpr Hcode Hfile Hlarge Hd Hz.
  rewrite (compress_trim_video_after_trim w j s ff a b t pr content)
    by done.
  fold c. rewrite Hlarge, Hd. unfold fdiv. rewrite Hz.
  reflexivity.
Qed.

Lemma large_trim_is_reencoded_witness :
  ∃ bitrate s1,
    float_gt_Z bitrate 0 = false
    ∧ compress_trim_video Cases.backwards Cases.tight_job (init Sample.disk) =
      compress_video Cases.backwards Cases.tight_job
        (Some (temp_file Cases.tight_job)) (Some bitrate) s1.
Proof.
  eexists _, _. split; [|
  eapply (large_trim_is_reencoded Cases.backwards Cases.tight_job
           (init Sample.disk) "C:/app/ffmpeg/ffmpeg.exe"
           (of_Z 10) (of_Z 40) (SFdiv prec emax (of_Z 1) (of_Z 16)) _
           (Cases.clip (Z.to_nat 60000)) (SFopp (of_Z 5)));
    first [reflexivity | vm_compute; reflexivity]].
  vm_compute. reflexivity.
Defined.

(** The duration the second encode needs.  When the trimmed file is
    larger than the target size, ffprobe is run on it, and the method
    raises [ValueError] if ffprobe gave nothing that [float()] accepts, and
    [ZeroDivisionError] if it gave a zero; in both cases the trim and that
    call of ffprobe are the only subprocess calls: no encode pass is
    started. *)
Theorem unusable_duration_stops_reencode w j s ff a b t pr content :
  ffmpeg_path w = Some ff ->
  start_time j = Some a -> end_time j = Some b ->
  target_size j = Some t ->
  let c := trim_command j ff (fsub b a) (temp_file j) in
  spawn w c = Some pr ->
  returncode pr = 0 ->
  fs_lookup (temp_file j) (effect pr (fs s)) = Some (File content) ->
  fle (size_mb (Z.of_nat (String.length content))) t = false ->
  match probed w (temp_file j) with
  | Some d => is_zero d = true
  | None => True
  end ->
  compress_trim_video w j s =
  (inl (match probed w (temp_file j) with
        | Some _ => ZeroDivisionError "float division by zero"
        | None => ValueError "Failed to get duration of trimmed video."
        end),
   probing w (temp_file j) (trimmed c pr (registered (temp_file j) s))).
Proof.
  intros Hff Ha Hb Ht c Hpr Hcode Hfile Hlarge Hd.
  rewrite (compress_trim_video_after_trim w j s ff a b t pr content)
    by done.
  fold c. rewrite Hlarge.
  destruct (probed w (temp_file j)) as [d|]; [|done].
  unfold fdiv. by rewrite Hd.
Qed.

Lemma unusable_duration_stops_reencode_witness :
  (∃ s1,
     compress_trim_video Cases.unprobed Cases.tight_job (init Sample.disk) =
     (inl (ValueError "Failed to get duration of trimmed video."), s1))
  ∧ (∃ s1,
       compress_trim_video Cases.instant Cases.tight_job (init Sample.disk) =
       (inl (ZeroDivisionError "float division by zero"), s1)).
Proof.
  split; eexists.
  - eapply (unusable_duration_stops_reencode Cases.unprobed Cases.tight_job
             (init Sample.disk) "C:/app/ffmpeg/ffmpeg.exe"
             (of_Z 10) (of_Z 40) (SFdiv prec emax (of_Z 1) (of_Z 16)) _
             (Cases.clip (Z.to_nat 60000)));
      first [reflexivity | vm_compute; reflexivity].
  - eapply (unusable_duration_stops_reencode Cases.instant Cases.tight_job
             (init Sample.disk) "C:/app/ffmpeg/ffmpeg.exe"
             (of_Z 10) (of_Z 40) (SFdiv prec emax (of_Z 1) (of_Z 16)) _
             (Cases.clip (Z.to_nat 60000)));
      first [reflexivity | vm_compute; reflexivity].
Defined.

(** ** One encode pass, line by line (lines 201-251) *)

(** *** Stripping *)

Lemma rstrip_idemp s : PyStr.rstrip (PyStr.rstrip s) = PyStr.rstrip s.
Proof.
  induction s as [|c r IH]; simpl; [done|].
  destruct (PyStr.is_space c && PyStr.is_empty (PyStr.rstrip r)) eqn:E;
    simpl; [done|].
  by rewrite IH, E.
Qed.

(** What [lstrip] returns is empty or starts with a character that is not
    blank. *)
Definition starts_inked (s : string) : Prop :=
  match s with
  | String c _ => PyStr.is_space c = false
  | EmptyString => True
  end.

Lemma lstrip_starts_inked s : starts_inked (PyStr.lstrip s).
Proof.
  induction s as [|c r IH]; simpl; [done|].
  by destruct (PyStr.is_space c) eqn:E.
Qed.

Lemma rstrip_starts_inked s :
  starts_inked s -> starts_inked (PyStr.rstrip s).
Proof.
  destruct s as [|c r]; [done|]. intros E.
  change (PyStr.is_space c = false) in E.
  change (PyStr.rstrip (String c r))
    with (if PyStr.is_space c && PyStr.is_empty (PyStr.rstrip r)
          then EmptyString else String c (PyStr.rstrip r)).
  by rewrite E.
Qed.

Lemma lstrip_inked s : starts_inked s -> PyStr.lstrip s = s.
Proof.
  destruct s as [|c r]; [done|]. intros E.
  change (PyStr.is_space c = false) in E.
  change (PyStr.lstrip (String c r))
    with (if PyStr.is_space c then PyStr.lstrip r else String c r).
  by rewrite E.
Qed.

(** Stripping what is stripped changes nothing. *)
Lemma strip_strip s : PyStr.strip (PyStr.strip s) = PyStr.strip s.
Proof.
  unfold PyStr.strip.
  rewrite (lstrip_inked (PyStr.rstrip _))
    by apply rstrip_starts_inked, lstrip_starts_inked.
  apply rstrip_idemp.
Qed.

(** *** What a line does *)

(** The line shown to the user for a diagnostic line (lines 218-228): a
    line in which [bitrate=] is followed by a digit is shown from there
    on, with what came before on a second row. *)
Definition processed_line (line : string) : string :=
  let current_line := PyStr.strip line in
  if PyStr.contains "bitrate=" current_line then
    match PyStr.re_split_bitrate current_line with
    | Some (a, m, b) => (m ++ b ++ nl ++ PyStr.lstrip a)%string
    | None => current_line
    end
  else current_line.

(** The file system after [log.write(text)] on the file at [p]. *)
Definition appended (p : path) (text : string) (f : filesystem)
  : filesystem :=
  fs_insert p
    (File (match fs_lookup p f with
           | Some (File c) => c ++ text
           | _ => text
           end)%string) f.

(** The events of a trace other than the percentages. *)
Definition others (t : list event) : list event :=
  filter (λ e, is_progress e = false) t.

Lemma others_app t1 t2 : others (t1 ++ t2) = others t1 ++ others t2.
Proof. apply filter_app. Qed.

(** Steps that touch neither the file system nor the list of temporary
    files, and send percentages only. *)
Definition hush : relation state :=
  same (λ s, (fs s, temp_files s, others (trace s))).

Lemma hush_emit p : steps hush (emit (progress_signal p)).
Proof.
  intros s. unfold hush, same. simpl. rewrite others_app. simpl.
  by rewrite app_nil_r.
Qed.

Lemma hush_set_last_progress p : steps hush (set_last_progress p).
Proof. by intros s. Qed.

(** The part of the loop body between the log signal and the write. *)
Lemma update_hush pass d line :
  steps hush
    (if PyStr.contains "time=" line then
       after ← item (PyStr.split "time=" line) 1;
       time_str ← item (PyStr.split_ws after) 0;
       let current_time := parse_time_to_seconds time_str in
       if float_gt_Z d 0 then
         q ← lift (fdiv current_time (fadd d (of_Z 2)));
         let progress := min_Z (fmul q (of_Z 50)) 50 in
         let progress :=
           if pass =? 2 then min_Z (fadd progress (of_Z 50)) 100
           else progress in
         p ← lift (to_int progress);
         last ← gets last_progress;
         if last <? p then
           emit (progress_signal p);;
           set_last_progress p
         else mret tt
       else mret tt
     else mret tt).
Proof.
  destruct (PyStr.contains _ _); [|rule steps_ret].
  rule steps_bind; [rule steps_item|intros after].
  rule steps_bind; [rule steps_item|intros time_str]. cbv zeta.
  destruct (float_gt_Z d 0); [|rule steps_ret].
  rule steps_lift_bind. intros q _.
  rule steps_lift_bind. intros p _.
  rule steps_gets_bind. intros s.
  destruct (last_progress s <? p); [|reflexivity].
  pose proof (steps_bind hush (emit (progress_signal p))
                (λ _, set_last_progress p)) as H.
  apply H; [apply hush_emit|intros _; apply hush_set_last_progress].
Qed.

(** A line that was read to its end: it was shown once and written to
    the log of the pass. *)
Lemma read_line_returned log pass d line s s' :
  read_line log pass d line s = (inr tt, s') ->
  others (trace s') = others (trace s) ++ [log_signal (processed_line line)]
  ∧ fs s' = appended log (PyStr.strip line ++ nl) (fs s)
  ∧ temp_files s' = temp_files s.
Proof.
  unfold read_line. cbv zeta. rewrite bind_eq, emit_eq, bind_eq.
  lazymatch goal with
  | |- (match ?m ?s0 with _ => _ end) = _ -> _ =>
      assert (hush s0 (m s0).2) as H
        by apply (update_hush pass d (PyStr.strip line) s0);
      destruct (m s0) as [[e|[]] s1]; [done|]
  end.
  unfold hush, same in H. simpl in H. injection H as Hfs Htmp Hoth.
  intros [= <-]. simpl. rewrite Hfs, Htmp, Hoth, others_app, strip_strip.
  done.
Qed.

(** The loop over the diagnostic channel, when it reached its end. *)
Lemma for_read_line_returned log pass d lines s s' :
  for_ lines (read_line log pass d) s = (inr tt, s') ->
  others (trace s') =
    others (trace s) ++ map (λ l, log_signal (processed_line l)) lines
  ∧ fs s' =
    foldl (λ f l, appended log (PyStr.strip l ++ nl) f) (fs s) lines
  ∧ temp_files s' = temp_files s.
Proof.
  revert s. induction lines as [|l lines IH]; intros s; simpl.
  - intros [= <-]. by rewrite app_nil_r.
  - rewrite bind_eq.
    destruct (read_line log pass d l s) as [[e|[]] s1] eqn:E; [done|].
    apply read_line_returned in E as (E1 & E2 & E3).
    intros (H1 & H2 & H3)%IH.
    rewrite H1, H2, H3, E1, E2, E3, <- app_assoc. done.
Qed.

(** [''.join(t + "\n" for t in texts)] *)
Definition unlines (texts : list string) : string :=
  foldr (λ t acc, t ++ nl ++ acc)%string EmptyString texts.

Lemma append_assoc (a b c : string) :
  ((a ++ b) ++ c)%string = (a ++ (b ++ c))%string.
Proof.
  induction a as [|x a IH]; [done|]. by rewrite !append_cons, IH.
Qed.

Lemma append_nil_r (a : string) : (a ++ "")%string = a.
Proof. induction a as [|x a IH]; [done|]. by rewrite append_cons, IH. Qed.

Lemma fs_insert_insert p x y f :
  fs_insert p x (fs_insert p y f) = fs_insert p x f.
Proof. destruct p; unfold fs_insert; simpl; by rewrite insert_insert_eq. Qed.

Lemma fs_lookup_insert p x f : fs_lookup p (fs_insert p x f) = Some x.
Proof. destruct p; simpl; by rewrite lookup_insert_eq. Qed.

(** Writing line after line to a file that holds [acc]. *)
Lemma appended_lines log lines acc f :
  foldl (λ g l, appended log (PyStr.strip l ++ nl) g)
    (fs_insert log (File acc) f) lines =
  fs_insert log (File (acc ++ unlines (map PyStr.strip lines))) f.
Proof.
  revert acc. induction lines as [|l lines IH]; intros acc; simpl.
  - by rewrite append_nil_r.
  - unfold appended at 2. rewrite fs_lookup_insert, fs_insert_insert, IH.
    by rewrite !append_assoc.
Qed.

Section Pass.

Context (w : env).

(** A pass that returned: its subprocess could be started; apart from
    percentages, the pass started it and showed one line per line read; the
    log of the pass holds the stripped lines; and the effects of the
    subprocess on the file system are in place. *)
Lemma run_ffmpeg_command_returned c log pass d s s' :
  run_ffmpeg_command w c log pass d s = (inr tt, s') ->
  ∃ pr,
    spawn w c = Some pr
    ∧ others (trace s') =
      others (trace s)
      ++ Popen c :: map (λ l, log_signal (processed_line l)) (stderr pr)
    ∧ fs s' =
      effect pr
        (fs_insert (Scratch log)
           (File (unlines (map PyStr.strip (stderr pr)))) (fs s))
    ∧ temp_files s' = temp_files s.
Proof.
  unfold run_ffmpeg_command. cbv zeta. rewrite bind_eq.
  assert (∀ r s1, open_w (Scratch log) s = (r, s1) -> r = inr tt ->
            s1 = {| last_progress := last_progress s;
                    temp_files := temp_files s;
                    fs := fs_insert (Scratch log) (File EmptyString) (fs s);
                    trace := trace s |}) as Hopen.
  { unfold open_w. rewrite bind_eq. simpl.
    destruct (scratch (fs s) !! log) as [[| |]|]; simpl;
      intros r s1 [= <- <-]; done. }
  destruct (open_w (Scratch log) s) as [[e|[]] s1] eqn:E1; [done|].
  specialize (Hopen _ _ eq_refl eq_refl). subst s1.
  rewrite bind_eq. unfold popen. rewrite bind_eq. simpl.
  destruct (spawn w c) as [pr|]; [|done]. simpl.
  set (s2 := Build_state _ _ _ _).
  assert (∀ (c1 c2 : M unit) s0 s3,
            steps hush c1 -> steps hush c2 ->
            (c1;; for_ (stderr pr) (read_line (Scratch log) pass d);;
             wait pr;; c2) s0 = (inr tt, s3) ->
            others (trace s3) =
              others (trace s0)
              ++ map (λ l, log_signal (processed_line l)) (stderr pr)
            ∧ fs s3 =
              effect pr
                (foldl (λ f l, appended (Scratch log) (PyStr.strip l ++ nl) f)
                   (fs s0) (stderr pr))
            ∧ temp_files s3 = temp_files s0) as Hrest.
  { intros c1 c2 s0 s3 H1 H2. rewrite bind_eq. specialize (H1 s0).
    destruct (c1 s0) as [[e|[]] s4]; [done|]. rewrite bind_eq.
    destruct (for_ _ _ s4) as [[e|[]] s5] eqn:E5; [done|].
    apply for_read_line_returned in E5 as (F1 & F2 & F3).
    rewrite bind_eq. simpl. set (s6 := Build_state _ _ _ _).
    specialize (H2 s6). destruct (c2 s6) as [[e|[]] s7]; [done|].
    intros [= <-]. unfold hush, same in H1, H2. simpl in H1, H2.
    injection H1 as G1 G2 G3. injection H2 as K1 K2 K3.
    rewrite K1, K2, K3. subst s6. simpl. rewrite F1, F2, F3, G1, G2, G3.
    done. }
  intros H. exists pr. split; [done|].
  apply Hrest in H as (H1 & H2 & H3).
  - change (fs s2)
      with (fs_insert (Scratch log) (File EmptyString) (fs s)) in H2.
    change (others (trace s2)) with (others (trace s ++ [Popen c])) in H1.
    rewrite appended_lines in H2. rewrite others_app in H1.
    rewrite H1, H2, H3, <- app_assoc. done.
  - destruct (pass =? 2); [apply hush_emit|by intros ?].
  - destruct (pass =? 1); [|by intros ?].
    pose proof (steps_bind hush (emit (progress_signal 50))
                  (λ _, set_last_progress 50)) as Hb.
    apply Hb; [apply hush_emit|intros _; apply hush_set_last_progress].
Qed.

End Pass.

(** Every encode pass that returns has started its command once, and
    shown one line for every line its subprocess printed, in order: the
    events other than percentages are the start of the subprocess followed
    by the shown lines. *)
Theorem pass_shows_every_line w c log pass d s :
  (run_ffmpeg_command w c log pass d s).1 = inr tt ->
  ∃ pr,
    spawn w c = Some pr
    ∧ others (trace (run_ffmpeg_command w c log pass d s).2) =
      others (trace s)
      ++ Popen c :: map (λ l, log_signal (processed_line l)) (stderr pr).
Proof.
  destruct (run_ffmpeg_command w c log pass d s) as [[e|[]] s'] eqn:E;
    [done|]. intros _.
  apply run_ffmpeg_command_returned in E as (pr & H1 & H2 & _). eauto.
Qed.

Lemma pass_shows_every_line_witness :
  ∃ pr,
    spawn Sample.world [Lit "ffmpeg"] = Some pr
    ∧ others (trace (run_ffmpeg_command Sample.world [Lit "ffmpeg"]
                       "pass1_log.txt" 1 (of_Z 10) (init Sample.disk)).2) =
      others (trace (init Sample.disk))
      ++ Popen [Lit "ffmpeg"]
         :: map (λ l, log_signal (processed_line l)) (stderr pr).
Proof.
  apply (pass_shows_every_line Sample.world [Lit "ffmpeg"] "pass1_log.txt" 1
           (of_Z 10) (init Sample.disk)).
  vm_compute. reflexivity.
Defined.

(** The log of a pass.  When a pass returns, the file [log_filename] of
    the scratch folder holds the lines its subprocess printed, each
    stripped and ended by a line feed, and nothing else (what the file held
    before is gone); the rest of the file system is as the subprocess left
    it. *)
Theorem pass_log_holds_the_lines w c log pass d s :
  (run_ffmpeg_command w c log pass d s).1 = inr tt ->
  ∃ pr,
    spawn w c = Some pr
    ∧ fs (run_ffmpeg_command w c log pass d s).2 =
      effect pr
        (fs_insert (Scratch log)
           (File (unlines (map PyStr.strip (stderr pr)))) (fs s)).
Proof.
  destruct (run_ffmpeg_command w c log pass d s) as [[e|[]] s'] eqn:E;
    [done|]. intros _.
  apply run_ffmpeg_command_returned in E as (pr & H1 & _ & H2 & _). eauto.
Qed.

Lemma pass_log_holds_the_lines_witness :
  ∃ pr,
    spawn Sample.world [Lit "ffmpeg"] = Some pr
    ∧ fs (run_ffmpeg_command Sample.world [Lit "ffmpeg"]
            "pass1_log.txt" 1 (of_Z 10) (init Sample.disk)).2 =
      effect pr
        (fs_insert (Scratch "pass1_log.txt")
           (File (unlines (map PyStr.strip (stderr pr))))
           (fs (init Sample.disk))).
Proof.
  apply (pass_log_holds_the_lines Sample.world [Lit "ffmpeg"]
           "pass1_log.txt" 1 (of_Z 10) (init Sample.disk)).
  vm_compute. reflexivity.
Defined.

(** ** The events of a two-pass encode, in order *)

(** The percentage a stripped line stands for in pass [pass_number] over
    a clip of [duration] seconds (lines 232-239), when it stands for one:
    the line holds [time=] followed by a word, the duration is above zero,
    and the division and the truncation do not raise. *)
Definition line_percent (pass_number : Z) (duration : float) (line : string)
  : option Z :=
  if PyStr.contains "time=" line then
    match PyStr.split "time=" line !! 1%nat with
    | Some after =>
        match PyStr.split_ws after !! 0%nat with
        | Some time_str =>
            let current_time := parse_time_to_seconds time_str in
            if float_gt_Z duration 0 then
              match fdiv current_time (fadd duration (of_Z 2)) with
              | inr q =>
                  let progress := min_Z (fmul q (of_Z 50)) 50 in
                  let progress :=
                    if pass_number =? 2 then
                      min_Z (fadd progress (of_Z 50)) 100
                    else progress in
                  match to_int progress with
                  | inr p => Some p
                  | inl _ => None
                  end
              | inl _ => None
              end
            else None
        | None => None
        end
    | None => None
    end
  else None.

(** The percentage the line [line] makes the reader send when [last] is
    the last one recorded (lines 241-243): the one it stands for, if that
    is above [last]. *)
Definition moves (pass_number : Z) (duration : float) (last : Z)
    (line : string) : option Z :=
  match line_percent pass_number duration (PyStr.strip line) with
  | Some p => if last <? p then Some p else None
  | None => None
  end.

(** What the reader sends for the lines of a subprocess, one after the
    other: for every line the line as it is shown, followed by the
    percentage the line moves the bar to, if it moves it. *)
Fixpoint reading (pass_number : Z) (duration : float) (last : Z)
    (lines : list string) : list event :=
  match lines with
  | [] => []
  | line :: rest =>
      log_signal (processed_line line)
      :: match moves pass_number duration last line with
         | Some p => progress_signal p :: reading pass_number duration p rest
         | None => reading pass_number duration last rest
         end
  end.

(** The last percentage recorded after these lines. *)
Fixpoint recorded (pass_number : Z) (duration : float) (last : Z)
    (lines : list string) : Z :=
  match lines with
  | [] => last
  | line :: rest =>
      match moves pass_number duration last line with
      | Some p => recorded pass_number duration p rest
      | None => recorded pass_number duration last rest
      end
  end.

(** A line moves the bar upwards only, and not beyond the cap of the
    pass. *)
Lemma moves_bounds pass d last line p :
  moves pass d last line = Some p -> last < p <= cap pass.
Proof.
  unfold moves, line_percent.
  destruct (PyStr.contains _ _); [|done].
  destruct (_ !! 1%nat) as [after|]; [|done].
  destruct (_ !! 0%nat) as [time_str|]; [|done]. cbv zeta.
  destruct (float_gt_Z d 0); [|done].
  destruct (fdiv _ _) as [e|q]; [done|].
  lazymatch goal with
  | |- context [to_int ?x] => destruct (to_int x) as [e|p'] eqn:Hp
  end; [done|].
  destruct (last <? p') eqn:E; [|done]. intros [= <-].
  apply Z.ltb_lt in E. split; [done|]. unfold cap.
  destruct (pass =? 2); eapply to_int_min_Z; eauto.
Qed.

(** The percentages among the events of a reading lie above the one
    recorded before it and within the cap of the pass. *)
Lemma reading_bounds pass d last lines :
  Forall (λ p, last < p <= cap pass) (progress_of (reading pass d last lines)).
Proof.
  revert last. induction lines as [|line lines IH]; intros last; [constructor|].
  cbn [reading].
  change (progress_of (log_signal ?l :: ?t)) with (progress_of t).
  destruct (moves pass d last line) as [p|] eqn:E; [|apply IH].
  apply moves_bounds in E.
  change (progress_of (progress_signal p :: ?t)) with (p :: progress_of t).
  constructor; [done|].
  eapply Forall_impl; [apply IH|]. simpl. intros. lia.
Qed.

(** The state after the percentage [p] was sent and recorded. *)
Definition bumped (p : Z) (s : state) : state :=
  {| last_progress := p; temp_files := temp_files s; fs := fs s;
     trace := trace s ++ [progress_signal p] |}.

(** A line that was read to its end: it was shown, and after that the
    percentage it moves the bar to was sent and recorded, if it moves
    it. *)
Lemma read_line_trace log pass d line s s' :
  read_line log pass d line s = (inr tt, s') ->
  trace s' = trace s ++ reading pass d (last_progress s) [line]
  ∧ last_progress s' = recorded pass d (last_progress s) [line].
Proof.
  unfold read_line. cbv zeta. rewrite bind_eq, emit_eq, bind_eq.
  lazymatch goal with
  | |- (match ?m ?s0 with _ => _ end) = _ -> _ =>
      assert (∀ s1, m s0 = (inr tt, s1) ->
                s1 = match moves pass d (last_progress s0) line with
                     | Some p => bumped p s0
                     | None => s0
                     end) as H;
      [|destruct (m s0) as [[e|[]] s1]; [done|];
        specialize (H s1 eq_refl); subst s1]
  end.
  { intros s1. unfold moves, line_percent.
    destruct (PyStr.contains _ _); [|by intros [= <-]].
    rewrite bind_eq. unfold item at 1.
    destruct (_ !! 1%nat) as [after|]; [|done]. cbn [mret M_ret].
    rewrite bind_eq. unfold item at 1.
    destruct (_ !! 0%nat) as [time_str|]; [|done]. cbn [mret M_ret].
    cbv zeta. destruct (float_gt_Z d 0); [|by intros [= <-]].
    rewrite bind_eq. unfold lift at 1.
    destruct (fdiv _ _) as [e|q]; [done|].
    rewrite bind_eq. unfold lift at 1.
    lazymatch goal with
    | |- context [to_int ?x] => destruct (to_int x) as [e|p] eqn:Hp
    end; [done|].
    rewrite bind_eq. cbn [gets last_progress with_event].
    destruct (last_progress s <? p); by intros [= <-]. }
  intros [= <-]. cbn [reading recorded].
  change (last_progress (with_event _ s)) with (last_progress s).
  destruct (moves pass d (last_progress s) line) as [p|]; cbn; [|done].
  by rewrite <- app_assoc.
Qed.

Lemma reading_cons pass d last line rest :
  reading pass d last (line :: rest) =
  reading pass d last [line]
  ++ reading pass d (recorded pass d last [line]) rest.
Proof. cbn. by destruct (moves pass d last line). Qed.

Lemma recorded_cons pass d last line rest :
  recorded pass d last (line :: rest) =
  recorded pass d (recorded pass d last [line]) rest.
Proof. cbn. by destruct (moves pass d last line). Qed.

(** The loop over the lines, when it reached its end. *)
Lemma for_read_line_trace log pass d lines s s' :
  for_ lines (read_line log pass d) s = (inr tt, s') ->
  trace s' = trace s ++ reading pass d (last_progress s) lines
  ∧ last_progress s' = recorded pass d (last_progress s) lines.
Proof.
  revert s. induction lines as [|l lines IH]; intros s.
  - intros [= <-]. by rewrite app_nil_r.
  - change (for_ (l :: lines) ?body)
      with (body l;; for_ lines body).
    rewrite bind_eq.
    destruct (read_line log pass d l s) as [[e|[]] s1] eqn:E; [done|].
    apply read_line_trace in E as [T1 L1].
    intros [T2 L2]%IH.
    rewrite (reading_cons _ _ _ l lines), (recorded_cons _ _ _ l lines).
    by rewrite T2, L2, T1, L1, <- app_assoc.
Qed.

(** What opening the log of a pass leaves as it was. *)
Lemma open_w_returned p s s' :
  open_w p s = (inr tt, s') ->
  trace s' = trace s ∧ last_progress s' = last_progress s.
Proof.
  unfold open_w. rewrite bind_eq. cbn [gets].
  destruct (fs_lookup p (fs s)) as [[c| |]|]; try done; by intros [= <-].
Qed.

Section Order.

Context (w : env).

(** Pass 1 from its start to its end: the subprocess is started, its
    lines are read, and 50 is sent and recorded last. *)
Lemma run_ffmpeg_command_pass1_trace c log d s s' :
  run_ffmpeg_command w c log 1 d s = (inr tt, s') ->
  ∃ pr,
    spawn w c = Some pr
    ∧ trace s' =
      trace s
      ++ Popen c :: reading 1 d (last_progress s) (stderr pr)
      ++ [progress_signal 50]
    ∧ last_progress s' = 50.
Proof.
  unfold run_ffmpeg_command. cbv zeta. rewrite bind_eq.
  destruct (open_w (Scratch log) s) as [[e|[]] s1] eqn:E1; [done|].
  apply open_w_returned in E1 as [T1 L1].
  rewrite bind_eq.
  destruct (spawn w c) as [pr|] eqn:Hs;
    [|unfold popen; by rewrite bind_eq, emit_eq, Hs].
  rewrite (popen_eq _ _ _ _ Hs).
  change (1 =? 2) with false. change (1 =? 1) with true. cbv iota.
  rewrite ret_bind, bind_eq.
  destruct (for_ _ _ _) as [[e|[]] s2] eqn:E2; [done|].
  apply for_read_line_trace in E2 as [T2 _].
  intros [= <-]. exists pr. cbn [trace last_progress with_event] in *.
  split; [done|]. split; [|done].
  rewrite T2, T1, L1, <- !app_assoc. done.
Qed.

(** Pass 2: the subprocess is started, 50 is sent, and its lines are
    read; nothing is sent after the last of them. *)
Lemma run_ffmpeg_command_pass2_trace c log d s s' :
  run_ffmpeg_command w c log 2 d s = (inr tt, s') ->
  ∃ pr,
    spawn w c = Some pr
    ∧ trace s' =
      trace s
      ++ Popen c :: progress_signal 50
      :: reading 2 d (last_progress s) (stderr pr).
Proof.
  unfold run_ffmpeg_command. cbv zeta. rewrite bind_eq.
  destruct (open_w (Scratch log) s) as [[e|[]] s1] eqn:E1; [done|].
  apply open_w_returned in E1 as [T1 L1].
  rewrite bind_eq.
  destruct (spawn w c) as [pr|] eqn:Hs;
    [|unfold popen; by rewrite bind_eq, emit_eq, Hs].
  rewrite (popen_eq _ _ _ _ Hs).
  change (2 =? 2) with true. change (2 =? 1) with false. cbv iota.
  rewrite bind_eq, emit_eq, bind_eq.
  destruct (for_ _ _ _) as [[e|[]] s2] eqn:E2; [done|].
  apply for_read_line_trace in E2 as [T2 _].
  intros [= <-]. exists pr. cbn [trace last_progress with_event] in *.
  split; [done|].
  rewrite T2, T1, L1, <- !app_assoc. done.
Qed.

End Order.

(** C3, as amended.  When both passes of an encode run to their ends, its
    events are exactly these, in this order: the run of ffprobe; the start
    of the subprocess of pass 1; for every line that subprocess prints, the
    line shown and the percentage the line moves the bar to, if any, none
    above 50; when the last line has been read and the subprocess has
    exited, 50, whatever was sent before; the start of the subprocess of
    pass 2, and 50 again; for every line that subprocess prints, the line
    shown and the percentage the line moves the bar to, if any, above 50
    and not above 100.  Every percentage of pass 2 past the 50 is the one
    of a line: nothing is sent when pass 2 ends. *)
Theorem C3_two_pass_progress w j input b s s' :
  compress_video w j input b s = (inr tt, s') ->
  let input' := or_path input (Ext (input_file j)) in
  let bitrate := or_float b (target_bitrate j) in
  ∃ ff d pr1 pr2,
    ffmpeg_path w = Some ff
    ∧ probed w input' = Some d
    ∧ spawn w (command_pass1 ff input' bitrate) = Some pr1
    ∧ spawn w (command_pass2 j ff input' bitrate) = Some pr2
    ∧ let t1 := reading 1 d (last_progress s) (stderr pr1) in
      let t2 := reading 2 d 50 (stderr pr2) in
      trace s' =
      trace s
      ++ subprocess_run (ffprobe_command w input')
      :: Popen (command_pass1 ff input' bitrate)
      :: t1
      ++ progress_signal 50
      :: Popen (command_pass2 j ff input' bitrate)
      :: progress_signal 50
      :: t2
      ∧ progress_of (trace s') =
        progress_of (trace s) ++ progress_of t1 ++ 50 :: 50 :: progress_of t2
      ∧ Forall (λ p, p <= 50) (progress_of t1)
      ∧ Forall (λ p, 50 < p <= 100) (progress_of t2).
Proof.
  intros E input' bitrate. revert E.
  unfold compress_video. cbv zeta. fold input' bitrate.
  unfold get_ffmpeg_path at 1.
  destruct (ffmpeg_path w) as [ff|] eqn:Hff; [|done].
  rewrite ret_bind, bind_eq, (get_video_duration_eq w ff) by done.
  destruct (probed w input') as [d|] eqn:Hd; [|done].
  rewrite bind_eq.
  destruct (run_ffmpeg_command w _ "pass1_log.txt" 1 d _) as [[e|[]] s1] eqn:E1;
    [done|].
  intros E2.
  apply run_ffmpeg_command_pass1_trace in E1 as (pr1 & S1 & T1 & L1).
  apply run_ffmpeg_command_pass2_trace in E2 as (pr2 & S2 & T2).
  rewrite L1 in T2. unfold probing in T1. cbn [trace last_progress] in T1.
  set (t1 := reading 1 d (last_progress s) (stderr pr1)) in *.
  set (t2 := reading 2 d 50 (stderr pr2)) in *.
  assert (trace s' =
          trace s
          ++ subprocess_run (ffprobe_command w input')
          :: Popen (command_pass1 ff input' bitrate)
          :: t1
          ++ progress_signal 50
          :: Popen (command_pass2 j ff input' bitrate)
          :: progress_signal 50
          :: t2) as T.
  { rewrite T2, T1, <- !app_assoc. simpl. by rewrite <- app_assoc. }
  exists ff, d, pr1, pr2.
  split; [done|]. split; [done|]. split; [done|]. split; [done|].
  split; [done|]. split; [|split].
  - rewrite T, progress_of_app. simpl. by rewrite progress_of_app.
  - eapply Forall_impl; [apply (reading_bounds 1)|].
    intros p Hp. change (cap 1) with 50 in Hp. simpl in Hp. lia.
  - apply (reading_bounds 2).
Qed.

Lemma C3_witness :
  ∃ ff d pr1 pr2,
    ffmpeg_path Sample.world = Some ff
    ∧ probed Sample.world (Ext Sample.source) = Some d
    ∧ spawn Sample.world
        (command_pass1 ff (Ext Sample.source) (Some (of_Z 6553))) = Some pr1
    ∧ spawn Sample.world
        (command_pass2 Sample.encode_job ff (Ext Sample.source)
           (Some (of_Z 6553))) = Some pr2
    ∧ let t1 := reading 1 d 0 (stderr pr1) in
      let t2 := reading 2 d 50 (stderr pr2) in
      trace (compress_video Sample.world Sample.encode_job None None
               (init Sample.disk)).2 =
      trace (init Sample.disk)
      ++ subprocess_run (ffprobe_command Sample.world (Ext Sample.source))
      :: Popen (command_pass1 ff (Ext Sample.source) (Some (of_Z 6553)))
      :: t1
      ++ progress_signal 50
      :: Popen (command_pass2 Sample.encode_job ff (Ext Sample.source)
                  (Some (of_Z 6553)))
      :: progress_signal 50
      :: t2
      ∧ progress_of
          (trace (compress_video Sample.world Sample.encode_job None None
                    (init Sample.disk)).2) =
        progress_of (trace (init Sample.disk))
        ++ progress_of t1 ++ 50 :: 50 :: progress_of t2
      ∧ Forall (λ p, p <= 50) (progress_of t1)
      ∧ Forall (λ p, 50 < p <= 100) (progress_of t2).
Proof.
  apply (C3_two_pass_progress Sample.world Sample.encode_job None None
           (init Sample.disk)).
  vm_compute. reflexivity.
Defined.

(** ** An encode as a whole (lines 178-199) *)

(** The subprocess calls of a trace, in order: the commands given to
    [subprocess.run] and to [subprocess.Popen]. *)
Definition started (t : list event) : list (list arg) :=
  omap (λ e, match e with
             | Popen c | subprocess_run c => Some c
             | _ => None
             end) t.

Lemma started_app t1 t2 : started (t1 ++ t2) = started t1 ++ started t2.
Proof. apply omap_app. Qed.

Lemma started_others t : started (others t) = started t.
Proof.
  induction t as [|e t IH]; [done|].
  unfold others in *. rewrite filter_cons.
  destruct e; simpl; by rewrite ?IH.
Qed.

Lemma started_logs {A} (g : A -> string) l :
  started (map (λ x, log_signal (g x)) l) = [].
Proof. by induction l. Qed.

(** An encode that returned: ffprobe was run on the input, both
    subprocesses could be started, and the events other than percentages
    are the run of ffprobe, then those of pass 1, then those of pass 2. *)
Lemma compress_video_returned w j input b s s' :
  compress_video w j input b s = (inr tt, s') ->
  let input' := or_path input (Ext (input_file j)) in
  let bitrate := or_float b (target_bitrate j) in
  ∃ ff d pr1 pr2,
    ffmpeg_path w = Some ff
    ∧ probed w input' = Some d
    ∧ spawn w (command_pass1 ff input' bitrate) = Some pr1
    ∧ spawn w (command_pass2 j ff input' bitrate) = Some pr2
    ∧ others (trace s') =
      others (trace s)
      ++ subprocess_run (ffprobe_command w input')
      :: (Popen (command_pass1 ff input' bitrate)
          :: map (λ l, log_signal (processed_line l)) (stderr pr1))
      ++ Popen (command_pass2 j ff input' bitrate)
         :: map (λ l, log_signal (processed_line l)) (stderr pr2).
Proof.
  intros E input' bitrate. revert E.
  unfold compress_video. cbv zeta. fold input' bitrate.
  unfold get_ffmpeg_path at 1.
  destruct (ffmpeg_path w) as [ff|] eqn:Hff; [|done].
  rewrite ret_bind, bind_eq, (get_video_duration_eq w ff) by done.
  destruct (probed w input') as [d|] eqn:Hd; [|done].
  rewrite bind_eq.
  destruct (run_ffmpeg_command w _ "pass1_log.txt" 1 d _) as [[e|[]] s1] eqn:E1;
    [done|].
  intros E2.
  apply run_ffmpeg_command_returned in E1 as (pr1 & S1 & O1 & _).
  apply run_ffmpeg_command_returned in E2 as (pr2 & S2 & O2 & _).
  exists ff, d, pr1, pr2. rewrite O2, O1. unfold probing. cbn [trace].
  rewrite others_app, <- !app_assoc. done.
Qed.

(** An encode that returns has made exactly three subprocess calls:
    ffprobe on the input it was given (the job's input when none was
    given), then pass 1 and then pass 2 of ffmpeg, both reading that input
    at the bitrate it was given (the job's bitrate when none was given, or
    when the one given is zero), pass 2 writing to the job's output
    path. *)
Theorem encode_runs_both_passes w j input b s :
  (compress_video w j input b s).1 = inr tt ->
  let input' := or_path input (Ext (input_file j)) in
  let bitrate := or_float b (target_bitrate j) in
  ∃ ff,
    ffmpeg_path w = Some ff
    ∧ started (trace (compress_video w j input b s).2) =
      started (trace s)
      ++ [ffprobe_command w input';
          command_pass1 ff input' bitrate;
          command_pass2 j ff input' bitrate].
Proof.
  destruct (compress_video w j input b s) as [[e|[]] s'] eqn:E; [done|].
  intros _ input' bitrate. cbn [snd].
  apply compress_video_returned in E
    as (ff & d & pr1 & pr2 & Hff & _ & _ & _ & H).
  exists ff. split; [done|].
  rewrite <- (started_others (trace s')), H.
  rewrite started_app, started_others.
  change (started (subprocess_run ?c :: ?t)) with (c :: started t).
  rewrite started_app.
  change (started (Popen ?c :: ?t)) with (c :: started t).
  by rewrite !started_logs.
Qed.

Lemma encode_runs_both_passes_witness :
  ∃ ff,
    ffmpeg_path Sample.world = Some ff
    ∧ started
        (trace (compress_video Sample.world Sample.encode_job None None
                  (init Sample.disk)).2) =
      started (trace (init Sample.disk))
      ++ [ffprobe_command Sample.world (Ext Sample.source);
          command_pass1 ff (Ext Sample.source)
            (Some (of_Z 6553));
          command_pass2 Sample.encode_job ff (Ext Sample.source)
            (Some (of_Z 6553))].
Proof.
  apply (encode_runs_both_passes Sample.world Sample.encode_job None None
           (init Sample.disk)).
  vm_compute. reflexivity.
Defined.

(** The second encode of a trimmed file that was too large.  When the
    method returns, five subprocess calls were made, in this order: the
    trim; ffprobe on the trimmed file, for the bitrate; ffprobe on the
    trimmed file again, for the encode; pass 1 and pass 2, the passes
    reading the trimmed file at the bitrate recomputed from its duration
    (the job's own bitrate if the quotient is zero), pass 2 writing to the
    job's output path. *)
Theorem reencode_runs_on_trimmed_file w j s ff a b t pr content d :
  ffmpeg_path w = Some ff ->
  start_time j = Some a -> end_time j = Some b ->
  target_size j = Some t ->
  let c := trim_command j ff (fsub b a) (temp_file j) in
  spawn w c = Some pr ->
  returncode pr = 0 ->
  fs_lookup (temp_file j) (effect pr (fs s)) = Some (File content) ->
  fle (size_mb (Z.of_nat (String.length content))) t = false ->
  probed w (temp_file j) = Some d ->
  is_zero d = false ->
  (compress_trim_video w j s).1 = inr tt ->
  let bitrate :=
    or_float (Some (SFdiv prec emax (fmul (fmul t (of_Z 8)) (of_Z 1024)) d))
      (target_bitrate j) in
  started (trace (compress_trim_video w j s).2) =
  started (trace s)
  ++ [c;
      ffprobe_command w (temp_file j);
      ffprobe_command w (temp_file j);
      command_pass1 ff (temp_file j) bitrate;
      command_pass2 j ff (temp_file j) bitrate].
Proof.
  intros Hff Ha Hb Ht c Hpr Hcode Hfile Hlarge Hd Hz.
  rewrite (compress_trim_video_after_trim w j s ff a b t pr content)
    by done.
  fold c. rewrite Hlarge, Hd. unfold fdiv. rewrite Hz.
  change ((_ ← lift (inr ?x); _) ?s1)
    with (compress_video w j (Some (temp_file j)) (Some x) s1).
  destruct (compress_video w j _ _ _) as [[e|[]] s'] eqn:E; [done|].
  intros _. cbn [snd].
  apply compress_video_returned in E
    as (ff' & d' & pr1 & pr2 & Hff' & _ & _ & _ & H).
  assert (ff' = ff) as -> by congruence.
  rewrite <- (started_others (trace s')), H.
  rewrite started_app, started_others.
  change (started (subprocess_run ?c :: ?t)) with (c :: started t).
  rewrite started_app.
  change (started (Popen ?c :: ?t)) with (c :: started t).
  rewrite !started_logs.
  unfold probing, trimmed. cbn [trace].
  rewrite !started_app.
  change (started (Popen ?c :: ?t)) with (c :: started t).
  rewrite started_logs. simpl. rewrite <- !app_assoc. done.
Qed.

Lemma reencode_runs_on_trimmed_file_witness :
  ∃ c bitrate,
    started
      (trace (compress_trim_video Cases.large Cases.tight_job
                (init Sample.disk)).2) =
    started (trace (init Sample.disk))
    ++ [c;
        ffprobe_command Cases.large (temp_file Cases.tight_job);
        ffprobe_command Cases.large (temp_file Cases.tight_job);
        command_pass1 "C:/app/ffmpeg/ffmpeg.exe"
          (temp_file Cases.tight_job) bitrate;
        command_pass2 Cases.tight_job "C:/app/ffmpeg/ffmpeg.exe"
          (temp_file Cases.tight_job) bitrate].
Proof.
  eexists _, _.
  eapply (reencode_runs_on_trimmed_file Cases.large Cases.tight_job
            (init Sample.disk) "C:/app/ffmpeg/ffmpeg.exe"
            (of_Z 10) (of_Z 40) (SFdiv prec emax (of_Z 1) (of_Z 16)) _
            (Cases.clip (Z.to_nat 60000)) (of_Z 10));
    first [reflexivity | vm_compute; reflexivity].
Defined.

(** ** A duration that is not positive *)

(** The percentages sent between two states. *)
Definition sent (l : list Z) : relation state := λ s s',
  progress_of (trace s') = progress_of (trace s) ++ l.

Lemma silent_sent l : chains silent (sent l) (sent l).
Proof.
  intros s1 s2 s3 [E _]%silent_view H. unfold sent in *. by rewrite H, E.
Qed.

Section Flat.

Context (w : env) (d : float).
Hypothesis Hd : float_gt_Z d 0 = false.

(** No line makes the bar move. *)
Lemma read_line_silent log pass line :
  steps silent (read_line log pass d line).
Proof.
  unfold read_line. cbv zeta.
  rule steps_bind; [by apply tol_emit|intros _].
  rule steps_bind; [|intros _; apply tol_fs].
  destruct (PyStr.contains _ _); [|rule steps_ret].
  rule steps_bind; [rule steps_item|intros after].
  rule steps_bind; [rule steps_item|intros time_str].
  rewrite Hd. rule steps_ret.
Qed.

Lemma run_ffmpeg_command_flat c log pass :
  pass = 1 ∨ pass = 2 ->
  outcome (λ _ _, True) (sent [50]) (run_ffmpeg_command w c log pass d).
Proof.
  intros Hpass. unfold run_ffmpeg_command. cbv zeta.
  pose proof (silent_sent [50]) as Hch.
  assert (chains silent (λ _ _ : state, True) (λ _ _, True)) as Htt by done.
  eapply (outcome_after silent); [rule open_w_steps| |done..]. intros _.
  eapply (outcome_after silent); [by rule popen_steps| |done..]. intros pr.
  destruct Hpass as [-> | ->]; simpl (_ =? _).
  - eapply (outcome_after silent); [rule steps_ret| |done..]. intros _.
    eapply (outcome_after silent);
      [rule steps_for; intros; apply read_line_silent| |done..]. intros _.
    eapply (outcome_after silent); [rule wait_steps| |done..]. intros _.
    intros s. unfold sent. simpl. by rewrite progress_of_app.
  - intros s. rewrite bind_eq, emit_eq.
    assert (steps silent
              (for_ (stderr pr) (read_line (Scratch log) 2 d);;
               wait pr;; mret tt)) as Hrest.
    { rule steps_bind; [rule steps_for; intros; apply read_line_silent|].
      intros _. rule steps_bind; [rule wait_steps|intros _; rule steps_ret]. }
    specialize (Hrest (with_event (progress_signal 50) s)).
    destruct ((for_ _ _;; _) (with_event _ s)) as [[e|[]] s2]; [done|].
    cbn [snd] in Hrest. apply silent_view in Hrest as [E _]. unfold sent. rewrite E. simpl.
    by rewrite progress_of_app.
Qed.

End Flat.

(** When ffprobe reports a duration that is not greater than zero (zero,
    negative, or not a number), an encode that returns has sent two
    percentages only: 50 when pass 1 ended and 50 when pass 2 started; no
    line of either pass moved the bar. *)
Theorem no_percentage_without_positive_duration w j input b s d :
  probed w (or_path input (Ext (input_file j))) = Some d ->
  float_gt_Z d 0 = false ->
  (compress_video w j input b s).1 = inr tt ->
  progress_of (trace (compress_video w j input b s).2) =
  progress_of (trace s) ++ [50; 50].
Proof.
  intros Hd Hneg.
  destruct (compress_video w j input b s) as [[e|[]] s'] eqn:E; [done|].
  intros _. cbn [snd]. revert E. unfold compress_video. cbv zeta.
  unfold get_ffmpeg_path at 1.
  destruct (ffmpeg_path w) as [ff|] eqn:Hff; [|done].
  rewrite ret_bind, bind_eq, (get_video_duration_eq w ff) by done.
  rewrite Hd, bind_eq.
  set (s0 := probing w (or_path input (Ext (input_file j))) s).
  assert (progress_of (trace s0) = progress_of (trace s)) as Hs0.
  { unfold s0, probing. cbn [trace]. rewrite progress_of_app.
    apply app_nil_r. }
  rewrite <- Hs0.
  pose proof (run_ffmpeg_command_flat w d Hneg
                (command_pass1 ff (or_path input (Ext (input_file j)))
                   (or_float b (target_bitrate j)))
                "pass1_log.txt" 1 (or_introl eq_refl) s0) as H1.
  destruct (run_ffmpeg_command w _ "pass1_log.txt" 1 d s0) as [[e|[]] s1];
    [done|].
  pose proof (run_ffmpeg_command_flat w d Hneg
                (command_pass2 j ff (or_path input (Ext (input_file j)))
                   (or_float b (target_bitrate j)))
                "pass2_log.txt" 2 (or_intror eq_refl) s1) as H2.
  intros E2. rewrite E2 in H2. cbv beta iota in H1, H2. unfold sent in *.
  by rewrite H2, H1, <- app_assoc.
Qed.

Lemma no_percentage_without_positive_duration_witness :
  progress_of
    (trace (compress_video Cases.rewound Sample.encode_job None None
              (init Sample.disk)).2) =
  progress_of (trace (init Sample.disk)) ++ [50; 50].
Proof.
  apply (no_percentage_without_positive_duration Cases.rewound
           Sample.encode_job None None (init Sample.disk) (SFopp (of_Z 5)));
    vm_compute; reflexivity.
Defined.

(** An encode job (a target size, no complete trim window) for whose
    input ffprobe yields nothing that [float()] accepts: the call that
    runs ffprobe on the input is made, then the job ends with the error
    signal ["Error: Failed to get video duration."] and the cleanup; that
    call is the only subprocess call, ffmpeg is not started. *)
Theorem encode_needs_a_duration w j f ff :
  has_target_size j = true ->
  has_trim_window j = false ->
  ffmpeg_path w = Some ff ->
  probed w (Ext (input_file j)) = None ->
  (run w j (init f)).1 = inr tt
  ∧ trace (run w j (init f)).2 =
    [subprocess_run (ffprobe_command w (Ext (input_file j)));
     error_signal "Error: Failed to get video duration.";
     cleanup_run].
Proof.
  intros Ht Hw Hff Hd.
  assert (pipeline w j (init f) =
          (inl (ValueError "Failed to get video duration."),
           probing w (Ext (input_file j)) (init f))) as E.
  { unfold pipeline. rewrite Ht, Hw. simpl. rewrite bind_eq.
    unfold compress_video. cbv zeta. unfold get_ffmpeg_path at 1.
    rewrite Hff, ret_bind, bind_eq, (get_video_duration_eq w ff) by done.
    simpl (or_path _ _). by rewrite Hd. }
  by rewrite (run_raised _ _ _ _ _ E).
Qed.

Lemma encode_needs_a_duration_witness :
  (run Cases.unprobed Sample.encode_job (init Sample.disk)).1 = inr tt
  ∧ trace (run Cases.unprobed Sample.encode_job (init Sample.disk)).2 =
    [subprocess_run
       (ffprobe_command Cases.unprobed (Ext (input_file Sample.encode_job)));
     error_signal "Error: Failed to get video duration.";
     cleanup_run].
Proof.
  apply (encode_needs_a_duration Cases.unprobed Sample.encode_job Sample.disk
           "C:/app/ffmpeg/ffmpeg.exe"); reflexivity.
Defined.

(** ** How a job ends (lines 96-123) *)

Lemma get_file_size_state p s r s' : get_file_size p s = (r, s') -> s' = s.
Proof.
  unfold get_file_size, getsize. rewrite !bind_eq. simpl.
  destruct (fs_lookup p (fs s)) as [[c| |]|]; by intros [= _ <-].
Qed.

Lemma get_file_size_raised p s e s' :
  get_file_size p s = (inl e, s') ->
  fs_lookup p (fs s) = None ∨ fs_lookup p (fs s) = Some Other.
Proof.
  unfold get_file_size, getsize. rewrite !bind_eq. simpl.
  destruct (fs_lookup p (fs s)) as [[c| |]|]; try done; auto.
Qed.

(** The cleanup leaves of every entry of the scratch folder what
    [after_cleanup] says. *)
Lemma cleaned_scratch w s name :
  scratch (fs (cleaned w s)) !! name =
  after_cleanup w name (scratch (fs s) !! name).
Proof.
  unfold cleaned. simpl. rewrite cleanup_loop_scratch.
  case_decide as Hin; [done|].
  destruct (scratch (fs s) !! name) as [x|] eqn:E; [|done].
  destruct Hin. apply list_elem_of_In, in_map_iff.
  exists (name, x). split; [done|].
  by apply list_elem_of_In, elem_of_map_to_list.
Qed.

(** An exception leaves [run] in one situation only: the pipeline has
    returned, and the output path holds neither a file nor a directory
    when its size is asked for.  Then the thread ends without a terminal
    signal, and the cleanup has not run. *)
Theorem run_escapes_only_without_output w j f e s' :
  run w j (init f) = (inl e, s') ->
  pipeline w j (init f) = (inr true, s')
  ∧ (ext (fs s') !! output_file j = None
     ∨ ext (fs s') !! output_file j = Some Other)
  ∧ Forall (λ x, quiet x = true) (trace s').
Proof.
  pose proof (pipeline_quiet w j (init f) ltac:(constructor)) as Hq.
  destruct (pipeline w j (init f)) as [[e1|b] s1] eqn:E; simpl in Hq.
  - by rewrite (run_raised _ _ _ _ _ E).
  - pose proof (pipeline_returns_true _ _ _ _ _ E) as ->.
    rewrite (run_returned _ _ _ _ E).
    destruct (get_file_size _ s1) as [[e2|sz] s2] eqn:E2; [|done].
    intros [= <- <-]. apply get_file_size_raised in E2. auto.
Qed.

Lemma run_escapes_only_without_output_witness :
  ∃ s',
    pipeline Cases.idle Sample.trim_job (init Sample.disk) = (inr true, s')
    ∧ (ext (fs s') !! output_file Sample.trim_job = None
       ∨ ext (fs s') !! output_file Sample.trim_job = Some Other)
    ∧ Forall (λ x, quiet x = true) (trace s').
Proof.
  eexists.
  eapply (run_escapes_only_without_output Cases.idle Sample.trim_job
            Sample.disk).
  vm_compute. reflexivity.
Defined.

(** The success signal, when it is sent, carries the job's output path,
    the elapsed time, and the size in MB of the file that lies at the
    output path when the pipeline has returned; the cleanup follows it, and
    [run] returns. *)
Theorem success_signal_reports_output w j f o sec sz :
  done_signal o sec sz ∈ trace (run w j (init f)).2 ->
  o = output_file j
  ∧ sec = elapsed w
  ∧ ∃ s1,
      pipeline w j (init f) = (inr true, s1)
      ∧ get_file_size (Ext (output_file j)) s1 = (inr sz, s1)
      ∧ run w j (init f) =
        (inr tt, cleaned w (with_event (done_signal o sec sz) s1)).
Proof.
  intros Hin. destruct (run_done_returned _ _ _ _ _ _ Hin) as [s1 E].
  pose proof (pipeline_quiet w j (init f) ltac:(constructor)) as Hq.
  rewrite E in Hq. simpl in Hq. rewrite Forall_forall in Hq.
  revert Hin. rewrite (run_returned _ _ _ _ E).
  destruct (get_file_size _ s1) as [[e|sz'] s2] eqn:E2; simpl.
  - intros H. by apply Hq in H.
  - rewrite !elem_of_app, !list_elem_of_singleton.
    intros [[H|[= -> -> ->]]|?]; [by apply Hq in H| |done].
    pose proof (get_file_size_state _ _ _ _ E2) as ->.
    do 2 (split; [done|]). by exists s1.
Qed.

Lemma success_signal_reports_output_witness :
  Sample.target = output_file Sample.encode_job
  ∧ of_Z 3 = elapsed Sample.world
  ∧ ∃ s1,
      pipeline Sample.world Sample.encode_job (init Sample.disk) =
      (inr true, s1)
      ∧ get_file_size (Ext (output_file Sample.encode_job)) s1 =
        (inr (S754_zero false), s1)
      ∧ run Sample.world Sample.encode_job (init Sample.disk) =
        (inr tt,
         cleaned Sample.world
           (with_event
              (done_signal Sample.target (of_Z 3) (S754_zero false)) s1)).
Proof.
  apply (success_signal_reports_output Sample.world Sample.encode_job
           Sample.disk).
  vm_compute. repeat first [left | right].
Defined.

(** When [run] returns, whatever is still in the scratch folder is
    something the cleanup could not delete: an entry that is neither a
    file nor a directory, or one whose deletion raised. *)
Theorem run_leaves_nothing_deletable w j f name x :
  (run w j (init f)).1 = inr tt ->
  scratch (fs (run w j (init f)).2) !! name = Some x ->
  x = Other ∨ delete_fails w name = true.
Proof.
  assert (∀ s, scratch (fs (cleaned w s)) !! name = Some x ->
            x = Other ∨ delete_fails w name = true) as Hc.
  { intros s. rewrite cleaned_scratch. unfold after_cleanup.
    destruct (scratch (fs s) !! name) as [[c| |]|]; try done;
      destruct (delete_fails w name); try done; auto; intros [= <-]; auto. }
  destruct (pipeline w j (init f)) as [[e1|b] s1] eqn:E.
  - rewrite (run_raised _ _ _ _ _ E). intros _. apply Hc.
  - pose proof (pipeline_returns_true _ _ _ _ _ E) as ->.
    rewrite (run_returned _ _ _ _ E).
    destruct (get_file_size _ s1) as [[e2|sz] s2]; [done|].
    intros _. apply Hc.
Qed.

Lemma run_leaves_nothing_deletable_witness :
  File "statistics" = Other
  ∨ delete_fails Cases.sticky "ffmpeg2pass-0.log" = true.
Proof.
  apply (run_leaves_nothing_deletable Cases.sticky Sample.encode_job
           Sample.disk "ffmpeg2pass-0.log" (File "statistics"));
    vm_compute; reflexivity.
Defined.

(** ** The line shown for a diagnostic line (lines 221-230) *)

(** Split a conjunction into its parts. *)
Ltac conj := repeat match goal with |- _ ∧ _ => split end.

Fixpoint all_digits (s : string) : bool :=
  match s with
  | String c r => PyStr.is_digit c && all_digits r
  | EmptyString => true
  end.

Definition starts_with_digit (s : string) : bool :=
  match s with
  | String c _ => PyStr.is_digit c
  | EmptyString => false
  end.

(** [bitrate=] and a digit right after it, at the start of [s]. *)
Definition matches_here (s : string) : bool :=
  String.prefix "bitrate=" s && starts_with_digit (PyStr.drop 8 s).

(** The same, somewhere in [s]. *)
Fixpoint matches_somewhere (s : string) : bool :=
  matches_here s ||
  match s with
  | String _ r => matches_somewhere r
  | EmptyString => false
  end.

Lemma prefix_drop p s :
  String.prefix p s = true -> s = (p ++ PyStr.drop (String.length p) s)%string.
Proof.
  revert s. induction p as [|a p IH]; intros s; [done|].
  destruct s as [|b s]; [done|].
  change (String.prefix (String a p) (String b s))
    with (if ascii_dec a b then String.prefix p s else false).
  destruct (ascii_dec a b) as [->|]; [|done].
  intros H. rewrite append_cons. f_equal. by apply IH.
Qed.

Lemma prefix_append p s : String.prefix p (p ++ s) = true.
Proof.
  induction p as [|a p IH]; [by destruct s|]. rewrite append_cons.
  change (String.prefix (String a p) (String a (p ++ s)))
    with (if ascii_dec a a then String.prefix p (p ++ s) else false).
  by destruct (ascii_dec a a).
Qed.

Lemma span_digits_spec s d t :
  PyStr.span_digits s = (d, t) ->
  s = (d ++ t)%string ∧ all_digits d = true ∧ starts_with_digit t = false
  ∧ PyStr.is_empty d = negb (starts_with_digit s).
Proof.
  revert d t. induction s as [|c r IH]; intros d t.
  - by intros [= <- <-].
  - change (PyStr.span_digits (String c r))
      with (if PyStr.is_digit c
            then let '(d, t) := PyStr.span_digits r in (String c d, t)
            else (EmptyString, String c r)).
    change (starts_with_digit (String c r)) with (PyStr.is_digit c).
    destruct (PyStr.is_digit c) eqn:E.
    + destruct (PyStr.span_digits r) as [d' t'].
      destruct (IH d' t' eq_refl) as (-> & H1 & H2 & _).
      intros [= <- <-]. rewrite append_cons.
      change (all_digits (String c d'))
        with (PyStr.is_digit c && all_digits d').
      by rewrite E, H1.
    + intros [= <- <-].
      change (starts_with_digit (String c r)) with (PyStr.is_digit c).
      by rewrite E.
Qed.

Lemma starts_with_digit_app d t :
  d ≠ EmptyString -> all_digits d = true ->
  starts_with_digit (d ++ t) = true.
Proof.
  destruct d as [|c d]; [done|]. intros _.
  change (all_digits (String c d)) with (PyStr.is_digit c && all_digits d).
  rewrite append_cons. by intros [H _]%andb_true_iff.
Qed.

Lemma match_bitrate_some s m t :
  PyStr.match_bitrate s = Some (m, t) ->
  ∃ d, m = ("bitrate=" ++ d)%string ∧ d ≠ EmptyString
       ∧ all_digits d = true ∧ starts_with_digit t = false
       ∧ s = ("bitrate=" ++ d ++ t)%string.
Proof.
  unfold PyStr.match_bitrate.
  destruct (String.prefix "bitrate=" s) eqn:P; [|done].
  apply prefix_drop in P. change (String.length "bitrate=") with 8%nat in P.
  destruct (PyStr.span_digits (PyStr.drop 8 s)) as [d t'] eqn:S.
  apply span_digits_spec in S as (S1 & S2 & S3 & _).
  destruct (PyStr.is_empty d) eqn:Ed; [done|]. intros [= <- <-].
  exists d. conj; first [done | by intros -> | by rewrite <- S1].
Qed.

Lemma match_bitrate_none s :
  PyStr.match_bitrate s = None -> matches_here s = false.
Proof.
  unfold PyStr.match_bitrate, matches_here.
  destruct (String.prefix "bitrate=" s); [|done].
  destruct (PyStr.span_digits (PyStr.drop 8 s)) as [d t'] eqn:S.
  apply span_digits_spec in S as (_ & _ & _ & S4).
  destruct (PyStr.is_empty d); [|done]. intros _.
  by destruct (starts_with_digit (PyStr.drop 8 s)).
Qed.

(** A split at the first place where the pattern matches: what comes
    before holds no place where it matches; the match takes every digit
    that follows [bitrate=]. *)
Lemma re_split_bitrate_some s a m b :
  PyStr.re_split_bitrate s = Some (a, m, b) ->
  ∃ d, m = ("bitrate=" ++ d)%string ∧ d ≠ EmptyString
       ∧ all_digits d = true ∧ starts_with_digit b = false
       ∧ s = (a ++ "bitrate=" ++ d ++ b)%string
       ∧ ∀ a1 a2, a = (a1 ++ a2)%string -> a2 ≠ EmptyString ->
           matches_here (a2 ++ "bitrate=" ++ d ++ b) = false.
Proof.
  revert a. induction s as [|c r IH]; intros a.
  - change (PyStr.re_split_bitrate EmptyString) with
      (match PyStr.match_bitrate EmptyString with
       | Some (m, t) => Some (EmptyString, m, t)
       | None => None
       end).
    destruct (PyStr.match_bitrate EmptyString) as [[m' t']|] eqn:E; [|done].
    intros [= <- <- <-].
    apply match_bitrate_some in E as (d & -> & H1 & H2 & H3 & H4).
    exists d. conj; try done;
      (intros [|x a1] a2 E' Hne; [|done];
       change (EmptyString = a2) in E'; by subst a2).
  - change (PyStr.re_split_bitrate (String c r)) with
      (match PyStr.match_bitrate (String c r) with
       | Some (m, t) => Some (EmptyString, m, t)
       | None =>
           match PyStr.re_split_bitrate r with
           | Some (a, m, b) => Some (String c a, m, b)
           | None => None
           end
       end).
    destruct (PyStr.match_bitrate (String c r)) as [[m' t']|] eqn:E.
    + intros [= <- <- <-].
      apply match_bitrate_some in E as (d & -> & H1 & H2 & H3 & H4).
      exists d. conj; try done;
        (intros [|x a1] a2 E' Hne; [|done];
       change (EmptyString = a2) in E'; by subst a2).
    + destruct (PyStr.re_split_bitrate r) as [[[a' m'] b']|]; [|done].
      intros [= <- <- <-].
      destruct (IH a' eq_refl) as (d & -> & H1 & H2 & H3 & H4 & H5).
      exists d. conj; try done.
      * by rewrite append_cons, <- H4.
      * intros [|x a1] a2 E' Hne.
        -- change (String c a' = a2) in E'. subst a2.
           rewrite append_cons, <- H4. by apply match_bitrate_none.
        -- rewrite append_cons in E'. injection E' as _ ->. by apply (H5 a1).
Qed.

Lemma re_split_bitrate_none s :
  matches_somewhere s = false -> PyStr.re_split_bitrate s = None.
Proof.
  induction s as [|c r IH].
  - intros _. change (PyStr.re_split_bitrate EmptyString) with
      (match PyStr.match_bitrate EmptyString with
       | Some (m, t) => Some (EmptyString, m, t)
       | None => None
       end).
    by change (PyStr.match_bitrate EmptyString) with (@None (string * string)).
  - change (matches_somewhere (String c r))
      with (matches_here (String c r) || matches_somewhere r).
    intros [H1 H2]%orb_false_iff.
    change (PyStr.re_split_bitrate (String c r)) with
      (match PyStr.match_bitrate (String c r) with
       | Some (m, t) => Some (EmptyString, m, t)
       | None =>
           match PyStr.re_split_bitrate r with
           | Some (a, m, b) => Some (String c a, m, b)
           | None => None
           end
       end).
    destruct (PyStr.match_bitrate (String c r)) as [[m' t']|] eqn:E.
    + apply match_bitrate_some in E as (d & -> & G1 & G2 & G3 & G4).
      unfold matches_here in H1. rewrite G4 in H1.
      rewrite prefix_append in H1.
      change (PyStr.drop 8 ("bitrate=" ++ d ++ t')) with (d ++ t')%string in H1.
      by rewrite starts_with_digit_app in H1.
    + by rewrite IH.
Qed.

Lemma re_split_bitrate_none_inv s :
  PyStr.re_split_bitrate s = None -> matches_somewhere s = false.
Proof.
  induction s as [|c r IH]; [done|].
  change (PyStr.re_split_bitrate (String c r)) with
    (match PyStr.match_bitrate (String c r) with
     | Some (m, t) => Some (EmptyString, m, t)
     | None =>
         match PyStr.re_split_bitrate r with
         | Some (a, m, b) => Some (String c a, m, b)
         | None => None
         end
     end).
  change (matches_somewhere (String c r))
    with (matches_here (String c r) || matches_somewhere r).
  destruct (PyStr.match_bitrate (String c r)) as [[m' t']|] eqn:M; [done|].
  destruct (PyStr.re_split_bitrate r) as [[[a m] b]|]; [done|].
  intros _. by rewrite (match_bitrate_none _ M), IH.
Qed.

Lemma matches_somewhere_contains s :
  matches_somewhere s = true -> PyStr.contains "bitrate=" s = true.
Proof.
  induction s as [|c r IH].
  - done.
  - change (matches_somewhere (String c r))
      with (matches_here (String c r) || matches_somewhere r).
    change (PyStr.contains "bitrate=" (String c r))
      with (String.prefix "bitrate=" (String c r)
            || PyStr.contains "bitrate=" r).
    unfold matches_here.
    intros [[H _]%andb_true_iff|H]%orb_true_iff; apply orb_true_iff; auto.
Qed.

(** The line shown for a diagnostic line.  If nowhere in the stripped
    line [bitrate=] is directly followed by a digit, as in the lines ffmpeg
    prints ([bitrate= 419.4kbits/s]), the stripped line is shown as it is.
    Otherwise the stripped line is cut at the first such place: shown are
    [bitrate=] with all the digits after it and the rest of the line, and
    on a second row what came before, without its leading blanks; no
    character of the line is lost but those blanks. *)
Theorem processed_line_spec line :
  let s := PyStr.strip line in
  if matches_somewhere s then
    ∃ a d b,
      s = (a ++ "bitrate=" ++ d ++ b)%string
      ∧ d ≠ EmptyString ∧ all_digits d = true
      ∧ starts_with_digit b = false
      ∧ (∀ a1 a2, a = (a1 ++ a2)%string -> a2 ≠ EmptyString ->
           matches_here (a2 ++ "bitrate=" ++ d ++ b) = false)
      ∧ processed_line line =
        ("bitrate=" ++ d ++ b ++ nl ++ PyStr.lstrip a)%string
  else processed_line line = s.
Proof.
  intros s. unfold processed_line. cbv zeta. fold s.
  destruct (matches_somewhere s) eqn:E.
  - rewrite (matches_somewhere_contains _ E).
    destruct (PyStr.re_split_bitrate s) as [[[a m] b]|] eqn:R.
    + apply re_split_bitrate_some in R as (d & -> & H1 & H2 & H3 & H4 & H5).
      exists a, d, b. conj; try done.
    + apply re_split_bitrate_none_inv in R. by rewrite R in E.
  - rewrite (re_split_bitrate_none _ E).
    by destruct (PyStr.contains "bitrate=" s).
Qed.

(** ** A line that stops after [time=] (lines 232-234) *)

Lemma item_some {A} (l : list A) i x s :
  l !! i = Some x -> item l i s = (inr x, s).
Proof. intros E. unfold item. by rewrite E. Qed.

Lemma item_none {A} (l : list A) i s :
  l !! i = None ->
  item l i s = (inl (IndexError "list index out of range"), s).
Proof. intros E. unfold item. by rewrite E. Qed.

(** A diagnostic line in which nothing but blanks follows the first
    [time=] makes the loop body raise [IndexError] (there is no first word
    to take): the line has been shown, but it is not written to the log of
    the pass, and no percentage is sent. *)
Theorem line_without_time_value_raises log pass d line after s :
  PyStr.contains "time=" (PyStr.strip line) = true ->
  PyStr.split "time=" (PyStr.strip line) !! 1%nat = Some after ->
  PyStr.split_ws after = [] ->
  read_line log pass d line s =
  (inl (IndexError "list index out of range"),
   with_event (log_signal (processed_line line)) s).
Proof.
  intros Hc Ha Hw. unfold read_line. cbv zeta.
  rewrite bind_eq, emit_eq, bind_eq, Hc, bind_eq.
  rewrite (item_some _ _ _ _ Ha), bind_eq, item_none by by rewrite Hw.
  done.
Qed.

Lemma line_without_time_value_raises_witness :
  read_line (Scratch "pass1_log.txt") 1 (of_Z 10)
    "frame=  240 fps=0.0 size=     512kB time=   " (init Sample.disk) =
  (inl (IndexError "list index out of range"),
   with_event
     (log_signal (processed_line "frame=  240 fps=0.0 size=     512kB time=   "))
     (init Sample.disk)).
Proof.
  apply (line_without_time_value_raises (Scratch "pass1_log.txt") 1 (of_Z 10)
           "frame=  240 fps=0.0 size=     512kB time=   " "");
    reflexivity.
Defined.

(** * The window: starting a job (Main.py, lines 660-734, 794-797) *)

(** ** File names *)

(** The split of [s] at its last dot, if it has one: what comes before
    the dot, and the rest from the dot on. *)
Fixpoint rsplit_dot (s : string) : option (string * string) :=
  match s with
  | EmptyString => None
  | String c r =>
      match rsplit_dot r with
      | Some (a, e) => Some (String c a, e)
      | None => if Ascii.eqb c "." then Some (EmptyString, s) else None
      end
  end.

Fixpoint all_dots (s : string) : bool :=
  match s with
  | String c r => Ascii.eqb c "." && all_dots r
  | EmptyString => true
  end.

(** [os.path.splitext] for Windows paths: the extension starts at the
    last dot, provided that dot comes after the last separator and
    something other than dots lies between the two. *)
Definition splitext (p : string) : string * string :=
  match rsplit_dot p with
  | Some (a, e) =>
      if has_sep e || all_dots (after_last_sep a) then (p, EmptyString)
      else (a, e)
  | None => (p, EmptyString)
  end.

(** [generate_safe_filename] (lines 794-797) *)
Definition generate_safe_filename (filename : string) : string :=
  let '(name, ext) := splitext filename in
  let safe_name :=
    PyStr.replace_char " " "_" (PyStr.replace_char ":" "-" name) in
  (safe_name ++ "_ClipUtils" ++ ext)%string.

(** ** The method [compress_video] of the window *)

(** What the method reads from the widgets. *)
Record form := {
  (** [self.selected_file] *)
  selected_file : option string;
  (** [self.target_input.text()] *)
  target_text : string;
  (** [self.start_input.value()] *)
  start_value : float;
  (** [self.end_input.value()] *)
  end_value : float
}.

(** What the method needs from the system besides ffprobe and the file
    system. *)
Record desktop := {
  (** [get_videos_folder()], or the exception it raises. *)
  videos_folder : exn + string;
  (** [os.path.dirname] *)
  dirname : string -> string;
  (** [os.path.normpath(os.path.join(os.path.join(videos_dir, "ClipUtils"),
      name))] for a folder and a file name. *)
  output_path : string -> string -> string;
  (** The error [os.makedirs] fails with, if it does. *)
  makedirs_error : option string
}.

(** The literal [0.01]. *)
Definition c001 : float := of_decimal false 1 (-2).

(** [abs(new_length - self.duration)] *)
Definition gap (new_length : float) (duration : option float) : M float :=
  match duration with
  | Some d => mret (SFabs (fsub new_length d))
  | None =>
      raise (TypeError
        "unsupported operand type(s) for -: 'float' and 'NoneType'")
  end.

(** The method (lines 660-734).  Its result: the warnings shown, as
    pairs of a title and a text, and the job of the thread it started, if
    it started one.  The methods [get_video_duration] and [get_file_size]
    of the window (lines 780-792) are those of the thread, word for
    word. *)
Definition window_compress_video (w : env) (g : desktop) (x : form)
  : M (list (string * string) * option job) :=
  match selected_file x with
  | None | Some EmptyString =>
      mret ([("Error", "No video file selected.")], None)
  | Some file =>
      let '(videos_dir, ws) :=
        match videos_folder g with
        | inr d => (d, [])
        | inl e =>
            (dirname g file,
             [("Path Warning",
               ("Could not find system Videos folder: " ++ str_exn e ++ nl
                ++ "Saving to original file directory instead.")%string)])
        end in
      match makedirs_error g with
      | Some msg => raise (OSError msg)
      | None => mret tt
      end;;
      duration ← get_video_duration w (Ext file);
      old_size ← get_file_size (Ext file);
      let target_size_text := PyStr.strip (target_text x) in
      let parsed : option (option float) :=
        if PyStr.is_empty target_size_text then Some None
        else
          match of_string (PyStr.replace_char "," "." target_size_text) with
          | Some v =>
              let target_size := fsub v (of_Z 2) in
              Some (if SFeqb target_size old_size then None
                    else Some target_size)
          | None => None
          end in
      match parsed with
      | None => mret (ws ++ [("Error", "Invalid target size.")], None)
      | Some target_size =>
          let start_time := start_value x in
          let end_time := end_value x in
          let new_length := fsub end_time start_time in
          let output_file :=
            output_path g videos_dir
              (generate_safe_filename (basename file)) in
          match target_size with
          | None =>
              invalid ←
                (if fle new_length (S754_zero false) then mret true
                 else a ← gap new_length duration; mret (SFltb a c001));
              if invalid : bool then
                mret (ws ++
                      [("Invalid Timings",
                        ("Please enter valid start/end times for trimming."
                         ++ nl ++
                         "Current values don't modify the original video length.")%string)],
                      None)
              else
                mret (ws,
                      Some {| input_file := file; output_file := output_file;
                              target_size := None; target_bitrate := None;
                              start_time := Some start_time;
                              end_time := Some end_time |})
          | Some t =>
              windowed ←
                (if float_gt_Z new_length 0 then
                   a ← gap new_length duration; mret (SFltb c001 a)
                 else mret false);
              if windowed : bool then
                b ← lift (fdiv (fmul (fmul t (of_Z 8)) (of_Z 1024))
                            new_length);
                mret (ws,
                      Some {| input_file := file; output_file := output_file;
                              target_size := Some t;
                              target_bitrate := Some b;
                              start_time := Some start_time;
                              end_time := Some end_time |})
              else
                b ←
                  match duration with
                  | Some d =>
                      lift (fdiv (fmul (fmul t (of_Z 8)) (of_Z 1024)) d)
                  | None =>
                      raise (TypeError
                        "unsupported operand type(s) for /: 'float' and 'NoneType'")
                  end;
                mret (ws,
                      Some {| input_file := file; output_file := output_file;
                              target_size := Some t;
                              target_bitrate := Some b;
                              start_time := None; end_time := None |})
          end
      end
  end.

(** ** Sample inputs of the window *)

Module Desk.

Definition desk : desktop :=
  {| videos_folder := inr "C:/Users/me/Videos";
     dirname := λ _, "C:/clips";
     output_path := λ d name, (d ++ "/ClipUtils/" ++ name)%string;
     makedirs_error := None |}.

(** A target of 1.5 MB typed with a comma; the trim inputs span the
    10 seconds of the clip. *)
Definition small_form : form :=
  {| selected_file := Some Sample.source; target_text := "1,5";
     start_value := S754_zero false; end_value := of_Z 10 |}.

(** No target; the seconds 2 to 6 of the clip. *)
Definition trim_form : form :=
  {| selected_file := Some Sample.source; target_text := "";
     start_value := of_Z 2; end_value := of_Z 6 |}.

End Desk.

(** The job of a thread without its target. *)
Definition untargeted (j : job) : job :=
  {| input_file := input_file j; output_file := output_file j;
     target_size := None; target_bitrate := None;
     start_time := start_time j; end_time := end_time j |}.

(** One case analysis of a computation in a hypothesis: on a scrutinee
    that holds no other case analysis. *)
Ltac case_inner H :=
  match type of H with
  | context [match ?t with _ => _ end] =>
      lazymatch t with
      | context [match _ with _ => _ end] => fail
      | _ => destruct t eqn:?
      end
  end.

(** What is known of the job when the method has started a thread;
    ffprobe was run on the selected file. *)
Lemma window_started w g x s ws j s' :
  window_compress_video w g x s = (inr (ws, Some j), s') ->
  s' = probing w (Ext (input_file j)) s
  ∧ (∃ ff, ffmpeg_path w = Some ff)
  ∧ selected_file x = Some (input_file j)
  ∧ (target_size j = None
     ∨ ∃ v, of_string
              (PyStr.replace_char "," "." (PyStr.strip (target_text x)))
            = Some v
            ∧ target_size j = Some (fsub v (of_Z 2)))
  ∧ (start_time j = Some (start_value x) ∧ end_time j = Some (end_value x)
     ∨ start_time j = None ∧ end_time j = None ∧ target_size j ≠ None)
  ∧ (target_size j = None ->
     fle (fsub (end_value x) (start_value x)) (S754_zero false) = false).
Proof.
  intros H. unfold window_compress_video in H.
  unfold get_video_duration, get_ffmpeg_path, get_file_size, getsize, gap,
    lift, fdiv, raise, emit, modify in H.
  cbv [mbind M_bind mret M_ret gets] in H.
  destruct (selected_file x) as [[|c r]|] eqn:Hsel; [done| |done].
  repeat (case_inner H; try discriminate H; cbv beta iota zeta in H).
  all: inversion H; subst; clear H; simpl.
  all: conj; try done; eauto 6.
Qed.

(** A typed target size of at most 2 MB is ignored.  The method takes 2
    off the number typed; when what is left is not above zero, the thread
    it starts takes the branch of [run] for jobs without a target size, and
    behaves in every state as the same job without its target: no encode
    pass is ever run for it. *)
Theorem small_target_is_ignored w g x s ws j s' v :
  window_compress_video w g x s = (inr (ws, Some j), s') ->
  of_string (PyStr.replace_char "," "." (PyStr.strip (target_text x)))
  = Some v ->
  float_gt_Z (fsub v (of_Z 2)) 0 = false ->
  has_target_size j = false
  ∧ ∀ s0, run w j s0 = run w (untargeted j) s0.
Proof.
  intros H Hv Hsmall.
  apply window_started in H as (_ & _ & _ & Ht & _).
  assert (has_target_size j = false) as Hj.
  { unfold has_target_size.
    destruct Ht as [->|(v' & Hv' & ->)]; [done|]. congruence. }
  split; [done|]. intros s0. unfold run, pipeline. rewrite Hj.
  change (has_target_size (untargeted j)) with false. reflexivity.
Qed.

Lemma small_target_is_ignored_witness :
  ∃ j,
    has_target_size j = false
    ∧ ∀ s0, run Sample.world j s0 = run Sample.world (untargeted j) s0.
Proof.
  eexists.
  eapply (small_target_is_ignored Sample.world Desk.desk Desk.small_form
            (init Sample.disk) _ _ _
            (SFdiv prec emax (of_Z 3) (of_Z 2)));
    vm_compute; reflexivity.
Defined.

(** The same with the trim inputs left as they were: the thread is
    started without a window, and its job is one that [run] turns down.
    All the user gets is the error signal with the message of the
    [TypeError] that the subtraction of the missing times raises. *)
Theorem small_target_without_window_fails w g x s ws j s' v f :
  window_compress_video w g x s = (inr (ws, Some j), s') ->
  of_string (PyStr.replace_char "," "." (PyStr.strip (target_text x)))
  = Some v ->
  float_gt_Z (fsub v (of_Z 2)) 0 = false ->
  start_time j = None ->
  (run w j (init f)).1 = inr tt
  ∧ trace (run w j (init f)).2 =
    [error_signal
       "Error: unsupported operand type(s) for -: 'NoneType' and 'NoneType'";
     cleanup_run].
Proof.
  intros H Hv Hsmall Hstart.
  apply window_started in H as (_ & [ff Hff] & _ & Ht & Hw & _).
  assert (has_target_size j = false) as Hj.
  { unfold has_target_size.
    destruct Ht as [->|(v' & Hv' & ->)]; [done|]. congruence. }
  destruct Hw as [[Hw _]|(_ & Hend & _)]; [congruence|].
  assert (pipeline w j (init f) =
          (inl (TypeError
                  "unsupported operand type(s) for -: 'NoneType' and 'NoneType'"),
           init f)) as E.
  { unfold pipeline. rewrite Hj. simpl. rewrite bind_eq.
    unfold trim_video, get_ffmpeg_path. cbv zeta.
    by rewrite Hff, Hstart, Hend. }
  by rewrite (run_raised _ _ _ _ _ E).
Qed.

Lemma small_target_without_window_fails_witness :
  ∃ j,
    (run Sample.world j (init Sample.disk)).1 = inr tt
    ∧ trace (run Sample.world j (init Sample.disk)).2 =
      [error_signal
         "Error: unsupported operand type(s) for -: 'NoneType' and 'NoneType'";
       cleanup_run].
Proof.
  eexists.
  eapply (small_target_without_window_fails Sample.world Desk.desk
            Desk.small_form (init Sample.disk) _ _ _
            (SFdiv prec emax (of_Z 3) (of_Z 2)));
    vm_compute; reflexivity.
Defined.

(** A job that the method starts without a target size has both ends of
    its trim window, taken from the two inputs, and the length of the
    window did not compare as at most zero: [run] never turns such a job
    down for lack of a window. *)
Theorem untargeted_job_has_a_window w g x s ws j s' :
  window_compress_video w g x s = (inr (ws, Some j), s') ->
  target_size j = None ->
  start_time j = Some (start_value x)
  ∧ end_time j = Some (end_value x)
  ∧ has_trim_window j = true
  ∧ fle (fsub (end_value x) (start_value x)) (S754_zero false) = false.
Proof.
  intros H Ht.
  apply window_started in H as (_ & _ & _ & _ & Hw & Hlen).
  destruct Hw as [[Hs He]|(_ & _ & Hne)]; [|done].
  unfold has_trim_window. rewrite Hs, He. auto.
Qed.

Lemma untargeted_job_has_a_window_witness :
  ∃ j,
    start_time j = Some (start_value Desk.trim_form)
    ∧ end_time j = Some (end_value Desk.trim_form)
    ∧ has_trim_window j = true
    ∧ fle (fsub (end_value Desk.trim_form) (start_value Desk.trim_form))
        (S754_zero false) = false.
Proof.
  eexists.
  eapply (untargeted_job_has_a_window Sample.world Desk.desk Desk.trim_form
            (init Sample.disk));
    vm_compute; reflexivity.
Defined.

(** ** The name of the output file (lines 794-797) *)

(** [c in s] for one character. *)
Fixpoint has_char (c : ascii) (s : string) : bool :=
  match s with
  | String x r => Ascii.eqb x c || has_char c r
  | EmptyString => false
  end.

(** The replacements of [generate_safe_filename]. *)
Definition safe_name (name : string) : string :=
  PyStr.replace_char " " "_" (PyStr.replace_char ":" "-" name).

Lemma replace_char_cons a b c r :
  PyStr.replace_char a b (String c r) =
  String (if Ascii.eqb c a then b else c) (PyStr.replace_char a b r).
Proof. reflexivity. Qed.

Lemma has_char_replace a b s :
  Ascii.eqb b a = false -> has_char a (PyStr.replace_char a b s) = false.
Proof.
  intros Hb. induction s as [|c r IH]; [done|].
  rewrite replace_char_cons.
  change (has_char a (String ?x ?y)) with (Ascii.eqb x a || has_char a y).
  rewrite IH. destruct (Ascii.eqb c a) eqn:E; by rewrite ?Hb, ?E.
Qed.

Lemma has_char_replace_other a b c s :
  Ascii.eqb b c = false -> has_char c s = false ->
  has_char c (PyStr.replace_char a b s) = false.
Proof.
  intros Hb. induction s as [|x r IH]; [done|].
  rewrite replace_char_cons.
  change (has_char c (String ?u ?v)) with (Ascii.eqb u c || has_char c v).
  intros [H1 H2]%orb_false_iff. rewrite (IH H2).
  destruct (Ascii.eqb x a); by rewrite ?Hb, ?H1.
Qed.

Section Dots.

(** Two characters that are neither dots nor separators. *)
Context (a b : ascii).
Hypothesis a_dot : Ascii.eqb a "." = false.
Hypothesis b_dot : Ascii.eqb b "." = false.
Hypothesis a_sep : is_sep a = false.
Hypothesis b_sep : is_sep b = false.

Lemma replaced_dot c :
  Ascii.eqb (if Ascii.eqb c a then b else c) "." = Ascii.eqb c ".".
Proof.
  destruct (Ascii.eqb_spec c a) as [->|]; [|done]. by rewrite a_dot, b_dot.
Qed.

Lemma replaced_sep c : is_sep (if Ascii.eqb c a then b else c) = is_sep c.
Proof.
  destruct (Ascii.eqb_spec c a) as [->|]; [|done]. by rewrite a_sep, b_sep.
Qed.

Lemma rsplit_dot_replace s :
  rsplit_dot (PyStr.replace_char a b s) =
  match rsplit_dot s with
  | Some (x, e) => Some (PyStr.replace_char a b x, PyStr.replace_char a b e)
  | None => None
  end.
Proof.
  induction s as [|c r IH]; [done|]. rewrite replace_char_cons.
  change (rsplit_dot (String ?u ?v))
    with (match rsplit_dot v with
          | Some (x, e) => Some (String u x, e)
          | None => if Ascii.eqb u "." then Some (EmptyString, String u v)
                    else None
          end).
  rewrite IH, replaced_dot.
  destruct (rsplit_dot r) as [[x e]|]; [done|].
  by destruct (Ascii.eqb c ".").
Qed.

Lemma has_sep_replace s : has_sep (PyStr.replace_char a b s) = has_sep s.
Proof.
  induction s as [|c r IH]; [done|]. rewrite replace_char_cons.
  change (has_sep (String ?u ?v)) with (is_sep u || has_sep v).
  by rewrite IH, replaced_sep.
Qed.

Lemma after_last_sep_replace s :
  after_last_sep (PyStr.replace_char a b s) =
  PyStr.replace_char a b (after_last_sep s).
Proof.
  induction s as [|c r IH]; [done|]. rewrite replace_char_cons.
  change (after_last_sep (String ?u ?v))
    with (if has_sep v then after_last_sep v
          else if is_sep u then v else String u v).
  rewrite has_sep_replace, replaced_sep, IH.
  destruct (has_sep r); [done|]. by destruct (is_sep c).
Qed.

Lemma all_dots_replace s : all_dots (PyStr.replace_char a b s) = all_dots s.
Proof.
  induction s as [|c r IH]; [done|]. rewrite replace_char_cons.
  change (all_dots (String ?u ?v)) with (Ascii.eqb u "." && all_dots v).
  by rewrite IH, replaced_dot.
Qed.

End Dots.

Lemma rsplit_dot_cons c r :
  rsplit_dot (String c r) =
  match rsplit_dot r with
  | Some (x, e) => Some (String c x, e)
  | None => if Ascii.eqb c "." then Some (EmptyString, String c r) else None
  end.
Proof. reflexivity. Qed.

(** The extension found: it starts at the last dot. *)
Lemma rsplit_dot_spec s x e :
  rsplit_dot s = Some (x, e) ->
  s = (x ++ e)%string ∧ rsplit_dot e = Some (EmptyString, e).
Proof.
  revert x. induction s as [|c r IH]; intros x; [done|].
  rewrite rsplit_dot_cons.
  destruct (rsplit_dot r) as [[x' e']|] eqn:E.
  - intros [= <- <-]. destruct (IH x' eq_refl) as [-> H].
    by rewrite append_cons.
  - destruct (Ascii.eqb c ".") eqn:Ec; [|done]. intros [= <- <-].
    split; [done|]. by rewrite rsplit_dot_cons, E, Ec.
Qed.

Lemma rsplit_dot_app_some p e x e' :
  rsplit_dot e = Some (x, e') ->
  rsplit_dot (p ++ e) = Some ((p ++ x)%string, e').
Proof.
  intros H. induction p as [|c p IH]; [done|].
  by rewrite append_cons, rsplit_dot_cons, IH.
Qed.

Lemma rsplit_dot_app_none s t :
  rsplit_dot t = None ->
  rsplit_dot (s ++ t) =
  match rsplit_dot s with
  | Some (x, e) => Some (x, (e ++ t)%string)
  | None => None
  end.
Proof.
  intros H. induction s as [|c r IH]; [done|].
  rewrite append_cons, !rsplit_dot_cons, IH.
  destruct (rsplit_dot r) as [[x e]|]; [done|].
  by destruct (Ascii.eqb c ".").
Qed.

Lemma has_sep_cons c r : has_sep (String c r) = is_sep c || has_sep r.
Proof. reflexivity. Qed.

Lemma has_sep_app s t : has_sep (s ++ t) = has_sep s || has_sep t.
Proof.
  induction s as [|c r IH]; [done|].
  by rewrite append_cons, !has_sep_cons, IH, orb_assoc.
Qed.

Lemma after_last_sep_cons c r :
  after_last_sep (String c r) =
  if has_sep r then after_last_sep r else if is_sep c then r else String c r.
Proof. reflexivity. Qed.

Lemma after_last_sep_none t : has_sep t = false -> after_last_sep t = t.
Proof.
  destruct t as [|c r]; [done|]. rewrite has_sep_cons, after_last_sep_cons.
  by intros [-> ->]%orb_false_iff.
Qed.

Lemma after_last_sep_app s t :
  has_sep t = false ->
  after_last_sep (s ++ t) = (after_last_sep s ++ t)%string.
Proof.
  intros H. induction s as [|c r IH].
  - by apply after_last_sep_none.
  - rewrite append_cons, !after_last_sep_cons, has_sep_app, H, orb_false_r, IH.
    destruct (has_sep r); [done|]. by destruct (is_sep c).
Qed.

Lemma all_dots_app s t : all_dots (s ++ t) = all_dots s && all_dots t.
Proof.
  induction s as [|c r IH]; [done|]. rewrite append_cons.
  change (all_dots (String ?u ?v)) with (Ascii.eqb u "." && all_dots v).
  by rewrite IH, andb_assoc.
Qed.

Lemma safe_name_app s t : safe_name (s ++ t) = (safe_name s ++ safe_name t)%string.
Proof. unfold safe_name. by rewrite !replace_char_app. Qed.

Lemma rsplit_dot_safe_name s :
  rsplit_dot (safe_name s) =
  match rsplit_dot s with
  | Some (x, e) => Some (safe_name x, safe_name e)
  | None => None
  end.
Proof.
  unfold safe_name. rewrite !rsplit_dot_replace by done.
  by destruct (rsplit_dot s) as [[x e]|].
Qed.

Lemma has_sep_safe_name s : has_sep (safe_name s) = has_sep s.
Proof. unfold safe_name. by rewrite !has_sep_replace. Qed.

Lemma all_dots_after_last_sep_safe_name s :
  all_dots (after_last_sep (safe_name s)) = all_dots (after_last_sep s).
Proof.
  unfold safe_name.
  by rewrite !after_last_sep_replace, !all_dots_replace.
Qed.

(** The name of the output file keeps the extension of the input: for a
    name that [os.path.splitext] splits into [name] and [ext] (which make
    up the whole name), the name built is [name] with [:] and blanks
    replaced, then [_ClipUtils], then [ext]; splitting it again gives back
    exactly the extension [ext]; and no [:] and no blank is left before
    the extension. *)
Theorem safe_filename_keeps_extension filename :
  let '(name, ext) := splitext filename in
  filename = (name ++ ext)%string
  ∧ generate_safe_filename filename =
    (safe_name name ++ "_ClipUtils" ++ ext)%string
  ∧ splitext (generate_safe_filename filename) =
    ((safe_name name ++ "_ClipUtils")%string, ext)
  ∧ has_char ":" (safe_name name) = false
  ∧ has_char " " (safe_name name) = false.
Proof.
  assert (∀ name, has_char ":" (safe_name name) = false
                  ∧ has_char " " (safe_name name) = false) as Hclean.
  { intros name. unfold safe_name. split.
    - apply has_char_replace_other; [done|]. by apply has_char_replace.
    - by apply has_char_replace. }
  assert (rsplit_dot "_ClipUtils" = None) as Hsuffix by done.
  unfold generate_safe_filename, splitext.
  destruct (rsplit_dot filename) as [[x e]|] eqn:E.
  - destruct (rsplit_dot_spec _ _ _ E) as [Hf He].
    destruct (has_sep e || all_dots (after_last_sep x)) eqn:Hc.
    + fold (safe_name filename).
      split; [by rewrite append_nil_r|]. split; [done|].
      split; [|apply Hclean].
      change (safe_name filename ++ "_ClipUtils" ++ "")%string
        with (safe_name filename ++ "_ClipUtils")%string.
      rewrite rsplit_dot_app_none, rsplit_dot_safe_name, E by done.
      rewrite has_sep_app, has_sep_safe_name.
      rewrite all_dots_after_last_sep_safe_name.
      change (has_sep "_ClipUtils") with false.
      by rewrite orb_false_r, Hc.
    + fold (safe_name x). split; [done|]. split; [done|].
      split; [|apply Hclean].
      apply orb_false_iff in Hc as [Hc1 Hc2].
      rewrite <- append_assoc, (rsplit_dot_app_some _ _ _ _ He).
      rewrite append_nil_r, Hc1, after_last_sep_app, all_dots_app by done.
      by rewrite andb_false_r.
  - fold (safe_name filename).
    split; [by rewrite append_nil_r|]. split; [done|].
    split; [|apply Hclean].
    change (safe_name filename ++ "_ClipUtils" ++ "")%string
      with (safe_name filename ++ "_ClipUtils")%string.
    by rewrite rsplit_dot_app_none, rsplit_dot_safe_name, E.
Qed.

(** ** The sweep of the window after a job (lines 760-771) *)

(** The loop at the end of [compression_done]: like the cleanup of the
    thread it deletes the files and directories of the scratch folder, but
    the first deletion that raises ends it. *)
Fixpoint compression_done_sweep (w : env) (names : list string)
    (f : filesystem) : filesystem :=
  match names with
  | [] => f
  | filename :: rest =>
      match scratch f !! filename with
      | Some (File _) | Some Dir =>
          if delete_fails w filename then f
          else compression_done_sweep w rest (fs_delete (Scratch filename) f)
      | _ => compression_done_sweep w rest f
      end
  end.

(** As long as no deletion fails, the sweep does what the cleanup of the
    thread does. *)
Lemma compression_done_sweep_clean w names f :
  (∀ n, n ∈ names -> delete_fails w n = false) ->
  compression_done_sweep w names f =
  foldl (λ g n, cleanup_entry w n g) f names.
Proof.
  revert f. induction names as [|n names IH]; intros f Hok; [done|].
  simpl. unfold cleanup_entry at 2.
  rewrite (Hok n) by (apply elem_of_cons; by left).
  assert (∀ m, m ∈ names -> delete_fails w m = false) as Hok'.
  { intros m Hm. apply Hok, elem_of_cons. by right. }
  destruct (scratch f !! n) as [[c| |]|]; by rewrite IH.
Qed.

(** The first file or directory whose deletion raises ends the sweep of
    the window: what is listed before it is swept as the cleanup of the
    thread sweeps it, and what is listed after it is left alone, also
    where the cleanup of the thread would have gone on. *)
Theorem window_sweep_stops_at_first_failure w before name after f x :
  (∀ n, n ∈ before -> delete_fails w n = false) ->
  name ∉ before ->
  scratch f !! name = Some x -> x ≠ Other ->
  delete_fails w name = true ->
  compression_done_sweep w (before ++ name :: after) f =
  foldl (λ g n, cleanup_entry w n g) f before.
Proof.
  revert f. induction before as [|n before IH]; intros f Hok Hnot Hx Hfile Hfail.
  - simpl. rewrite Hx, Hfail. by destruct x.
  - assert (n ≠ name) as Hn.
    { intros ->. apply Hnot, elem_of_cons. by left. }
    assert (∀ m, m ∈ before -> delete_fails w m = false) as Hok'.
    { intros m Hm. apply Hok, elem_of_cons. by right. }
    assert (name ∉ before) as Hnot'.
    { intros Hm. apply Hnot, elem_of_cons. by right. }
    simpl. unfold cleanup_entry at 2.
    rewrite (Hok n) by (apply elem_of_cons; by left).
    destruct (scratch f !! n) as [[c| |]|]; apply IH; try done;
      simpl; by rewrite lookup_delete_ne.
Qed.

Lemma window_sweep_stops_at_first_failure_witness :
  compression_done_sweep Cases.sticky
    (["pass1_log.txt"] ++ "ffmpeg2pass-0.log" :: ["pass2_log.txt"])
    {| scratch := {[ "pass1_log.txt" := File "a";
                     "ffmpeg2pass-0.log" := File "b";
                     "pass2_log.txt" := File "c" ]};
       ext := ∅ |} =
  foldl (λ g n, cleanup_entry Cases.sticky n g)
    {| scratch := {[ "pass1_log.txt" := File "a";
                     "ffmpeg2pass-0.log" := File "b";
                     "pass2_log.txt" := File "c" ]};
       ext := ∅ |}
    ["pass1_log.txt"].
Proof.
  apply (window_sweep_stops_at_first_failure Cases.sticky ["pass1_log.txt"]
           "ffmpeg2pass-0.log" ["pass2_log.txt"] _ (File "b")).
  - intros n [->|H]%elem_of_cons; [reflexivity|]. by apply elem_of_nil in H.
  - intros [H|H]%elem_of_cons; [discriminate|]. by apply elem_of_nil in H.
  - reflexivity.
  - discriminate.
  - reflexivity.
Defined.

(** ** The log label of the window (lines 740-750) *)

(** [sep.join(parts)] *)
Fixpoint join (sep : string) (parts : list string) : string :=
  match parts with
  | [] => EmptyString
  | [p] => p
  | p :: rest => (p ++ sep ++ join sep rest)%string
  end.

(** [l[-n:]] for a positive [n]. *)
Definition last_n {A} (n : nat) (l : list A) : list A :=
  drop (length l - n) l.

(** [update_log] (lines 740-750): the text of the label after the call,
    from the text before it and the line received. *)
Definition update_log (text log_line : string) : string :=
  let lines := last_n 2 (PyStr.split nl log_line) in
  let display_text := join nl lines in
  let current_lines := PyStr.split nl text in
  if (2 <=? length current_lines)%nat then
    join nl (last_n 1 current_lines ++ [display_text])
  else display_text.

(** How often [c] occurs in [s]. *)
Fixpoint count_char (c : ascii) (s : string) : nat :=
  match s with
  | String x r => ((if Ascii.eqb x c then 1 else 0) + count_char c r)%nat
  | EmptyString => 0%nat
  end.

Lemma count_char_app c s t :
  count_char c (s ++ t) = (count_char c s + count_char c t)%nat.
Proof.
  induction s as [|x r IH]; [done|]. rewrite append_cons.
  change (count_char c (String x ?u))
    with ((if Ascii.eqb x c then 1 else 0) + count_char c u)%nat.
  rewrite IH. lia.
Qed.

Section OneChar.

Context (c : ascii).

Let sep : string := String c EmptyString.

Lemma split_aux_one x r :
  PyStr.split_aux sep 0 (String x r) =
  let '(p, ps) := PyStr.split_aux sep 0 r in
  if Ascii.eqb x c then (EmptyString, p :: ps) else (String x p, ps).
Proof.
  change (PyStr.split_aux sep 0 (String x r))
    with (if String.prefix sep (String x r)
          then (EmptyString,
                let '(p, ps) := PyStr.split_aux sep 0 r in p :: ps)
          else let '(p, ps) := PyStr.split_aux sep 0 r in (String x p, ps)).
  change (String.prefix sep (String x r))
    with (if ascii_dec c x then String.prefix EmptyString r else false).
  destruct (PyStr.split_aux sep 0 r) as [p ps].
  destruct (ascii_dec c x) as [->|Hne].
  - rewrite Ascii.eqb_refl. by destruct r.
  - destruct (Ascii.eqb_spec x c) as [->|]; done.
Qed.

Lemma split_one_cons x r :
  PyStr.split sep (String x r) =
  match PyStr.split sep r with
  | p :: ps => if Ascii.eqb x c then EmptyString :: p :: ps
               else String x p :: ps
  | [] => []
  end.
Proof.
  unfold PyStr.split. rewrite split_aux_one.
  destruct (PyStr.split_aux sep 0 r) as [p ps]. by destruct (Ascii.eqb x c).
Qed.

Lemma split_one_not_nil s : PyStr.split sep s ≠ [].
Proof. unfold PyStr.split. by destruct (PyStr.split_aux sep 0 s). Qed.

(** One piece more than there are separators. *)
Lemma split_one_length s :
  length (PyStr.split sep s) = S (count_char c s).
Proof.
  induction s as [|x r IH]; [done|]. rewrite split_one_cons.
  pose proof (split_one_not_nil r) as Hne.
  destruct (PyStr.split sep r) as [|p ps]; [done|].
  change (count_char c (String x r))
    with ((if Ascii.eqb x c then 1 else 0) + count_char c r)%nat.
  simpl in IH. destruct (Ascii.eqb x c); simpl; lia.
Qed.

(** No piece holds a separator. *)
Lemma split_one_free s :
  Forall (λ p, count_char c p = 0%nat) (PyStr.split sep s).
Proof.
  induction s as [|x r IH]; [by repeat constructor|].
  rewrite split_one_cons.
  destruct (PyStr.split sep r) as [|p ps]; [constructor|].
  apply Forall_cons in IH as [Hp Hps].
  destruct (Ascii.eqb x c) eqn:E.
  - by repeat constructor.
  - constructor; [|done].
    change (count_char c (String x p))
      with ((if Ascii.eqb x c then 1 else 0) + count_char c p)%nat.
    by rewrite E, Hp.
Qed.

(** Joining pieces without separators: one separator between every two
    of them. *)
Lemma join_one_count parts :
  Forall (λ p, count_char c p = 0%nat) parts ->
  count_char c (join sep parts) = (length parts - 1)%nat.
Proof.
  induction 1 as [|p parts Hp Hparts IH]; [done|].
  destruct parts as [|q parts]; [simpl; by rewrite Hp|].
  change (join sep (p :: q :: parts))
    with (p ++ sep ++ join sep (q :: parts))%string.
  rewrite !count_char_app, Hp, IH. simpl.
  rewrite Ascii.eqb_refl. lia.
Qed.

End OneChar.

Lemma last_n_length {A} n (l : list A) : (length (last_n n l) <= n)%nat.
Proof. unfold last_n. rewrite length_drop. lia. Qed.

Lemma last_n_Forall {A} (P : A -> Prop) n l :
  Forall P l -> Forall P (last_n n l).
Proof. apply Forall_drop. Qed.

Section Lines.

Local Abbreviation lf := (ascii_of_nat 10).

Lemma join_cons_head sep x p ps :
  join sep (String x p :: ps) = String x (join sep (p :: ps)).
Proof. by destruct ps. Qed.

(** Joining what was split gives the text back. *)
Lemma join_split s : join nl (PyStr.split nl s) = s.
Proof.
  induction s as [|x r IH]; [done|]. unfold nl in *.
  rewrite split_one_cons.
  pose proof (split_one_not_nil lf r) as Hne.
  destruct (PyStr.split (String lf EmptyString) r) as [|p ps]; [done|].
  destruct (Ascii.eqb_spec x lf) as [->|Hx].
  - change (join ?sep (EmptyString :: p :: ps))
      with (String lf (join sep (p :: ps))).
    by rewrite IH.
  - by rewrite join_cons_head, IH.
Qed.

(** A text without line feed is one line. *)
Lemma split_one_line s : count_char lf s = 0%nat -> PyStr.split nl s = [s].
Proof.
  induction s as [|x r IH]; [done|]. unfold nl in *.
  change (count_char lf (String x r))
    with ((if Ascii.eqb x lf then 1 else 0) + count_char lf r)%nat.
  rewrite split_one_cons.
  destruct (Ascii.eqb x lf); [done|]. simpl. intros H. by rewrite IH.
Qed.

(** The lines of two texts with a line feed between them. *)
Lemma split_app s t :
  PyStr.split nl (s ++ nl ++ t) = PyStr.split nl s ++ PyStr.split nl t.
Proof.
  unfold nl. induction s as [|x r IH].
  - change (("" ++ String lf "" ++ t)%string) with (String lf t).
    rewrite split_one_cons.
    pose proof (split_one_not_nil lf t) as Hne.
    destruct (PyStr.split (String lf EmptyString) t) as [|p ps]; [done|].
    by rewrite Ascii.eqb_refl.
  - rewrite append_cons, !split_one_cons, IH.
    pose proof (split_one_not_nil lf r) as Hne.
    destruct (PyStr.split (String lf EmptyString) r) as [|p ps]; [done|].
    simpl. by destruct (Ascii.eqb x lf).
Qed.

Lemma last_n_app {A} n (l k : list A) :
  length k = n -> last_n n (l ++ k) = k.
Proof.
  intros <-. unfold last_n. rewrite length_app.
  replace (length l + length k - length k)%nat with (length l) by lia.
  apply drop_app_length.
Qed.

Lemma last_n_short {A} n (l : list A) : (length l <= n)%nat -> last_n n l = l.
Proof.
  intros H. unfold last_n.
  by replace (length l - n)%nat with 0%nat by lia.
Qed.

(** The log label.  After [update_log] the label never holds more than
    three lines.  Its new text ends with what is shown of the text
    received: that text itself if it holds at most one line feed, its last
    two lines otherwise.  If the label held a text of one line, that is
    all; if it held more lines, its last line comes first, on a line of
    its own. *)
Theorem update_log_keeps_three_lines text log_line :
  let shown := join nl (last_n 2 (PyStr.split nl log_line)) in
  (length (PyStr.split nl (update_log text log_line)) <= 3)%nat
  ∧ (count_char lf text = 0%nat -> update_log text log_line = shown)
  ∧ (∀ before kept,
       text = (before ++ nl ++ kept)%string ->
       count_char lf kept = 0%nat ->
       update_log text log_line = (kept ++ nl ++ shown)%string)
  ∧ ((count_char lf log_line <= 1)%nat -> shown = log_line)
  ∧ (∀ before y z,
       log_line = (before ++ nl ++ y ++ nl ++ z)%string ->
       count_char lf y = 0%nat -> count_char lf z = 0%nat ->
       shown = (y ++ nl ++ z)%string).
Proof.
  intros shown.
  assert (count_char lf shown <= 1)%nat as Hd.
  { unfold shown, nl. rewrite join_one_count.
    - pose proof (last_n_length 2 (PyStr.split nl log_line)) as H.
      unfold nl in H. lia.
    - apply last_n_Forall, split_one_free. }
  assert (∀ before kept,
            text = (before ++ nl ++ kept)%string ->
            count_char lf kept = 0%nat ->
            update_log text log_line = (kept ++ nl ++ shown)%string) as Hkept.
  { intros before kept -> Hk. unfold update_log. cbv zeta. fold shown.
    rewrite split_app, (split_one_line kept Hk).
    rewrite length_app. simpl (length [kept]).
    pose proof (split_one_not_nil lf before) as Hne. fold nl in Hne.
    destruct (PyStr.split nl before) as [|p ps] eqn:E; [done|].
    replace (2 <=? length (p :: ps) + 1)%nat with true
      by (symmetry; apply Nat.leb_le; simpl; lia).
    by rewrite (last_n_app 1 (p :: ps) [kept]). }
  split; [|split; [|split; [done|split]]].
  - unfold update_log. cbv zeta. fold shown.
    destruct (2 <=? length (PyStr.split nl text))%nat eqn:E.
    + apply Nat.leb_le in E.
      pose proof (split_one_free lf text) as Hfree. fold nl in Hfree.
      assert (∃ x, last_n 1 (PyStr.split nl text) = [x]
                   ∧ count_char lf x = 0%nat) as (x & Hx & Hx0).
      { pose proof (last_n_Forall _ 1 _ Hfree) as Hl.
        assert (length (last_n 1 (PyStr.split nl text)) = 1%nat) as Hlen.
        { unfold last_n. rewrite length_drop. lia. }
        destruct (last_n 1 (PyStr.split nl text)) as [|x [|y l]]; try done.
        exists x. split; [done|]. by apply Forall_cons in Hl as [Hl _]. }
      rewrite Hx.
      change (join nl ([x] ++ [shown])) with (x ++ nl ++ shown)%string.
      unfold nl at 1. rewrite split_one_length, !count_char_app, Hx0.
      change (count_char lf nl) with 1%nat. lia.
    + unfold nl at 1. rewrite split_one_length. lia.
  - intros H0. unfold update_log. cbv zeta. fold shown.
    unfold nl at 1. rewrite split_one_length. by rewrite H0.
  - intros H1. unfold shown. rewrite last_n_short; [apply join_split|].
    unfold nl. rewrite split_one_length. lia.
  - intros before y z -> Hy Hz. unfold shown.
    rewrite !split_app, (split_one_line y Hy), (split_one_line z Hz).
    by rewrite (last_n_app 2 _ ([y] ++ [z])).
Qed.

End Lines.

Lemma update_log_keeps_three_lines_witness :
  update_log ("frame= 1" ++ nl ++ "frame= 2")
    ("bitrate=419" ++ nl ++ "frame= 3" ++ nl ++ "frame= 4") =
  ("frame= 2" ++ nl ++ "frame= 3" ++ nl ++ "frame= 4")%string.
Proof.
  destruct (update_log_keeps_three_lines
              ("frame= 1" ++ nl ++ "frame= 2")
              ("bitrate=419" ++ nl ++ "frame= 3" ++ nl ++ "frame= 4"))
    as (_ & _ & Hkept & _ & Hshown).
  rewrite (Hkept "frame= 1" "frame= 2" eq_refl eq_refl).
  by rewrite (Hshown "bitrate=419" "frame= 3" "frame= 4" eq_refl eq_refl eq_refl).
Defined.
